(** * DD-WRT NVRAM backup tools: [nvram_dump] and [nvram_build]

    A shallow embedding of the two C programs of the repository and the
    properties of their text/binary codec.

    Conventions of the embedding.
    - A C [char] is an [ascii], read through its unsigned value
      ([N_of_ascii], 0..255).  The code only inspects characters through
      [isascii], [iscntrl], equality tests and [& 0xFF], all of which give
      the same answer whether [char] is signed or not.
    - A [char *] is the content of the memory from the pointed address to
      the end of the object it points into ([bytes]).  Reading past that
      content is outside of the object and is reported as a fault.
    - C [int]s are [Z]; the lengths involved are bounded by the static
      buffers of the programs (at most 128K), far from any overflow.
    - [FILE *] streams are byte lists: an input stream is the list of the
      bytes still to be read, an output stream the list of bytes written.
      Writes are assumed to succeed (the error branches after [fwrite],
      [fseek] and the failures of [fopen] for output are not modelled).
    - [stderr] is a list of tagged diagnostics. *)

From Stdlib Require Import Ascii String.
From Stdlib Require Import List ZArith NArith Bool Lia Arith.
Import ListNotations.

Local Open Scope Z_scope.

Definition bytes := list ascii.

Definition NUL : ascii := "000"%char.
Definition BEL : ascii := "007"%char.  (* '\a' *)
Definition BS  : ascii := "008"%char.  (* '\b' *)
Definition TAB : ascii := "009"%char.  (* '\t' *)
Definition NL  : ascii := "010"%char.  (* '\n' *)
Definition VT  : ascii := "011"%char.  (* '\v' *)
Definition FF  : ascii := "012"%char.  (* '\f' *)
Definition CR  : ascii := "013"%char.  (* '\r' *)
Definition BSL : ascii := "\"%char.    (* '\\' *)
Definition EQS : ascii := "="%char.

Definition code (c : ascii) : Z := Z.of_N (N_of_ascii c).

(** Conversion of an [int] to a [char]: the low 8 bits. *)
Definition char_of_int (v : Z) : ascii := ascii_of_N (Z.to_N (Z.land v 255)).

Definition str (s : string) : bytes := list_ascii_of_string s.

Definition len (l : bytes) : Z := Z.of_nat (length l).

(** ** The C library functions used by the programs *)

(** The characters of the C string stored at the start of [m]: the
    characters before the first NUL. *)
Fixpoint cstring (m : bytes) : bytes :=
  match m with
  | [] => []
  | c :: m' => if (c =? NUL)%char then [] else c :: cstring m'
  end.

Definition strlen (m : bytes) : nat := length (cstring m).

(** [strchr m c] for [c <> 0]: the offset of the first [c] in the C string
    at [m], [None] for a null pointer. *)
Fixpoint strchr (m : bytes) (c : ascii) : option nat :=
  match m with
  | [] => None
  | d :: m' =>
      if (d =? c)%char then Some 0%nat
      else if (d =? NUL)%char then None
      else option_map S (strchr m' c)
  end.

(** [*(p + i) = c] on the memory at [p]. *)
Fixpoint poke (m : bytes) (i : nat) (c : ascii) : bytes :=
  match m, i with
  | [], _ => []
  | _ :: m', O => c :: m'
  | d :: m', S i' => d :: poke m' i' c
  end.

(** [memcmp( a, b, n ) == 0]. *)
Fixpoint memeq (a b : bytes) (n : nat) {struct n} : bool :=
  match n with
  | O => true
  | S n' =>
      match a, b with
      | x :: a', y :: b' => (x =? y)%char && memeq a' b' n'
      | _, _ => false
      end
  end.

Definition isascii (c : ascii) : bool := code c <? 128.
Definition iscntrl (c : ascii) : bool := (code c <? 32) || (code c =? 127).
Definition isspace (c : ascii) : bool :=
  (c =? " ")%char || (c =? TAB)%char || (c =? NL)%char ||
  (c =? VT)%char || (c =? FF)%char || (c =? CR)%char.

(** The upper-case hexadecimal digit of [d] in 0..15, as [%X] prints it. *)
Definition hex_digit (d : Z) : ascii :=
  if d <? 10 then ascii_of_N (Z.to_N (48 + d))
  else ascii_of_N (Z.to_N (65 + (d - 10))).

(** [sprintf( tmpbuf, "\\x%02.2X", v )] for [v] in 0..255. *)
Definition sprintf_hex (v : Z) : bytes :=
  [BSL; "x"%char; hex_digit (v / 16); hex_digit (v mod 16)].

(** The value of a hexadecimal digit, as [strtol] in base 16 reads it. *)
Definition hex_value (c : ascii) : option Z :=
  let n := code c in
  if (48 <=? n) && (n <=? 57) then Some (n - 48)
  else if (65 <=? n) && (n <=? 70) then Some (n - 55)
  else if (97 <=? n) && (n <=? 102) then Some (n - 87)
  else None.

Definition is_hex (c : ascii) : bool :=
  match hex_value c with Some _ => true | None => false end.

(** The digits of the subject sequence of [strtol]: the value read and the
    number of characters it takes. *)
Fixpoint strtol_digits (s : bytes) (acc : Z) (n : nat) : Z * nat :=
  match s with
  | [] => (acc, n)
  | c :: s' =>
      match hex_value c with
      | Some d => strtol_digits s' (16 * acc + d) (S n)
      | None => (acc, n)
      end
  end.

Fixpoint strtol_spaces (s : bytes) : nat :=
  match s with
  | c :: s' => if isspace c then S (strtol_spaces s') else O
  | [] => O
  end.

(** [strtol( s, &eptr, 16 )] on the C string [s] (ISO C 7.22.1.4): white
    space is skipped, then an optional sign, then an optional [0x] or [0X]
    when a hexadecimal digit follows it, then the longest run of
    hexadecimal digits.  The result is the value and [eptr - s]; with no
    digit at all no conversion is made and [eptr = s].  Overflow of [long]
    (ERANGE) needs more than two digits and is left out. *)
Definition strtol16 (s : bytes) : Z * nat :=
  let s := cstring s in
  let k0 := strtol_spaces s in
  let s1 := skipn k0 s in
  let '(neg, k1) :=
    match s1 with
    | c :: _ => if (c =? "-")%char then (true, 1%nat)
                else if (c =? "+")%char then (false, 1%nat)
                else (false, 0%nat)
    | [] => (false, 0%nat)
    end in
  let s2 := skipn k1 s1 in
  let k2 :=
    match s2 with
    | z :: x :: h :: _ =>
        if (z =? "0")%char && ((x =? "x")%char || (x =? "X")%char) && is_hex h
        then 2%nat else 0%nat
    | _ => 0%nat
    end in
  let s3 := skipn k2 s2 in
  let '(v, k3) := strtol_digits s3 0 0%nat in
  match k3 with
  | O => (0, 0%nat)
  | _ => (if neg then - v else v, (k0 + k1 + k2 + k3)%nat)
  end.

(** ** nvram_dump.c: the escape engine *)

Definition ESC_FULL : Z := 0.
Definition ESC_HUMAN : Z := 1.

(** The content of [tmpbuf] for the character [c]: the body of the loop of
    [escape_string] up to the test of the room left. *)
Definition escape_char (escape_mode : Z) (c : ascii) : bytes :=
  if isascii c then
    if iscntrl c then
      if (c =? NL)%char then
        if escape_mode =? ESC_HUMAN then [BSL; NL] else [BSL; "n"%char]
      else if (c =? BEL)%char then [BSL; "a"%char]
      else if (c =? BS)%char then [BSL; "b"%char]
      else if (c =? FF)%char then [BSL; "f"%char]
      else if (c =? CR)%char then [BSL; "r"%char]
      else if (c =? TAB)%char then [BSL; "t"%char]
      else if (c =? VT)%char then [BSL; "v"%char]
      else sprintf_hex (Z.land (code c) 255)
    else if (c =? BSL)%char then [BSL; BSL]
    else [c]
  else sprintf_hex (Z.land (code c) 255).

(** The loop of [escape_string] over the characters [src[i..len-1]]
    ([src] is the list of these characters): [j] characters are in [dest]
    already.  The result is the final [i] and the string left in [dest]. *)
Fixpoint escape_loop (escape_mode : Z) (src : bytes) (i j max : Z)
    (dest : bytes) : Z * bytes :=
  match src with
  | [] => (i, dest)
  | c :: src' =>
      let tmpbuf := escape_char escape_mode c in
      if j + len tmpbuf >=? max then (i, dest)
      else escape_loop escape_mode src' (i + 1) (j + len tmpbuf) max
             (dest ++ tmpbuf)
  end.

(** [escape_string( escape_mode, src, dest, max )] for non-null [src] and
    [dest], called as [dump_file] does with [dest[0] = 0] beforehand: the
    value returned and the C string in [dest] afterwards. *)
Definition escape_string (escape_mode : Z) (src : bytes) (max : Z)
    : Z * bytes :=
  if max <=? 0 then (0, [])
  else escape_loop escape_mode (cstring src) 0 0 max [].

(** ** nvram_build.c: [unescape_string] *)

(** What a call of [unescape_string( src, dest )] does: the value returned,
    the bytes stored through [q] in order (the final NUL included), and the
    number of bytes of [src] it has looked at (one more than the highest
    offset read).  [UFault] is a read outside of the memory [src]. *)
Inductive unescaped : Type :=
  | UReturn (sts : Z) (dest : bytes) (nread : nat)
  | UFault.

(** [*q = c; q++] and [k] more characters of the source passed. *)
Definition store (c : ascii) (k : nat) (r : unescaped) : unescaped :=
  match r with
  | UReturn sts dest nread => UReturn sts (c :: dest) (k + nread)
  | UFault => UFault
  end.

Fixpoint unescape_string (src : bytes) : unescaped :=
  match src with
  | [] => UFault
  | c :: p1 =>
      if (c =? NUL)%char then UReturn 0 [NUL] 1
      else if (c =? BSL)%char then
        match p1 with
        | [] => UFault
        | e :: p2 =>
            if (e =? "a")%char then store BEL 2 (unescape_string p2)
            else if (e =? "b")%char then store BS 2 (unescape_string p2)
            else if (e =? "f")%char then store FF 2 (unescape_string p2)
            else if (e =? "n")%char then store NL 2 (unescape_string p2)
            else if (e =? "r")%char then store CR 2 (unescape_string p2)
            else if (e =? "t")%char then store TAB 2 (unescape_string p2)
            else if (e =? "v")%char then store VT 2 (unescape_string p2)
            else if (e =? BSL)%char then store BSL 2 (unescape_string p2)
            else if (e =? "x")%char then
              match p2 with
              | s0 :: s1 :: p4 =>
                  let '(v, eptr) := strtol16 [s0; s1; NUL] in
                  if negb (eptr =? 2)%nat then UReturn 1 [] 4
                  else store (char_of_int v) 4 (unescape_string p4)
              | _ => UFault
              end
            else store e 2 (unescape_string p2)
        end
      else store c 1 (unescape_string p1)
  end.

(** ** nvram_dump.c: [dump_file] and [main] *)

Inductive dump_diag : Type :=
  | DumpUsage                       (* Expected at least one file, and the usage *)
  | DumpHeader                      (* Error reading header and record count *)
  | DumpNameLength (record : Z)     (* Error reading name length *)
  | DumpName (record : Z)           (* Error reading name *)
  | DumpValueLength (record : Z)    (* Error reading value length *)
  | DumpValue (record : Z)          (* Error reading value *)
  | DumpNameCut (record : Z)        (* cannot copy entire name *)
  | DumpNameNonPrintable (record : Z)
  | DumpValueCut (record : Z).      (* cannot copy entire value *)

(** [fread( buffer, 1, n, f )]: the bytes read and the stream left. *)
Definition fread (n : nat) (f : bytes) : bytes * bytes :=
  (firstn n f, skipn n f).

Definition MAGIC : bytes := str "DD-WRT".

(** The unsigned 16-bit value [hi * 256 + lo]. *)
Definition le16 (lo hi : ascii) : Z := code hi * 256 + code lo.

(** The four reads of one iteration of the loop of [dump_file]: either the
    diagnostic of the short read, or the name and the value as read (before
    their NUL terminator is added) and the stream left. *)
Definition read_record (record : Z) (f : bytes)
    : dump_diag + (bytes * bytes * bytes) :=
  let '(b, f) := fread 1 f in
  match b with
  | [] => inl (DumpNameLength record)
  | b0 :: _ =>
      let name_len := Z.to_nat (code b0) in
      let '(name, f) := fread name_len f in
      if negb (length name =? name_len)%nat then inl (DumpName record)
      else
        let '(b, f) := fread 2 f in
        match b with
        | [b0; b1] =>
            let value_len := Z.to_nat (le16 b0 b1) in
            if (0 <? value_len)%nat then
              let '(value, f) := fread value_len f in
              if negb (length value =? value_len)%nat
              then inl (DumpValue record)
              else inr (name, value, f)
            else inr (name, [], f)
        | _ => inl (DumpValueLength record)
        end
  end.

(** The line printed for a record and the diagnostics that go with it:
    the end of the body of the loop of [dump_file], from the two calls of
    [escape_string] on.  [name] and [value] are the static buffers, NUL
    terminated. *)
Definition print_record (escape_mode record : Z) (name value : bytes)
    : bytes * list dump_diag :=
  let '(copied, esc_name) := escape_string ESC_FULL name 513 in
  let d1 :=
    if copied <? Z.of_nat (strlen name) then [DumpNameCut record]
    else if (strlen name <? strlen esc_name)%nat
         then [DumpNameNonPrintable record]
         else [] in
  let '(copied, esc_value) :=
    escape_string escape_mode value (65536 * 2 + 1) in
  let d2 :=
    if copied <? Z.of_nat (strlen value) then [DumpValueCut record]
    else [] in
  (esc_name ++ [EQS] ++ esc_value ++ [NL], d1 ++ d2).

(** The loop [while ( record < record_count )] with [todo] iterations to
    go: the value [dump_file] returns, [stdout] and [stderr]. *)
Fixpoint dump_loop (escape_mode : Z) (todo : nat) (record : Z) (f : bytes)
    (out : bytes) (err : list dump_diag) : Z * bytes * list dump_diag :=
  match todo with
  | O => (0, out, err)
  | S todo' =>
      let record := record + 1 in
      match read_record record f with
      | inl d => (1, out, err ++ [d])
      | inr (name, value, f) =>
          let '(line, ds) :=
            print_record escape_mode record (name ++ [NUL]) (value ++ [NUL]) in
          dump_loop escape_mode todo' record f (out ++ line) (err ++ ds)
      end
  end.

(** [dump_file( escape_mode, filename )] on a file that opens, with the
    content [f]; [out] and [err] are what [stdout] and [stderr] hold. *)
Definition dump_file (escape_mode : Z) (f : bytes) (out : bytes)
    (err : list dump_diag) : Z * bytes * list dump_diag :=
  let '(buffer, f) := fread 8 f in
  if negb (length buffer =? 8)%nat || negb (memeq buffer MAGIC 6)
  then (1, out, err ++ [DumpHeader])
  else
    let record_count := le16 (nth 6 buffer NUL) (nth 7 buffer NUL) in
    dump_loop escape_mode (Z.to_nat record_count) 0 f out err.

(** The loop of [main] of nvram_dump over its file arguments. *)
Fixpoint dump_files (escape : Z) (files : list bytes) (ret : Z)
    (out : bytes) (err : list dump_diag) : Z * bytes * list dump_diag :=
  match files with
  | [] => (ret, out, err)
  | f :: files' =>
      let '(sts, out, err) := dump_file escape f out err in
      let ret := if negb (sts =? 0) && (ret =? 0) then sts else ret in
      dump_files escape files' ret out err
  end.

(** [nvram_dump [-h] file...] on files that open: the exit code, [stdout]
    and [stderr].  Without a file argument [main] prints the usage and
    returns 1. *)
Definition nvram_dump (escape : Z) (files : list bytes)
    : Z * bytes * list dump_diag :=
  match files with
  | [] => (1, [], [DumpUsage])
  | _ :: _ => dump_files escape files 0 [] []
  end.

(** The records [dump_file] reads from an image: its loop with the
    printing left out.  [None] when [dump_file] fails. *)
Fixpoint read_records (todo : nat) (record : Z) (f : bytes)
    : option (list (bytes * bytes)) :=
  match todo with
  | O => Some []
  | S todo' =>
      match read_record (record + 1) f with
      | inl _ => None
      | inr (name, value, f) =>
          option_map (cons (name, value)) (read_records todo' (record + 1) f)
      end
  end.

Definition read_image (f : bytes) : option (list (bytes * bytes)) :=
  let '(buffer, f) := fread 8 f in
  if negb (length buffer =? 8)%nat || negb (memeq buffer MAGIC 6)
  then None
  else read_records (Z.to_nat (le16 (nth 6 buffer NUL) (nth 7 buffer NUL))) 0 f.

(** ** nvram_build.c: [build_file], [output_header], [fixup_record_count]
    and [main] *)

(** The messages of [build_file] on [stderr].  The four messages about a
    line have the format [Line %d], but every one of these calls of
    [fprintf] gives [filename] as the argument of [%d] and [line_number]
    behind it, where no conversion reads it: the number printed is not
    the line number, and the diagnostics carry no number. *)
Inductive build_diag : Type :=
  | BuildRead              (* Problem reading the file *)
  | BuildMissingEquals     (* missing equals sign *)
  | BuildEmptyName         (* name is empty *)
  | BuildBadName           (* problem unescaping name *)
  | BuildBadValue.         (* problem unescaping value *)

(** The runs that give no output file: behaviour that C leaves
    undefined, the exhaustion of the fuel of the loop of the model, and
    the exit of [main] with the usage. *)
Inductive fault : Type :=
  | ReadOutside     (* [unescape_string] reads past the end of [buffer] *)
  | OverrunName     (* more than 257 bytes stored into [r_name] *)
  | OverrunValue    (* more than 65537 bytes stored into [r_value] *)
  | OutOfFuel
  | Usage.          (* no input file: [main] prints "Expected at least one
                       input file" and the usage and returns 1 before it
                       opens a file *)

Inductive outcome (A : Type) : Type :=
  | Ok (a : A)
  | Fault (f : fault).
Arguments Ok {A} a.
Arguments Fault {A} f.

Definition bind {A B : Type} (m : outcome A) (k : A -> outcome B)
    : outcome B :=
  match m with
  | Ok a => k a
  | Fault f => Fault f
  end.

Notation "'do' x <- m ; k" := (bind m (fun x => k))
  (at level 10, x name, m at level 100, k at level 200).

(** The sizes of the static buffers of [build_file]. *)
Definition BUFFER_MAX : Z := 128 * 1024.
Definition R_NAME_SIZE : Z := 256 + 1.
Definition R_VALUE_SIZE : Z := 65536 + 1.

(** [strncpy( dest, src, n )]: the [n] bytes stored at [dest]. *)
Definition strncpy (src : bytes) (n : nat) : bytes :=
  firstn n (cstring src) ++ repeat NUL (n - strlen src).

(** The record built in [output_buffer] from the unescaped name and value
    (the C strings in [r_name] and [r_value]): its [record_len] bytes. *)
Definition make_record (name value : bytes) : bytes :=
  let len0 := Z.land (Z.of_nat (strlen name)) 255 in
  let len1 := Z.land (Z.of_nat (strlen value)) 65535 in
  [char_of_int len0] ++ strncpy name (Z.to_nat len0) ++
  [char_of_int (Z.land len1 255); char_of_int (Z.land (Z.shiftr len1 8) 255)] ++
  strncpy value (Z.to_nat len1).

(** The first loop of [build_file], over [i] from its current value for
    [n] more iterations. *)
Fixpoint join_lines (n : nat) (i : nat) (buffer : bytes) : bytes :=
  match n with
  | O => buffer
  | S n' =>
      let buffer :=
        if (nth i buffer NUL =? BSL)%char && (nth (i + 1) buffer NUL =? NL)%char
        then poke buffer (i + 1) "n"%char
        else buffer in
      join_lines n' (S i) buffer
  end.

(** The state of [build_file] in its second loop: the static [buffer],
    the offset [p_start] into it, the two counters, the records written to
    the output file (one per [fwrite]) and [stderr]. *)
Record build_state : Type := {
  buffer : bytes;
  p_start : nat;
  record_count : Z;
  line_number : Z;
  written : list bytes;
  diags : list build_diag
}.

(** The body of the loop [while ( p_start < p_end )]: one line of the
    buffer, from [p_start] on. *)
Definition build_line (st : build_state) : outcome build_state :=
  let line_number := line_number st + 1 in
  let s := skipn (p_start st) (buffer st) in
  let p_equals := strchr s EQS in
  let p_newline :=
    match strchr s NL with
    | Some k => (p_start st + k)%nat
    | None => (p_start st + strlen s)%nat
    end in
  match p_equals with
  | None =>
      Ok {| buffer := buffer st; p_start := p_newline + 1;
            record_count := record_count st; line_number := line_number;
            written := written st;
            diags := diags st ++ [BuildMissingEquals] |}
  | Some k =>
      let p_equals := (p_start st + k)%nat in
      let buffer := poke (buffer st) p_newline NUL in
      let buffer := poke buffer p_equals NUL in
      let name := skipn (p_start st) buffer in
      let value := skipn (p_equals + 1) buffer in
      let next record_count written diags :=
        {| buffer := buffer; p_start := p_newline + 1;
           record_count := record_count; line_number := line_number;
           written := written; diags := diags |} in
      if (strlen name =? 0)%nat then
        Ok (next (record_count st) (written st)
              (diags st ++ [BuildEmptyName]))
      else
        match unescape_string name with
        | UFault => Fault ReadOutside
        | UReturn sts r_name _ =>
            if R_NAME_SIZE <? len r_name then Fault OverrunName
            else if negb (sts =? 0) then
              Ok (next (record_count st) (written st)
                    (diags st ++ [BuildBadName]))
            else
              match unescape_string value with
              | UFault => Fault ReadOutside
              | UReturn sts r_value _ =>
                  if R_VALUE_SIZE <? len r_value then Fault OverrunValue
                  else if negb (sts =? 0) then
                    Ok (next (record_count st) (written st)
                          (diags st ++ [BuildBadValue]))
                  else
                    Ok (next (record_count st + 1)
                          (written st ++ [make_record r_name r_value])
                          (diags st))
              end
        end
  end.

(** The loop [while ( p_start < p_end )].  Every line moves [p_start]
    forward, so [p_end - p_start] iterations are enough ([fuel]). *)
Fixpoint build_loop (fuel : nat) (p_end : nat) (st : build_state)
    : outcome build_state :=
  if negb (p_start st <? p_end)%nat then Ok st
  else
    match fuel with
    | O => Fault OutOfFuel
    | S fuel' => do st' <- build_line st; build_loop fuel' p_end st'
    end.

(** What a call of [build_file( output_file, filename )] leaves: the value
    returned, the static [buffer], the records written and [stderr]. *)
Record built : Type := {
  b_ret : Z;
  b_buffer : bytes;
  b_written : list bytes;
  b_diags : list build_diag
}.

(** [build_file] on a file that opens, with the content [f];
    [static_buffer] is the static [buffer] as the previous call left it
    (all zero for the first). *)
Definition build_file (static_buffer : bytes) (f : bytes) : outcome built :=
  let '(data, _) := fread (Z.to_nat (BUFFER_MAX + 1)) f in
  let bytes_read := length data in
  let buffer0 := data ++ skipn bytes_read static_buffer in
  if Z.of_nat bytes_read <=? BUFFER_MAX then
    let buffer1 := poke buffer0 (Z.to_nat BUFFER_MAX) NUL in
    let max := strlen buffer1 in
    let buffer2 := join_lines max 0 buffer1 in
    let p_end := strlen buffer2 in
    (do st <- build_loop p_end p_end
                {| buffer := buffer2; p_start := 0; record_count := 0;
                   line_number := 0; written := []; diags := [] |};
     Ok {| b_ret := record_count st; b_buffer := buffer st;
           b_written := written st; b_diags := diags st |})
  else
    Ok {| b_ret := -1; b_buffer := buffer0; b_written := [];
          b_diags := [BuildRead] |}.

(** [output_header]: the 8 bytes written. *)
Definition output_header : bytes := MAGIC ++ [NUL; NUL].

(** [fixup_record_count( output_file, record_count )] on the content of
    the output file: [fseek] to offset 6 and the two bytes written. *)
Definition fixup_record_count (output_file : bytes) (record_count : Z)
    : bytes :=
  let b0 := char_of_int (Z.land record_count 255) in
  let b1 := char_of_int (Z.land (Z.shiftr record_count 8) 255) in
  poke (poke output_file 6 b0) 7 b1.

(** The state of the loop of [main] over the input files. *)
Record main_state : Type := {
  m_buffer : bytes;       (* the static buffer of [build_file] *)
  m_ret : Z;
  m_record_count : Z;
  m_records : list bytes; (* the records written after the header *)
  m_diags : list build_diag
}.

Fixpoint main_loop (files : list bytes) (st : main_state)
    : outcome main_state :=
  match files with
  | [] => Ok st
  | f :: files' =>
      do b <- build_file (m_buffer st) f;
      let cnt := b_ret b in
      main_loop files'
        {| m_buffer := b_buffer b;
           m_ret := if cnt <? 0 then 1 else m_ret st;
           m_record_count :=
             if cnt <? 0 then m_record_count st else m_record_count st + cnt;
           m_records := m_records st ++ b_written b;
           m_diags := m_diags st ++ b_diags b |}
  end.

(** [nvram_build [-o output] file...] on input files that open: the exit
    code, the content of the output file, the records written into it
    one by one, and [stderr].  Without an input file [main] returns 1
    after the usage, and no output file is opened. *)
Definition nvram_build (files : list bytes)
    : outcome (Z * bytes * list bytes * list build_diag) :=
  match files with
  | [] => Fault Usage
  | _ :: _ =>
      do st <- main_loop files
                 {| m_buffer := repeat NUL (Z.to_nat (BUFFER_MAX + 1));
                    m_ret := 0; m_record_count := 0; m_records := [];
                    m_diags := [] |};
      let f := output_header ++ concat (m_records st) in
      let f := if m_ret st =? 0 then fixup_record_count f (m_record_count st)
               else f in
      Ok (m_ret st, f, m_records st, m_diags st)
  end.


(** ** nvram_build.c: the name of the output file in [main] *)

Definition DOT : ascii := "."%char.
Definition SLASH : ascii := "/"%char.

(** [strrchr m c] for [c <> 0]: the offset of the last [c] in the C
    string at [m], [None] for a null pointer. *)
Fixpoint strrchr (m : bytes) (c : ascii) : option nat :=
  match m with
  | [] => None
  | d :: m' =>
      if (d =? NUL)%char then None
      else
        match strrchr m' c with
        | Some k => Some (S k)
        | None => if (d =? c)%char then Some 0%nat else None
        end
  end.

(** [strcpy( m + p, s )] for a string constant [s]: its characters and
    the terminating NUL stored from offset [p] on. *)
Fixpoint strcpy (m : bytes) (p : nat) (s : bytes) : bytes :=
  match s with
  | [] => poke m p NUL
  | c :: s' => strcpy (poke m p c) (S p) s'
  end.

(** [strcat( m, s )] for a string constant [s]. *)
Definition strcat (m s : bytes) : bytes := strcpy m (strlen m) s.

(** [strncpy( output_filename, s, 65536 ); output_filename[65536] = 0]
    on the array [output_filename]. *)
Definition copy_filename (output_filename s : bytes) : bytes :=
  poke (strncpy s (Z.to_nat 65536) ++ skipn (Z.to_nat 65536) output_filename)
    (Z.to_nat 65536) NUL.

(** The block of [main] that changes the extension of the name in
    [output_filename] to [.bin], or appends [.bin] when the last path
    segment has no extension. *)
Definition change_extension (output_filename : bytes) : bytes :=
  let p_dot := strrchr output_filename DOT in
  let p_slash := strrchr output_filename SLASH in
  match p_dot with
  | Some d =>
      if match p_slash with
         | None => true
         | Some s => (s <? d)%nat
         end
      then strcpy output_filename d (str ".bin")
      else strcat output_filename (str ".bin")
  | None => strcat output_filename (str ".bin")
  end.

(** The name [main] gives to [fopen] for the output file: [optargs] are
    the arguments of the [-o] options in the order of the command line,
    [files] the names of the input files, each given by its characters.
    [None] is the exit with status 1 when there is no input file, before
    any file is opened. *)
Definition output_name (optargs files : list bytes) : option bytes :=
  let output_filename := repeat NUL (Z.to_nat 65541) in
  let output_filename := fold_left copy_filename optargs output_filename in
  match files with
  | [] => None
  | first :: _ =>
      if (strlen output_filename =? 0)%nat then
        let output_filename := copy_filename output_filename first in
        Some (cstring (change_extension output_filename))
      else Some (cstring output_filename)
  end.
(** * Definitions used by the statements *)

(** The escaped form of a byte string: what [escape_string] stores when
    nothing is cut. *)
Definition esc (escape_mode : Z) (x : bytes) : bytes :=
  concat (map (escape_char escape_mode) x).

(** ** Sample inputs *)

(** The image of the two records [a] with the value [x\] (a value that
    ends in a backslash) and [k] with the value [v]. *)
Definition image_backslash : bytes :=
  MAGIC ++ ["002"%char; NUL] ++
  ["001"%char] ++ str "a" ++ ["002"%char; NUL] ++ str "x\" ++
  ["001"%char] ++ str "k" ++ ["001"%char; NUL] ++ str "v".

(** What [nvram_dump -h] prints for it. *)
Definition text_backslash : bytes :=
  str "a=x\\" ++ [NL] ++ str "k=v" ++ [NL].

(** ** Records, images and text *)

(** A record: the bytes of its name and of its value. *)
Definition record : Type := (bytes * bytes)%type.

(** The bytes of a record in an image: the length of the name on one
    byte, the name, the length of the value on two bytes, least
    significant first, and the value.  [read_record] reads them back
    (lemma [read_record_bytes]) and [make_record] builds them when the
    name and the value hold no NUL (lemma [written_record_bytes]). *)
Definition record_bytes (r : record) : bytes :=
  let '(name, value) := r in
  [char_of_int (len name)] ++ name ++
  [char_of_int (len value); char_of_int (Z.shiftr (len value) 8)] ++ value.

(** The image with the count [count] in its header and the records
    [rs]. *)
Definition image (count : Z) (rs : list record) : bytes :=
  MAGIC ++ [char_of_int count; char_of_int (Z.shiftr count 8)] ++
  concat (map record_bytes rs).

(** A record whose fields fit their length bytes. *)
Definition fits (r : record) : Prop :=
  len (fst r) <= 255 /\ len (snd r) <= 65535.

(** The record [build_file] writes for a name and a value once they are
    unescaped into [r_name] and [r_value]. *)
Definition written_record (r : record) : bytes :=
  make_record (fst r ++ [NUL]) (snd r ++ [NUL]).

(** The image [nvram_build] writes for the records [rs]: the header, the
    records and the count patched in. *)
Definition serialize (rs : list record) : bytes :=
  fixup_record_count (output_header ++ concat (map written_record rs))
    (Z.of_nat (length rs)).

(** The line [dump_file] prints for a record. *)
Definition dump_line (escape_mode : Z) (r : record) : bytes :=
  fst (print_record escape_mode 0 (fst r ++ [NUL]) (snd r ++ [NUL])).

(** The line of a record when nothing is cut: the name and the value
    escaped, the name always in full mode. *)
Definition text_line (escape_mode : Z) (r : record) : bytes :=
  esc ESC_FULL (fst r) ++ [EQS] ++ esc escape_mode (snd r) ++ [NL].

Definition text_of (escape_mode : Z) (rs : list record) : bytes :=
  concat (map (text_line escape_mode) rs).

(** The line of a record in [buffer] once [build_file] has put a NUL in
    place of its equals sign and of its newline. *)
Definition cut_line (r : record) : bytes :=
  esc ESC_FULL (fst r) ++ [NUL] ++ esc ESC_FULL (snd r) ++ [NUL].

(** The records whose full-mode line [build_file] reads back: the name is
    not empty, has no NUL and no equals sign and fits [r_name]; the value
    has no NUL, does not end in a backslash and fits [r_value]. *)
Definition readable (r : record) : Prop :=
  fst r <> [] /\ ~ In NUL (fst r) /\ ~ In EQS (fst r) /\ len (fst r) <= 256 /\
  ~ In NUL (snd r) /\ last (snd r) NUL <> BSL /\ len (snd r) <= 65536.

(** No backslash is immediately followed by a newline. *)
Fixpoint no_continuation (l : bytes) : Prop :=
  match l with
  | c :: l' =>
      match l' with
      | d :: _ => ~ (c = BSL /\ d = NL)
      | [] => True
      end /\ no_continuation l'
  | [] => True
  end.

(** The stream [f] holds no complete record: the length byte of the name
    is missing, or fewer bytes than it declares follow it, or the two
    length bytes of the value are missing, or fewer bytes than they
    declare follow them. *)
Definition short_record (f : bytes) : Prop :=
  match f with
  | [] => True
  | b0 :: f1 =>
      len f1 < code b0 \/
      match skipn (Z.to_nat (code b0)) f1 with
      | lo :: hi :: f3 => len f3 < le16 lo hi
      | _ => True
      end
  end.

(** The records that the full-mode text carries unchanged: the name is
    not empty, has no NUL and no equals sign, is at most 255 bytes long
    and at most 512 once escaped (the room in [esc_name]); the value has
    no NUL, does not end in a backslash and is at most 65535 bytes
    long. *)
Definition round_trips (r : record) : Prop :=
  fst r <> [] /\ ~ In NUL (fst r) /\ ~ In EQS (fst r) /\
  len (fst r) <= 255 /\ len (esc ESC_FULL (fst r)) <= 512 /\
  ~ In NUL (snd r) /\ last (snd r) NUL <> BSL /\ len (snd r) <= 65535.

(** The image of one record whose value [x], NUL, [y] holds a NUL. *)
Definition image_nul : bytes :=
  image 1 [(str "a", str "x" ++ [NUL] ++ str "y")].

(** An image that announces two records and is cut in the value of the
    second. *)
Definition image_cut : bytes :=
  image 2 [(str "a", str "b")] ++
  ["001"%char] ++ str "c" ++ ["005"%char; NUL] ++ str "xy".

(** A line whose name is 256 bytes long. *)
Definition text_long_name : bytes :=
  repeat "a"%char 256 ++ str "=v" ++ [NL].

(** An input file of 32768 lines [a=]. *)
Definition records_32768 : list record :=
  repeat (str "a", []) (Z.to_nat 32768).

Definition text_32768 : bytes := text_of ESC_FULL records_32768.

(** The pairs of characters that [unescape_string] accepts after [\x]. *)
Definition accepted_hex (s0 s1 : ascii) : bool :=
  is_hex s1 &&
  (is_hex s0 || isspace s0 || (s0 =? "+")%char || (s0 =? "-")%char).

(** All the characters. *)
Definition all_chars : list ascii := map ascii_of_nat (seq 0 256).

(** * Definitions used by the further properties *)

(** The printable ASCII characters, space to tilde. *)
Definition printable (c : ascii) : bool :=
  (32 <=? code c) && (code c <=? 126).

(** The characters [escape_string] copies as they are. *)
Definition plain (c : ascii) : bool :=
  isascii c && negb (iscntrl c) && negb (c =? BSL)%char.

(** A well-formed record of an image: the bytes of a record whose fields
    fit their length bytes. *)
Definition well_formed (w : bytes) : Prop :=
  exists r : record, fits r /\ w = record_bytes r.

(** The text made of the lines [ls], each followed by a newline. *)
Definition lines (ls : list bytes) : bytes :=
  concat (map (fun l => l ++ [NL]) ls).

(** A line without an equals sign, a newline or a NUL, that does not end
    in a backslash. *)
Definition no_equals (l : bytes) : Prop :=
  ~ In EQS l /\ ~ In NL l /\ ~ In NUL l /\ last l NUL <> BSL.

(** The state of the second loop of [build_file] when [p_start] stands
    behind the bytes [pre] of the buffer and in front of the bytes
    [post]. *)
Definition at_state (pre post : bytes) (k ln : Z) (w : list bytes)
    (d : list build_diag) : build_state :=
  {| buffer := pre ++ post; p_start := length pre; record_count := k;
     line_number := ln; written := w; diags := d |}.

(** What the first loop of [build_file] makes of the bytes [l] that
    follow the byte [c], once it has passed over [c]: a newline behind a
    backslash becomes the letter [n]. *)
Fixpoint join_from (c : ascii) (l : bytes) : bytes :=
  match l with
  | [] => []
  | d :: l' =>
      let d' := if (c =? BSL)%char && (d =? NL)%char then "n"%char else d in
      d' :: join_from d' l'
  end.


(** The name made from the file name [x] when no [-o] option gives one:
    [.bin] in place of what follows the last dot, when there is a dot
    behind the last slash, and [.bin] appended otherwise. *)
Definition default_name (x : bytes) : bytes :=
  match strrchr (x ++ [NUL]) DOT with
  | Some d =>
      if match strrchr (x ++ [NUL]) SLASH with
         | None => true
         | Some s => (s <? d)%nat
         end
      then firstn d x ++ str ".bin"
      else x ++ str ".bin"
  | None => x ++ str ".bin"
  end.

(** The array [output_filename] when it holds the C string [x]. *)
Definition holds (output_filename x : bytes) : Prop :=
  length output_filename = Z.to_nat 65541 /\
  ~ In NUL x /\ (length x <= Z.to_nat 65536)%nat /\
  exists rest, output_filename = x ++ NUL :: rest.

(** The diagnostic [dump_file] gives for record number [k] when the
    stream [f] holds no complete record: which of its four reads comes
    short. *)
Definition short_read (k : Z) (f : bytes) : dump_diag :=
  match f with
  | [] => DumpNameLength k
  | b0 :: f1 =>
      if len f1 <? code b0 then DumpName k
      else
        match skipn (Z.to_nat (code b0)) f1 with
        | _ :: _ :: _ => DumpValue k
        | _ => DumpValueLength k
        end
  end.

(** The diagnostics [dump_file] gives about the names and the values of
    the records [rs], the first of which has the number [k + 1]. *)
Fixpoint dump_diags (escape_mode k : Z) (rs : list record)
    : list dump_diag :=
  match rs with
  | [] => []
  | r :: rs' =>
      snd (print_record escape_mode (k + 1)
             (fst r ++ [NUL]) (snd r ++ [NUL])) ++
      dump_diags escape_mode (k + 1) rs'
  end.
(** * Basic facts *)

#[local] Arguments Ascii.eqb : simpl never.
#[local] Arguments Z.mul : simpl never.
#[local] Arguments Z.add : simpl never.
#[local] Arguments Z.to_nat : simpl never.

Lemma code_range (c : ascii) : 0 <= code c < 256.
Proof.
  unfold code. pose proof (N_ascii_bounded c). lia.
Qed.

Lemma code_char_of_int (z : Z) : code (char_of_int z) = z mod 256.
Proof.
  unfold code, char_of_int.
  change 255 with (Z.ones 8). rewrite Z.land_ones by lia.
  change (2 ^ 8) with 256.
  pose proof (Z.mod_pos_bound z 256 ltac:(lia)).
  rewrite N_ascii_embedding by lia. lia.
Qed.

Lemma char_of_code (c : ascii) : char_of_int (code c) = c.
Proof.
  unfold char_of_int, code.
  change 255 with (Z.ones 8). rewrite Z.land_ones by lia.
  pose proof (N_ascii_bounded c).
  rewrite Z.mod_small by (change (2 ^ 8) with 256; lia).
  rewrite N2Z.id. apply ascii_N_embedding.
Qed.

Lemma len_app (a b : bytes) : len (a ++ b) = len a + len b.
Proof. unfold len. rewrite length_app. lia. Qed.

Lemma len_nonneg (a : bytes) : 0 <= len a.
Proof. unfold len. lia. Qed.

Lemma esc_cons (m : Z) (c : ascii) (x : bytes) :
  esc m (c :: x) = escape_char m c ++ esc m x.
Proof. reflexivity. Qed.

Lemma escape_char_length (m : Z) (c : ascii) :
  1 <= len (escape_char m c) <= 4.
Proof.
  unfold escape_char, sprintf_hex, len.
  repeat match goal with |- context [if ?b then _ else _] => destruct b end;
    simpl; lia.
Qed.

(** ** C strings *)

Lemma cstring_app_nul (x rest : bytes) :
  ~ In NUL x -> cstring (x ++ NUL :: rest) = x.
Proof.
  induction x as [|c x IH]; intros Hx; simpl.
  - reflexivity.
  - destruct (Ascii.eqb_spec c NUL) as [->|_].
    + exfalso. apply Hx. now left.
    + f_equal. apply IH. intros H. apply Hx. now right.
Qed.

Lemma strlen_app_nul (x rest : bytes) :
  ~ In NUL x -> strlen (x ++ NUL :: rest) = length x.
Proof. intros H. unfold strlen. now rewrite cstring_app_nul. Qed.

Lemma strchr_found (x rest : bytes) (c : ascii) :
  ~ In c x -> ~ In NUL x -> strchr (x ++ c :: rest) c = Some (length x).
Proof.
  induction x as [|d x IH]; intros Hc H0; simpl.
  - now rewrite Ascii.eqb_refl.
  - destruct (Ascii.eqb_spec d c) as [->|_]; [exfalso; apply Hc; now left|].
    destruct (Ascii.eqb_spec d NUL) as [->|_]; [exfalso; apply H0; now left|].
    rewrite IH; [reflexivity| |]; intros H; [apply Hc | apply H0]; now right.
Qed.

Lemma strchr_absent (x rest : bytes) (c : ascii) :
  c <> NUL -> ~ In c x -> strchr (x ++ NUL :: rest) c = None.
Proof.
  intros Hn. induction x as [|d x IH]; intros Hc; simpl.
  - destruct (Ascii.eqb_spec NUL c) as [E|_]; [congruence|reflexivity].
  - destruct (Ascii.eqb_spec d c) as [->|_]; [exfalso; apply Hc; now left|].
    destruct (d =? NUL)%char; [reflexivity|].
    rewrite IH; [reflexivity|]. intros H. apply Hc. now right.
Qed.

(** ** Stores into a buffer *)

Lemma poke_app (pre post : bytes) (d c : ascii) :
  poke (pre ++ d :: post) (length pre) c = pre ++ c :: post.
Proof.
  induction pre as [|e pre IH]; simpl; [reflexivity|]. now rewrite IH.
Qed.

Lemma poke_app_r (pre m : bytes) (i : nat) (c : ascii) :
  poke (pre ++ m) (length pre + i) c = pre ++ poke m i c.
Proof.
  induction pre as [|e pre IH]; simpl; [reflexivity|]. now rewrite IH.
Qed.

Lemma skipn_app_length (pre m : bytes) : skipn (length pre) (pre ++ m) = m.
Proof.
  induction pre; simpl; auto.
Qed.

Lemma skipn_app_plus (pre m : bytes) (i : nat) :
  skipn (length pre + i) (pre ++ m) = skipn i m.
Proof.
  induction pre; simpl; auto.
Qed.

(** ** [memcmp] and the header *)

Lemma memeq_true (a b : bytes) (n : nat) :
  memeq a b n = true ->
  firstn n a = firstn n b /\ (n <= length a)%nat /\ (n <= length b)%nat.
Proof.
  revert a b. induction n as [|n IH]; intros a b H; simpl in *.
  - repeat split; lia.
  - destruct a as [|x a], b as [|y b]; try discriminate.
    apply andb_true_iff in H as [Hxy H].
    apply Ascii.eqb_eq in Hxy as ->.
    destruct (IH _ _ H) as (E & Ha & Hb). rewrite E.
    repeat split; simpl; lia.
Qed.

(** ** The loop of [escape_string] *)

Lemma escape_loop_spec (m : Z) (src : bytes) :
  forall i j max dest,
    j < max ->
    exists k : nat,
      (k <= length src)%nat /\
      escape_loop m src i j max dest
        = (i + Z.of_nat k, dest ++ esc m (firstn k src)) /\
      j + len (esc m (firstn k src)) < max /\
      ((k < length src)%nat ->
         max <= j + len (esc m (firstn (S k) src))) /\
      (j + len (esc m src) < max -> k = length src).
Proof.
  induction src as [|c src IH]; intros i j max dest Hj.
  - exists 0%nat. cbn [escape_loop firstn length].
    change (esc m []) with (@nil ascii). change (len []) with 0.
    rewrite app_nil_r, Z.add_0_r. repeat split; lia.
  - cbn [escape_loop].
    destruct (j + len (escape_char m c) >=? max) eqn:E.
    + exists 0%nat. rewrite Z.geb_leb in E. apply Z.leb_le in E.
      cbn [firstn length]. rewrite !esc_cons, !len_app.
      change (esc m []) with (@nil ascii). change (len []) with 0.
      rewrite app_nil_r, Z.add_0_r.
      pose proof (len_nonneg (esc m src)).
      repeat split; lia.
    + rewrite Z.geb_leb in E. apply Z.leb_gt in E.
      destruct (IH (i + 1) (j + len (escape_char m c)) max
                  (dest ++ escape_char m c) E)
        as (k & Hk & Heq & Hlt & Hnext & Hall).
      exists (S k). cbn [length].
      rewrite !firstn_cons, !esc_cons, !len_app, Heq, <- app_assoc.
      repeat split; try lia.
      f_equal. lia.
Qed.

(** ** The escape sequences, character by character *)

Ltac each_char c := destruct c as [[] [] [] [] [] [] [] []].

Lemma unescape_escape_char (c : ascii) (rest : bytes) :
  unescape_string (escape_char ESC_FULL c ++ rest)
    = store c (length (escape_char ESC_FULL c)) (unescape_string rest).
Proof. each_char c; reflexivity. Qed.

Lemma escape_char_full_check (c : ascii) :
  forallb (fun d => negb (d =? NUL)%char && negb (d =? NL)%char &&
                    (negb (d =? EQS)%char || (c =? EQS)%char))
          (escape_char ESC_FULL c) = true.
Proof. each_char c; reflexivity. Qed.

Lemma escape_char_last_check (c : ascii) :
  (c =? BSL)%char || negb (last (escape_char ESC_FULL c) NUL =? BSL)%char
    = true.
Proof. each_char c; reflexivity. Qed.

Lemma escape_char_full_chars (c d : ascii) :
  In d (escape_char ESC_FULL c) ->
  d <> NUL /\ d <> NL /\ (d = EQS -> c = EQS).
Proof.
  intros Hd. pose proof (escape_char_full_check c) as H.
  rewrite forallb_forall in H. specialize (H d Hd).
  apply andb_true_iff in H as [H H3]. apply andb_true_iff in H as [H1 H2].
  apply negb_true_iff, Ascii.eqb_neq in H1.
  apply negb_true_iff, Ascii.eqb_neq in H2.
  repeat split; auto. intros ->.
  rewrite Ascii.eqb_refl in H3. now apply Ascii.eqb_eq in H3.
Qed.

Lemma esc_full_chars (x : bytes) (d : ascii) :
  In d (esc ESC_FULL x) -> d <> NUL /\ d <> NL /\ (d = EQS -> In EQS x).
Proof.
  induction x as [|c x IH]; [intros []|].
  rewrite esc_cons, in_app_iff. intros [H|H].
  - destruct (escape_char_full_chars _ _ H) as (H1 & H2 & H3).
    repeat split; auto. intros E. left. auto.
  - destruct (IH H) as (H1 & H2 & H3). repeat split; auto.
    intros E. right. auto.
Qed.

Lemma esc_no_nul (x : bytes) : ~ In NUL (esc ESC_FULL x).
Proof. intros H. now apply esc_full_chars in H as (H & _). Qed.

Lemma esc_no_nl (x : bytes) : ~ In NL (esc ESC_FULL x).
Proof. intros H. now apply esc_full_chars in H as (_ & H & _). Qed.

Lemma esc_no_eqs (x : bytes) : ~ In EQS x -> ~ In EQS (esc ESC_FULL x).
Proof. intros Hx H. apply esc_full_chars in H as (_ & _ & H). auto. Qed.

Lemma esc_nil_iff (m : Z) (x : bytes) : esc m x = [] -> x = [].
Proof.
  destruct x as [|c x]; [reflexivity|]. rewrite esc_cons. intros H.
  apply app_eq_nil in H as [H _].
  pose proof (escape_char_length m c) as L. rewrite H in L.
  change (len []) with 0 in L. lia.
Qed.

Lemma last_app_nonnil (a b : bytes) (d : ascii) :
  b <> [] -> last (a ++ b) d = last b d.
Proof.
  intros Hb. induction a as [|c a IH]; [reflexivity|].
  cbn [app last]. destruct (a ++ b) eqn:E.
  - apply app_eq_nil in E as [_ E]. contradiction.
  - exact IH.
Qed.

Lemma esc_last (x : bytes) :
  last x NUL <> BSL -> last (esc ESC_FULL x) NUL <> BSL.
Proof.
  induction x as [|c x IH]; intros H.
  - cbn. discriminate.
  - rewrite esc_cons. destruct x as [|c' x].
    + change (esc ESC_FULL []) with (@nil ascii). rewrite app_nil_r.
      cbn [last] in H. pose proof (escape_char_last_check c) as E.
      apply orb_true_iff in E as [E|E].
      * apply Ascii.eqb_eq in E. contradiction.
      * now apply negb_true_iff, Ascii.eqb_neq in E.
    + rewrite last_app_nonnil.
      * apply IH. exact H.
      * intros E. apply esc_nil_iff in E. discriminate.
Qed.

Lemma unescape_esc (x rest : bytes) :
  unescape_string (esc ESC_FULL x ++ NUL :: rest)
    = UReturn 0 (x ++ [NUL]) (length (esc ESC_FULL x) + 1).
Proof.
  induction x as [|c x IH].
  - reflexivity.
  - rewrite esc_cons, <- app_assoc, unescape_escape_char, IH.
    cbn [store app]. rewrite length_app. f_equal. lia.
Qed.

(** ** One line of [build_file] *)

Lemma build_loop_line (fuel p_end : nat) (pre post : bytes) (r : record)
    (k ln : Z) (w : list bytes) (d : list build_diag) :
  readable r ->
  (length pre < p_end)%nat ->
  build_loop (S fuel) p_end
    {| buffer := pre ++ text_line ESC_FULL r ++ post; p_start := length pre;
       record_count := k; line_number := ln; written := w; diags := d |}
  = build_loop fuel p_end
      {| buffer := pre ++ cut_line r ++ post;
         p_start := length pre + length (text_line ESC_FULL r);
         record_count := k + 1; line_number := ln + 1;
         written := w ++ [written_record r]; diags := d |}.
Proof.
  destruct r as [n v]. unfold readable, text_line, cut_line, written_record.
  cbn [fst snd]. intros (Hn & Hn0 & Hne & Hnl & Hv0 & Hvl & Hvs) Hlt.
  cbn [build_loop p_start].
  apply Nat.ltb_lt in Hlt. rewrite Hlt. cbn [negb].
  match goal with
  | |- bind ?m _ = build_loop _ _ ?st' => assert (L : m = Ok st')
  end; [|now rewrite L].
  unfold build_line.
  cbn [buffer p_start record_count line_number written diags].
  rewrite skipn_app_length.
  pose proof (esc_no_nul n) as Xn0. pose proof (esc_no_nl n) as Xnl.
  pose proof (esc_no_eqs n Hne) as Xne.
  pose proof (esc_no_nul v) as Yn0. pose proof (esc_no_nl v) as Ynl.
  assert (Xlen : esc ESC_FULL n <> []) by (intros E; now apply esc_nil_iff in E).
  set (x := esc ESC_FULL n) in *. set (y := esc ESC_FULL v) in *.
  assert (A1 : (x ++ [EQS] ++ y ++ [NL]) ++ post = x ++ EQS :: (y ++ NL :: post)).
  { cbn [app]. rewrite <- !app_assoc. cbn [app]. rewrite <- app_assoc. reflexivity. }
  assert (A2 : x ++ EQS :: (y ++ NL :: post) = (x ++ EQS :: y) ++ NL :: post).
  { rewrite <- app_assoc. reflexivity. }
  assert (E1 : strchr ((x ++ [EQS] ++ y ++ [NL]) ++ post) EQS = Some (length x)).
  { rewrite A1. now apply strchr_found. }
  assert (E2 : strchr ((x ++ [EQS] ++ y ++ [NL]) ++ post) NL
               = Some (length (x ++ EQS :: y))).
  { rewrite A1, A2. apply strchr_found.
    - rewrite in_app_iff. intros [H|[H|H]]; [auto|discriminate|auto].
    - rewrite in_app_iff. intros [H|[H|H]]; [auto|discriminate|auto]. }
  rewrite E1, E2.
  assert (P1 : poke (pre ++ (x ++ [EQS] ++ y ++ [NL]) ++ post)
                 (length pre + length (x ++ EQS :: y)) NUL
               = pre ++ (x ++ EQS :: y) ++ NUL :: post).
  { rewrite A1, A2, poke_app_r, poke_app. reflexivity. }
  rewrite P1.
  assert (P2 : poke (pre ++ (x ++ EQS :: y) ++ NUL :: post)
                 (length pre + length x) NUL
               = pre ++ x ++ NUL :: y ++ NUL :: post).
  { rewrite <- app_assoc. cbn [app]. rewrite poke_app_r, poke_app. reflexivity. }
  rewrite P2.
  rewrite skipn_app_length, strlen_app_nul by assumption.
  destruct (length x =? 0)%nat eqn:E0.
  { apply Nat.eqb_eq in E0. destruct x; [congruence|discriminate]. }
  subst x. rewrite unescape_esc.
  assert (S1 : (R_NAME_SIZE <? len (n ++ [NUL])) = false).
  { apply Z.ltb_ge. rewrite len_app. change (len [NUL]) with 1.
    unfold R_NAME_SIZE. lia. }
  rewrite S1. change (negb (0 =? 0)) with false. cbv iota.
  assert (K : skipn (length pre + length (esc ESC_FULL n) + 1)
                (pre ++ esc ESC_FULL n ++ NUL :: y ++ NUL :: post)
              = y ++ NUL :: post).
  { rewrite <- Nat.add_assoc, skipn_app_plus.
    replace (length (esc ESC_FULL n) + 1)%nat
      with (length (esc ESC_FULL n ++ [NUL]) + 0)%nat
      by (rewrite length_app; cbn [length]; lia).
    change (esc ESC_FULL n ++ NUL :: y ++ NUL :: post)
      with (esc ESC_FULL n ++ [NUL] ++ y ++ NUL :: post).
    rewrite app_assoc, skipn_app_plus. reflexivity. }
  rewrite K. subst y. rewrite unescape_esc.
  assert (S2 : (R_VALUE_SIZE <? len (v ++ [NUL])) = false).
  { apply Z.ltb_ge. rewrite len_app. change (len [NUL]) with 1.
    unfold R_VALUE_SIZE. lia. }
  rewrite S2. change (negb (0 =? 0)) with false. cbv iota.
  f_equal. f_equal.
  - rewrite <- !app_assoc. reflexivity.
  - repeat (rewrite length_app; cbn [length]). lia.
Qed.
Lemma text_line_length (r : record) :
  length (cut_line r) = length (text_line ESC_FULL r).
Proof.
  unfold cut_line, text_line. repeat (rewrite length_app; cbn [length]).
  reflexivity.
Qed.

Lemma text_line_length_pos (m : Z) (r : record) :
  (2 <= length (text_line m r))%nat.
Proof.
  unfold text_line. repeat (rewrite length_app; cbn [length]). lia.
Qed.

Lemma text_of_length (m : Z) (rs : list record) :
  (length rs <= length (text_of m rs))%nat.
Proof.
  induction rs as [|r rs IH]; [cbn; lia|].
  unfold text_of in *. cbn [map concat length]. rewrite length_app.
  pose proof (text_line_length_pos m r). lia.
Qed.

(** ** The lines of a text written by [nvram_dump], read by the loop of
    [build_file] *)

Lemma build_loop_text (rs : list record) :
  forall (fuel : nat) (pre post : bytes) (k ln : Z) (w : list bytes)
         (d : list build_diag),
    Forall readable rs ->
    (length rs <= fuel)%nat ->
    build_loop fuel (length pre + length (text_of ESC_FULL rs))
      {| buffer := pre ++ text_of ESC_FULL rs ++ post;
         p_start := length pre;
         record_count := k; line_number := ln; written := w; diags := d |}
    = Ok {| buffer := pre ++ concat (map cut_line rs) ++ post;
            p_start := length pre + length (text_of ESC_FULL rs);
            record_count := k + Z.of_nat (length rs);
            line_number := ln + Z.of_nat (length rs);
            written := w ++ map written_record rs; diags := d |}.
Proof.
  induction rs as [|r rs IH]; intros fuel pre post k ln w d Hrs Hfuel.
  - cbn [text_of map concat length app]. rewrite Nat.add_0_r, !Z.add_0_r, app_nil_r.
    destruct fuel; cbn [build_loop p_start]; rewrite Nat.ltb_irrefl; reflexivity.
  - inversion Hrs as [|? ? Hr Hrs']; subst.
    destruct fuel as [|fuel]; [cbn [length] in Hfuel; lia|].
    unfold text_of. cbn [map concat]. fold (text_of ESC_FULL rs).
    rewrite <- app_assoc, build_loop_line; auto.
    + specialize (IH fuel (pre ++ cut_line r) post (k + 1) (ln + 1)
                    (w ++ [written_record r]) d Hrs').
      rewrite !length_app, text_line_length in IH.
      rewrite <- !app_assoc in IH. rewrite length_app, Nat.add_assoc.
      rewrite IH by (cbn [length] in Hfuel; lia).
      cbn [length map app]. rewrite <- !app_assoc. cbn [app].
      f_equal. f_equal; lia.
    + rewrite length_app. pose proof (text_line_length_pos ESC_FULL r). lia.
Qed.

(** ** The first loop of [build_file] *)

Lemma text_of_cons (m : Z) (r : record) (rs : list record) :
  text_of m (r :: rs) = text_line m r ++ text_of m rs.
Proof. reflexivity. Qed.

Lemma no_continuation_nth (l : bytes) :
  no_continuation l ->
  forall k, ~ (nth k l NUL = BSL /\ nth (S k) l NUL = NL).
Proof.
  induction l as [|c l IH]; intros H k.
  - destruct k; cbn; intros [E _]; discriminate.
  - destruct H as [H1 H2]. destruct k as [|k].
    + destruct l as [|d l]; [cbn; intros [_ E]; discriminate|exact H1].
    + cbn [nth]. apply IH. exact H2.
Qed.

Lemma join_lines_same (n : nat) :
  forall (i : nat) (b : bytes),
    (forall k, (i <= k < i + n)%nat ->
               ~ (nth k b NUL = BSL /\ nth (S k) b NUL = NL)) ->
    join_lines n i b = b.
Proof.
  induction n as [|n IH]; intros i b H; [reflexivity|].
  cbn [join_lines].
  destruct ((nth i b NUL =? BSL)%char && (nth (i + 1) b NUL =? NL)%char) eqn:E.
  - exfalso. apply andb_true_iff in E as [E1 E2].
    apply Ascii.eqb_eq in E1, E2. apply (H i); [lia|].
    rewrite Nat.add_1_r in E2. now split.
  - apply IH. intros k Hk. apply H. lia.
Qed.

Lemma no_continuation_line (a rest : bytes) :
  ~ In NL a -> last a NUL <> BSL -> no_continuation rest ->
  no_continuation (a ++ NL :: rest).
Proof.
  induction a as [|c a IH]; intros Hnl Hlast Hrest.
  - cbn. split; [|exact Hrest]. destruct rest; [exact I|].
    intros [E _]. discriminate.
  - cbn [app no_continuation]. split.
    + destruct a as [|d a]; cbn [app].
      * cbn [last] in Hlast. intros [E _]. contradiction.
      * intros [_ E]. apply Hnl. right. left. exact E.
    + apply IH; auto.
      * intros H. apply Hnl. now right.
      * destruct a as [|d a]; [cbn; discriminate|exact Hlast].
Qed.

Lemma text_no_continuation (rs : list record) :
  Forall readable rs -> no_continuation (text_of ESC_FULL rs ++ [NUL]).
Proof.
  induction 1 as [|[n v] rs (_ & _ & _ & _ & _ & Hlast & _) _ IH].
  - cbn. auto.
  - rewrite text_of_cons. unfold text_line. cbn [fst snd].
    replace (((esc ESC_FULL n ++ [EQS] ++ esc ESC_FULL v ++ [NL]) ++
              text_of ESC_FULL rs) ++ [NUL])
      with ((esc ESC_FULL n ++ EQS :: esc ESC_FULL v) ++
            NL :: (text_of ESC_FULL rs ++ [NUL]))
      by (repeat (rewrite <- app_assoc; cbn [app]); reflexivity).
    apply no_continuation_line; [| |exact IH].
    + rewrite in_app_iff. intros [H|[H|H]]; [|discriminate|].
      * now apply esc_no_nl in H.
      * now apply esc_no_nl in H.
    + destruct (esc ESC_FULL v) as [|c y] eqn:E.
      * rewrite last_app_nonnil by discriminate. cbn. discriminate.
      * rewrite last_app_nonnil by discriminate.
        change (last (EQS :: c :: y) NUL) with (last (c :: y) NUL).
        rewrite <- E. now apply esc_last.
Qed.

Lemma text_no_nul (rs : list record) : ~ In NUL (text_of ESC_FULL rs).
Proof.
  induction rs as [|[n v] rs IH]; [intros []|].
  rewrite text_of_cons. unfold text_line. cbn [fst snd].
  rewrite !in_app_iff. cbn [In].
  intros [[H|[[H|[]]|[H|[H|[]]]]]|H]; try discriminate; auto;
    now apply esc_no_nul in H.
Qed.

Lemma nth_app_nul (x post : bytes) (k : nat) :
  (k <= length x)%nat -> nth k (x ++ NUL :: post) NUL = nth k (x ++ [NUL]) NUL.
Proof.
  revert k. induction x as [|c x IH]; intros [|k] Hk; cbn [app nth length] in *;
    auto; try lia. apply IH. lia.
Qed.

Lemma join_lines_text (rs : list record) (post : bytes) :
  Forall readable rs ->
  join_lines (length (text_of ESC_FULL rs)) 0
    (text_of ESC_FULL rs ++ NUL :: post)
  = text_of ESC_FULL rs ++ NUL :: post.
Proof.
  intros Hrs. apply join_lines_same. intros k Hk.
  rewrite (nth_app_nul _ post k), (nth_app_nul _ post (S k)) by lia.
  apply no_continuation_nth. now apply text_no_continuation.
Qed.

(** ** [build_file] on a text written by [nvram_dump] *)

Lemma poke_behind (x post : bytes) (i : nat) :
  (length x <= i)%nat ->
  exists post', poke (x ++ NUL :: post) i NUL = x ++ NUL :: post'.
Proof.
  intros Hi. replace i with (length x + (i - length x))%nat by lia.
  rewrite poke_app_r. destruct (i - length x)%nat; cbn [poke]; eauto.
Qed.

Lemma cut_lines_length (rs : list record) :
  length (concat (map cut_line rs)) = length (text_of ESC_FULL rs).
Proof.
  induction rs as [|r rs IH]; [reflexivity|].
  rewrite text_of_cons. cbn [map concat].
  now rewrite !length_app, IH, text_line_length.
Qed.

Lemma build_file_text (rs : list record) (a post : bytes) :
  Forall readable rs ->
  len (text_of ESC_FULL rs) <= BUFFER_MAX ->
  length a = length (text_of ESC_FULL rs) ->
  exists post',
    build_file (a ++ NUL :: post) (text_of ESC_FULL rs)
    = Ok {| b_ret := Z.of_nat (length rs);
            b_buffer := concat (map cut_line rs) ++ NUL :: post';
            b_written := map written_record rs;
            b_diags := [] |}.
Proof.
  intros Hrs Hlen Ha. unfold build_file, fread.
  set (text := text_of ESC_FULL rs) in *.
  assert (L : (length text <= Z.to_nat BUFFER_MAX)%nat) by (unfold len in Hlen; lia).
  rewrite firstn_all2 by (unfold BUFFER_MAX in *; lia).
  rewrite <- Ha, skipn_app_length, Ha.
  assert (B : (Z.of_nat (length text) <=? BUFFER_MAX) = true)
    by (apply Z.leb_le; exact Hlen).
  rewrite B.
  destruct (poke_behind text post (Z.to_nat BUFFER_MAX) L) as [post' ->].
  assert (N : ~ In NUL text) by apply text_no_nul.
  rewrite strlen_app_nul by exact N.
  subst text. rewrite join_lines_text by exact Hrs.
  rewrite strlen_app_nul by exact N.
  pose proof (build_loop_text rs (length (text_of ESC_FULL rs)) []
                (NUL :: post') 0 0 [] [] Hrs (text_of_length _ rs)) as E.
  cbn [app length Nat.add] in E. rewrite E. cbn [bind].
  exists post'. reflexivity.
Qed.

(** ** The bytes of a record *)

Lemma char_of_int_land (z : Z) : char_of_int (Z.land z 255) = char_of_int z.
Proof.
  unfold char_of_int. now rewrite <- Z.land_assoc, Z.land_diag.
Qed.

Lemma char_of_int_mod (z : Z) : char_of_int (z mod 256) = char_of_int z.
Proof.
  unfold char_of_int. change 255 with (Z.ones 8).
  rewrite !Z.land_ones by lia. now rewrite Z.mod_mod by (cbv; lia).
Qed.

Lemma land_255 (z : Z) : Z.land z 255 = z mod 256.
Proof. change 255 with (Z.ones 8). now rewrite Z.land_ones by lia. Qed.

Lemma land_65535 (z : Z) : Z.land z 65535 = z mod 65536.
Proof. change 65535 with (Z.ones 16). now rewrite Z.land_ones by lia. Qed.

Lemma shiftr_8 (z : Z) : Z.shiftr z 8 = z / 256.
Proof. now rewrite Z.shiftr_div_pow2 by lia. Qed.

Lemma le16_char_of_int (z : Z) :
  le16 (char_of_int z) (char_of_int (Z.shiftr z 8)) = z mod 65536.
Proof.
  unfold le16. rewrite !code_char_of_int, shiftr_8.
  Z.div_mod_to_equations. lia.
Qed.

Lemma firstn_app_length (pre m : bytes) : firstn (length pre) (pre ++ m) = pre.
Proof.
  induction pre as [|c pre IH]; cbn [length firstn app]; [now destruct m|].
  now rewrite IH.
Qed.

Lemma strncpy_prefix (src : bytes) (n : nat) :
  (n <= strlen src)%nat -> strncpy src n = firstn n (cstring src).
Proof.
  intros H. unfold strncpy. replace (n - strlen src)%nat with 0%nat by lia.
  cbn [repeat]. apply app_nil_r.
Qed.

(** The record [build_file] builds, whatever the lengths of the name and
    of the value: the lengths are cut to their low 8 and 16 bits and the
    name and the value to these many bytes. *)
Lemma make_record_mod (name value : bytes) :
  make_record name value
  = [char_of_int (Z.of_nat (strlen name) mod 256)] ++
    firstn (Z.to_nat (Z.of_nat (strlen name) mod 256)) (cstring name) ++
    [char_of_int (Z.of_nat (strlen value) mod 65536);
     char_of_int (Z.of_nat (strlen value) mod 65536 / 256)] ++
    firstn (Z.to_nat (Z.of_nat (strlen value) mod 65536)) (cstring value).
Proof.
  unfold make_record.
  rewrite land_65535, !land_255, shiftr_8.
  rewrite (char_of_int_mod (_ mod 65536)), (char_of_int_mod (_ / 256)).
  pose proof (Z.mod_pos_bound (Z.of_nat (strlen name)) 256 ltac:(lia)).
  pose proof (Z.mod_pos_bound (Z.of_nat (strlen value)) 65536 ltac:(lia)).
  pose proof (Z.mod_le (Z.of_nat (strlen name)) 256 ltac:(lia) ltac:(lia)).
  pose proof (Z.mod_le (Z.of_nat (strlen value)) 65536 ltac:(lia) ltac:(lia)).
  rewrite !strncpy_prefix by lia. reflexivity.
Qed.

Lemma written_record_bytes (r : record) :
  ~ In NUL (fst r) -> ~ In NUL (snd r) -> fits r ->
  written_record r = record_bytes r.
Proof.
  destruct r as [n v]. unfold fits, written_record, record_bytes.
  cbn [fst snd]. intros Hn Hv [Ln Lv]. unfold len in *.
  rewrite make_record_mod, !strlen_app_nul, !cstring_app_nul by assumption.
  rewrite !Z.mod_small by lia. rewrite !Nat2Z.id, !firstn_all, shiftr_8.
  reflexivity.
Qed.

Lemma read_record_bytes (k : Z) (r : record) (rest : bytes) :
  fits r -> read_record k (record_bytes r ++ rest) = inr (fst r, snd r, rest).
Proof.
  destruct r as [n v]. unfold fits, record_bytes. cbn [fst snd].
  intros [Ln Lv]. unfold read_record, fread.
  cbn [app firstn skipn].
  assert (Cn : Z.to_nat (code (char_of_int (len n))) = length n).
  { rewrite code_char_of_int, Z.mod_small by (unfold len in *; lia).
    unfold len. lia. }
  rewrite Cn, <- !app_assoc, firstn_app_length, skipn_app_length, Nat.eqb_refl.
  cbn [negb app firstn skipn].
  assert (Cv : Z.to_nat (le16 (char_of_int (len v))
                           (char_of_int (Z.shiftr (len v) 8))) = length v).
  { rewrite le16_char_of_int, Z.mod_small by (unfold len in *; lia).
    unfold len. lia. }
  rewrite Cv. destruct v as [|c v].
  - reflexivity.
  - change (0 <? length (c :: v))%nat with true. cbv iota.
    now rewrite firstn_app_length, skipn_app_length, Nat.eqb_refl.
Qed.

Lemma read_record_inv (k : Z) (f n v rest : bytes) :
  read_record k f = inr (n, v, rest) ->
  f = record_bytes (n, v) ++ rest /\ fits (n, v).
Proof.
  unfold read_record, fread.
  destruct f as [|b0 f]; [discriminate|]. cbn [firstn skipn].
  destruct (negb (length (firstn (Z.to_nat (code b0)) f)
                  =? Z.to_nat (code b0))%nat) eqn:E1; [discriminate|].
  apply negb_false_iff, Nat.eqb_eq in E1.
  pose proof (firstn_skipn (Z.to_nat (code b0)) f) as Sf.
  destruct (skipn (Z.to_nat (code b0)) f) as [|lo [|hi g]] eqn:E2;
    try discriminate.
  cbn [firstn skipn].
  pose proof (code_range b0) as R0. pose proof (code_range lo) as R1.
  pose proof (code_range hi) as R2.
  assert (Ln : len (firstn (Z.to_nat (code b0)) f) = code b0).
  { unfold len. rewrite E1. lia. }
  assert (B16 : char_of_int (le16 lo hi) = lo /\
                char_of_int (Z.shiftr (le16 lo hi) 8) = hi).
  { unfold le16. split.
    - rewrite <- (char_of_code lo) at 2. unfold char_of_int.
      rewrite !land_255. do 2 f_equal. Z.div_mod_to_equations. lia.
    - rewrite <- (char_of_code hi) at 2. unfold char_of_int.
      rewrite !land_255, shiftr_8. do 2 f_equal.
      Z.div_mod_to_equations. lia. }
  destruct B16 as [Blo Bhi].
  assert (R16 : 0 <= le16 lo hi <= 65535) by (unfold le16; lia).
  destruct (0 <? Z.to_nat (le16 lo hi))%nat eqn:E3.
  - destruct (negb (length (firstn (Z.to_nat (le16 lo hi)) g)
                    =? Z.to_nat (le16 lo hi))%nat) eqn:E4; [discriminate|].
    apply negb_false_iff, Nat.eqb_eq in E4.
    assert (Lv : len (firstn (Z.to_nat (le16 lo hi)) g) = le16 lo hi).
    { unfold len. rewrite E4. lia. }
    intros [= <- <- <-]. unfold record_bytes, fits. cbn [fst snd].
    rewrite Ln, Lv, Blo, Bhi, char_of_code. split; [|lia].
    cbn [app]. f_equal. rewrite <- app_assoc. cbn [app].
    rewrite <- Sf at 1. f_equal. f_equal. f_equal.
    symmetry. apply firstn_skipn.
  - apply Nat.ltb_ge in E3. intros [= <- <- <-].
    unfold record_bytes, fits. cbn [fst snd].
    assert (Z0 : le16 lo hi = 0) by lia.
    rewrite Ln, char_of_code. change (len []) with 0.
    rewrite <- Z0, Blo, Bhi. split; [|lia].
    cbn [app]. f_equal. rewrite <- app_assoc. cbn [app].
    rewrite <- Sf at 1. reflexivity.
Qed.

(** ** The lines printed by [dump_file] *)

Lemma escape_string_whole (m : Z) (x : bytes) (max : Z) :
  ~ In NUL x -> len (esc m x) < max ->
  escape_string m (x ++ [NUL]) max = (len x, esc m x).
Proof.
  intros Hx Hlen. unfold escape_string.
  pose proof (len_nonneg (esc m x)).
  destruct (max <=? 0) eqn:E; [apply Z.leb_le in E; lia|].
  rewrite cstring_app_nul by exact Hx.
  destruct (escape_loop_spec m x 0 0 max [] ltac:(lia))
    as (k & _ & Heq & _ & _ & Hall).
  rewrite Heq, (Hall ltac:(lia)), firstn_all. reflexivity.
Qed.

Lemma print_record_fst (m k : Z) (name value : bytes) :
  fst (print_record m k name value) = fst (print_record m 0 name value).
Proof.
  unfold print_record.
  destruct (escape_string ESC_FULL name 513) as [c1 e1].
  destruct (escape_string m value (65536 * 2 + 1)) as [c2 e2].
  reflexivity.
Qed.

Lemma dump_line_text (m : Z) (r : record) :
  ~ In NUL (fst r) -> ~ In NUL (snd r) ->
  len (esc ESC_FULL (fst r)) <= 512 -> len (esc m (snd r)) <= 131072 ->
  dump_line m r = text_line m r.
Proof.
  intros Hn Hv Ln Lv. unfold dump_line, print_record, text_line.
  rewrite (escape_string_whole ESC_FULL) by (auto; lia).
  rewrite (escape_string_whole m) by (auto; lia).
  reflexivity.
Qed.

(** ** The loop of [dump_file] *)

Lemma dump_loop_step (m : Z) (todo : nat) (k : Z) (r : record)
    (rest out : bytes) (err : list dump_diag) :
  fits r ->
  exists ds,
    dump_loop m (S todo) k (record_bytes r ++ rest) out err
    = dump_loop m todo (k + 1) rest (out ++ dump_line m r) (err ++ ds).
Proof.
  intros Hr. cbn [dump_loop]. rewrite read_record_bytes by exact Hr.
  unfold dump_line. rewrite <- (print_record_fst m (k + 1)).
  destruct (print_record m (k + 1) (fst r ++ [NUL]) (snd r ++ [NUL]))
    as [line ds].
  exists ds. reflexivity.
Qed.

Lemma dump_loop_records (m : Z) (rs : list record) :
  forall (todo : nat) (k : Z) (rest out : bytes) (err : list dump_diag),
    Forall fits rs ->
    exists ds,
      dump_loop m (length rs + todo) k (concat (map record_bytes rs) ++ rest)
        out err
      = dump_loop m todo (k + Z.of_nat (length rs)) rest
          (out ++ concat (map (dump_line m) rs)) (err ++ ds).
Proof.
  induction rs as [|r rs IH]; intros todo k rest out err Hrs.
  - exists []. cbn [length map concat app Nat.add].
    now rewrite Z.add_0_r, !app_nil_r.
  - inversion Hrs as [|? ? Hr Hrs']; subst.
    cbn [length map concat Nat.add]. rewrite <- app_assoc.
    destruct (dump_loop_step m (length rs + todo) k r
                (concat (map record_bytes rs) ++ rest) out err Hr)
      as [ds1 ->].
    destruct (IH todo (k + 1) rest (out ++ dump_line m r) (err ++ ds1) Hrs')
      as [ds2 ->].
    exists (ds1 ++ ds2). rewrite <- !app_assoc. f_equal. lia.
Qed.

Lemma short_record_fails (k : Z) (f : bytes) :
  short_record f -> exists d, read_record k f = inl d.
Proof.
  unfold short_record, read_record, fread.
  destruct f as [|b0 f]; [intros _; cbn; eauto|]. cbn [firstn skipn].
  pose proof (code_range b0) as R0.
  destruct (negb (length (firstn (Z.to_nat (code b0)) f)
                  =? Z.to_nat (code b0))%nat) eqn:E1; [eauto|].
  apply negb_false_iff, Nat.eqb_eq in E1. rewrite length_firstn in E1.
  intros [H|H]; [unfold len in H; lia|].
  destruct (skipn (Z.to_nat (code b0)) f) as [|lo [|hi g]]; eauto.
  cbn [firstn skipn]. pose proof (code_range lo). pose proof (code_range hi).
  assert (0 <= le16 lo hi) by (unfold le16; lia).
  destruct (0 <? Z.to_nat (le16 lo hi))%nat eqn:E3.
  - destruct (negb (length (firstn (Z.to_nat (le16 lo hi)) g)
                    =? Z.to_nat (le16 lo hi))%nat) eqn:E4; [eauto|].
    apply negb_false_iff, Nat.eqb_eq in E4. rewrite length_firstn in E4.
    unfold len in H. lia.
  - apply Nat.ltb_ge in E3. unfold len in H. lia.
Qed.

Lemma dump_loop_success (m : Z) (todo : nat) :
  forall (k : Z) (f out : bytes) (err : list dump_diag) (out' : bytes)
         (err' : list dump_diag),
    dump_loop m todo k f out err = (0, out', err') ->
    exists rs rest,
      f = concat (map record_bytes rs) ++ rest /\ length rs = todo /\
      Forall fits rs /\ out' = out ++ concat (map (dump_line m) rs).
Proof.
  induction todo as [|todo IH]; intros k f out err out' err' H.
  - cbn [dump_loop] in H. injection H as <- <-.
    exists [], f. cbn. now rewrite app_nil_r.
  - cbn [dump_loop] in H.
    destruct (read_record (k + 1) f) as [d|[[n v] f']] eqn:E;
      [discriminate|].
    apply read_record_inv in E as [-> Hr].
    pose proof (print_record_fst m (k + 1) (n ++ [NUL]) (v ++ [NUL])) as P.
    destruct (print_record m (k + 1) (n ++ [NUL]) (v ++ [NUL])) as [line ds].
    cbn [fst] in P. apply IH in H as (rs & rest & -> & <- & Hrs & ->).
    exists ((n, v) :: rs), rest. cbn [map concat length].
    rewrite <- !app_assoc. repeat split; auto.
    rewrite P. reflexivity.
Qed.

Lemma dump_loop_status (m : Z) (todo : nat) :
  forall (k : Z) (f out : bytes) (err : list dump_diag),
    fst (fst (dump_loop m todo k f out err)) = 0 \/
    fst (fst (dump_loop m todo k f out err)) = 1.
Proof.
  induction todo as [|todo IH]; intros k f out err; cbn [dump_loop].
  - now left.
  - destruct (read_record (k + 1) f) as [d|[[n v] f']]; [now right|].
    destruct (print_record m (k + 1) (n ++ [NUL]) (v ++ [NUL])) as [line ds].
    apply IH.
Qed.

(** ** [nvram_build] on a text written by [nvram_dump] *)

Lemma repeat_split (b : Z) (n : nat) :
  0 <= b -> (n <= Z.to_nat b)%nat ->
  repeat NUL (Z.to_nat (b + 1))
  = repeat NUL n ++ NUL :: repeat NUL (Z.to_nat b - n).
Proof.
  intros Hb H.
  replace (Z.to_nat (b + 1)) with (n + S (Z.to_nat b - n))%nat by lia.
  rewrite repeat_app. reflexivity.
Qed.

Lemma fresh_buffer (n : nat) :
  (n <= Z.to_nat BUFFER_MAX)%nat ->
  exists post,
    repeat NUL (Z.to_nat (BUFFER_MAX + 1)) = repeat NUL n ++ NUL :: post.
Proof.
  intros H. exists (repeat NUL (Z.to_nat BUFFER_MAX - n)).
  apply repeat_split; [discriminate|exact H].
Qed.

Lemma nvram_build_text (rs : list record) :
  Forall readable rs ->
  len (text_of ESC_FULL rs) <= BUFFER_MAX ->
  nvram_build [text_of ESC_FULL rs]
  = Ok (0, serialize rs, map written_record rs, []).
Proof.
  intros Hrs Hlen. unfold nvram_build. cbn [main_loop m_buffer].
  destruct (fresh_buffer (length (text_of ESC_FULL rs))) as [post ->].
  { unfold len in Hlen. lia. }
  destruct (build_file_text rs (repeat NUL (length (text_of ESC_FULL rs)))
              post Hrs Hlen (repeat_length _ _)) as [post' ->].
  cbn [bind b_ret b_buffer b_written b_diags m_ret m_record_count m_records
       m_diags app].
  assert (E : (Z.of_nat (length rs) <? 0) = false) by (apply Z.ltb_ge; lia).
  rewrite E. reflexivity.
Qed.

Lemma fixup_header (body : bytes) (c : Z) :
  fixup_record_count (output_header ++ body) c
  = MAGIC ++ [char_of_int c; char_of_int (Z.shiftr c 8)] ++ body.
Proof.
  unfold fixup_record_count. rewrite !char_of_int_land. reflexivity.
Qed.

Lemma round_trips_readable (r : record) : round_trips r -> readable r.
Proof.
  unfold round_trips, readable. intuition lia.
Qed.

Lemma round_trips_fits (r : record) : round_trips r -> fits r.
Proof.
  unfold round_trips, fits. intuition lia.
Qed.

Lemma written_records_bytes (rs : list record) :
  Forall round_trips rs -> map written_record rs = map record_bytes rs.
Proof.
  induction 1 as [|r rs Hr _ IH]; [reflexivity|].
  cbn [map]. rewrite IH. f_equal. apply written_record_bytes.
  - apply Hr.
  - apply Hr.
  - now apply round_trips_fits.
Qed.

Lemma serialize_image (rs : list record) :
  Forall round_trips rs -> serialize rs = image (Z.of_nat (length rs)) rs.
Proof.
  intros H. unfold serialize, image.
  now rewrite fixup_header, written_records_bytes.
Qed.

Lemma read_records_bytes (rs : list record) :
  forall (k : Z) (rest : bytes),
    Forall fits rs ->
    read_records (length rs) k (concat (map record_bytes rs) ++ rest) = Some rs.
Proof.
  induction rs as [|[n v] rs IH]; intros k rest H; [reflexivity|].
  inversion H as [|? ? Hr Hrs]; subst.
  cbn [length map concat read_records]. rewrite <- app_assoc.
  rewrite read_record_bytes by exact Hr. cbn [fst snd].
  now rewrite IH.
Qed.

Lemma text_line_le (m : Z) (r : record) (rs : list record) :
  In r rs -> len (text_line m r) <= len (text_of m rs).
Proof.
  induction rs as [|r' rs IH]; [intros []|].
  rewrite text_of_cons, len_app.
  pose proof (len_nonneg (text_of m rs)) as P1.
  pose proof (len_nonneg (text_line m r')) as P2.
  intros [->|H]; [lia|]. specialize (IH H). lia.
Qed.

Lemma dump_lines_text (rs : list record) :
  Forall round_trips rs ->
  len (text_of ESC_FULL rs) <= BUFFER_MAX ->
  concat (map (dump_line ESC_FULL) rs) = text_of ESC_FULL rs.
Proof.
  intros Hrs Hlen. unfold text_of. f_equal. apply map_ext_in.
  intros r Hr. rewrite Forall_forall in Hrs.
  destruct (Hrs r Hr) as (_ & Hn & _ & _ & Ln & Hv & _).
  apply dump_line_text; auto.
  pose proof (text_line_le ESC_FULL r rs Hr) as L.
  unfold text_line in L. rewrite !len_app in L.
  pose proof (len_nonneg (esc ESC_FULL (fst r))).
  change (len [EQS]) with 1 in L. change (len [NL]) with 1 in L.
  unfold BUFFER_MAX in Hlen. lia.
Qed.

(** ** The counters of [build_file] and [main] *)

Ltac build_line_cases H :=
  unfold build_line in H;
  repeat match type of H with
         | context [match ?x with _ => _ end] => destruct x eqn:?
         end;
  try discriminate; injection H as <-;
  cbn [buffer p_start record_count line_number written diags].

Lemma build_line_advances (st st' : build_state) :
  build_line st = Ok st' -> (p_start st < p_start st')%nat.
Proof.
  intros H. build_line_cases H; lia.
Qed.

Lemma build_line_counts (st st' : build_state) :
  build_line st = Ok st' ->
  exists ws, written st' = written st ++ ws /\
             record_count st' = record_count st + Z.of_nat (length ws).
Proof.
  intros H. build_line_cases H;
    try (exists []; rewrite app_nil_r, Z.add_0_r; now split).
  all: eexists [_]; now split.
Qed.

Lemma build_line_fuel (st : build_state) : build_line st <> Fault OutOfFuel.
Proof.
  unfold build_line.
  repeat match goal with
         | |- context [match ?x with _ => _ end] => destruct x eqn:?
         end; discriminate.
Qed.

Lemma build_loop_counts (fuel p_end : nat) :
  forall st st',
    build_loop fuel p_end st = Ok st' ->
    exists ws, written st' = written st ++ ws /\
               record_count st' = record_count st + Z.of_nat (length ws).
Proof.
  induction fuel as [|fuel IH]; intros st st' H; cbn [build_loop] in H;
    destruct (negb (p_start st <? p_end)%nat).
  - injection H as <-. exists []. rewrite app_nil_r, Z.add_0_r. now split.
  - discriminate.
  - injection H as <-. exists []. rewrite app_nil_r, Z.add_0_r. now split.
  - destruct (build_line st) as [st1|] eqn:E; [|discriminate]. cbn [bind] in H.
    apply build_line_counts in E as (ws1 & W1 & C1).
    apply IH in H as (ws2 & W2 & C2).
    exists (ws1 ++ ws2). rewrite W2, W1, C2, C1, length_app, <- app_assoc.
    split; [reflexivity|lia].
Qed.

Lemma build_loop_fuel (fuel p_end : nat) :
  forall st,
    (p_end <= p_start st + fuel)%nat ->
    build_loop fuel p_end st <> Fault OutOfFuel.
Proof.
  induction fuel as [|fuel IH]; intros st Hf; cbn [build_loop];
    destruct (p_start st <? p_end)%nat eqn:E; cbn [negb]; try discriminate.
  - apply Nat.ltb_lt in E. lia.
  - destruct (build_line st) as [st1|fl] eqn:E1; cbn [bind].
    + apply IH. apply build_line_advances in E1. lia.
    + intros [= ->]. now apply build_line_fuel in E1.
Qed.

Lemma build_file_counts (static_buffer f : bytes) (b : built) :
  build_file static_buffer f = Ok b ->
  (b_ret b = -1 /\ b_written b = []) \/
  b_ret b = Z.of_nat (length (b_written b)).
Proof.
  unfold build_file, fread.
  destruct (Z.of_nat (length (firstn (Z.to_nat (BUFFER_MAX + 1)) f))
            <=? BUFFER_MAX).
  - match goal with
    | |- bind (build_loop ?a ?b ?st) _ = _ -> _ =>
        destruct (build_loop a b st) as [st'|] eqn:E
    end; [|discriminate].
    cbn [bind]. intros [= <-]. right.
    apply build_loop_counts in E as (ws & W & C).
    cbn [b_ret b_written written record_count app] in *.
    rewrite C, W. reflexivity.
  - intros H.
    apply (f_equal (fun o => match o with
                             | Ok x => (b_ret x, b_written x)
                             | Fault _ => (0, [])
                             end)) in H.
    cbn [b_ret b_written] in H. left.
    split; [exact (eq_sym (f_equal fst H))|exact (eq_sym (f_equal snd H))].
Qed.

Lemma build_file_fuel (static_buffer f : bytes) :
  build_file static_buffer f <> Fault OutOfFuel.
Proof.
  unfold build_file, fread.
  destruct (Z.of_nat (length (firstn (Z.to_nat (BUFFER_MAX + 1)) f))
            <=? BUFFER_MAX); [|discriminate].
  match goal with
  | |- bind (build_loop ?a ?b ?st) _ <> _ =>
      pose proof (build_loop_fuel a b st) as F;
      destruct (build_loop a b st) as [st'|fl]
  end; [discriminate|].
  cbn [bind]. intros [= ->]. apply F; [cbn [p_start]; lia|reflexivity].
Qed.

Lemma main_loop_counts (files : list bytes) :
  forall st st',
    main_loop files st = Ok st' ->
    m_record_count st = Z.of_nat (length (m_records st)) ->
    (m_ret st = 0 \/ m_ret st = 1) ->
    m_record_count st' = Z.of_nat (length (m_records st')) /\
    (m_ret st' = 0 \/ m_ret st' = 1).
Proof.
  induction files as [|f files IH]; intros st st' H Hc Hr; cbn [main_loop] in H.
  - injection H as <-. now split.
  - destruct (build_file (m_buffer st) f) as [b|] eqn:E; [|discriminate].
    cbn [bind] in H. apply IH in H; auto;
      cbn [m_record_count m_records m_ret].
    + rewrite length_app.
      apply build_file_counts in E as [[R W]|R]; rewrite R.
      * rewrite W. cbn. lia.
      * destruct (Z.of_nat (length (b_written b)) <? 0) eqn:L;
          [apply Z.ltb_lt in L; lia|lia].
    + destruct (b_ret b <? 0); auto.
Qed.

Lemma main_loop_fuel (files : list bytes) :
  forall st, main_loop files st <> Fault OutOfFuel.
Proof.
  induction files as [|f files IH]; intros st; cbn [main_loop];
    [discriminate|].
  pose proof (build_file_fuel (m_buffer st) f) as F.
  destruct (build_file (m_buffer st) f) as [b|fl]; cbn [bind].
  - apply IH.
  - intros [= ->]. now apply F.
Qed.

(** ** Two input files *)

Lemma nvram_build_twice (rs : list record) :
  Forall readable rs ->
  len (text_of ESC_FULL rs) <= BUFFER_MAX ->
  nvram_build [text_of ESC_FULL rs; text_of ESC_FULL rs]
  = Ok (0,
        fixup_record_count
          (output_header ++ concat (map written_record (rs ++ rs)))
          (Z.of_nat (length (rs ++ rs))),
        map written_record (rs ++ rs), []).
Proof.
  intros Hrs Hlen. unfold nvram_build. cbn [main_loop m_buffer].
  destruct (fresh_buffer (length (text_of ESC_FULL rs))) as [post ->].
  { unfold len in Hlen. lia. }
  destruct (build_file_text rs (repeat NUL (length (text_of ESC_FULL rs)))
              post Hrs Hlen (repeat_length _ _)) as [post1 ->].
  cbn [bind b_ret b_buffer b_written b_diags m_ret m_record_count m_records
       m_diags app].
  destruct (build_file_text rs (concat (map cut_line rs)) post1 Hrs Hlen
              (cut_lines_length rs)) as [post2 ->].
  cbn [bind b_ret b_buffer b_written b_diags m_ret m_record_count m_records
       m_diags app].
  assert (E : (Z.of_nat (length rs) <? 0) = false) by (apply Z.ltb_ge; lia).
  rewrite E. cbn [Z.eqb]. rewrite map_app, length_app, Nat2Z.inj_add.
  reflexivity.
Qed.

Lemma text_of_repeat (m : Z) (r : record) (n : nat) :
  len (text_of m (repeat r n)) = Z.of_nat n * len (text_line m r).
Proof.
  induction n as [|n IH]; [reflexivity|].
  cbn [repeat]. rewrite text_of_cons, len_app, IH. lia.
Qed.

(** ** [strtol] on the two characters after [\x] *)

Lemma all_chars_complete (c : ascii) : In c all_chars.
Proof.
  unfold all_chars. rewrite <- (ascii_nat_embedding c).
  apply in_map, in_seq. pose proof (nat_ascii_bounded c). lia.
Qed.

Lemma strtol16_check :
  forallb (fun s0 =>
    forallb (fun s1 =>
      let '(v, eptr) := strtol16 [s0; s1; NUL] in
      Bool.eqb (eptr =? 2)%nat (accepted_hex s0 s1) &&
      match hex_value s0, hex_value s1 with
      | Some d0, Some d1 => v =? 16 * d0 + d1
      | _, _ => true
      end) all_chars) all_chars = true.
Proof. vm_compute. reflexivity. Qed.

(** [eptr == s+2] holds exactly for two hexadecimal digits, or one
    hexadecimal digit behind a white-space character or a sign; two
    digits give their value. *)
Lemma strtol16_two_chars (s0 s1 : ascii) :
  ((snd (strtol16 [s0; s1; NUL]) =? 2)%nat = accepted_hex s0 s1) /\
  (forall d0 d1,
     hex_value s0 = Some d0 -> hex_value s1 = Some d1 ->
     strtol16 [s0; s1; NUL] = (16 * d0 + d1, 2%nat)).
Proof.
  pose proof strtol16_check as H. rewrite forallb_forall in H.
  specialize (H s0 (all_chars_complete s0)). rewrite forallb_forall in H.
  specialize (H s1 (all_chars_complete s1)).
  destruct (strtol16 [s0; s1; NUL]) as [v eptr]. cbn [snd].
  apply andb_true_iff in H as [H1 H2]. apply eqb_prop in H1.
  split; [exact H1|].
  intros d0 d1 E0 E1. rewrite E0, E1 in H2. apply Z.eqb_eq in H2.
  unfold accepted_hex, is_hex in H1. rewrite E0, E1 in H1. cbn in H1.
  apply Nat.eqb_eq in H1. now subst.
Qed.

Lemma unescape_hex (s0 s1 : ascii) (rest : bytes) :
  unescape_string (BSL :: "x"%char :: s0 :: s1 :: rest)
  = let '(v, eptr) := strtol16 [s0; s1; NUL] in
    if negb (eptr =? 2)%nat then UReturn 1 [] 4
    else store (char_of_int v) 4 (unescape_string rest).
Proof. reflexivity. Qed.

(** Two hexadecimal digits after [\x] give the byte they denote. *)
Lemma unescape_hex_digits (s0 s1 : ascii) (d0 d1 : Z) (rest : bytes) :
  hex_value s0 = Some d0 -> hex_value s1 = Some d1 ->
  unescape_string (BSL :: "x"%char :: s0 :: s1 :: rest)
  = store (char_of_int (16 * d0 + d1)) 4 (unescape_string rest).
Proof.
  intros E0 E1. rewrite unescape_hex.
  now rewrite (proj2 (strtol16_two_chars s0 s1) d0 d1 E0 E1).
Qed.

(** Any other pair that is not accepted is an error. *)
Lemma unescape_hex_rejected (s0 s1 : ascii) (rest : bytes) :
  accepted_hex s0 s1 = false ->
  unescape_string (BSL :: "x"%char :: s0 :: s1 :: rest) = UReturn 1 [] 4.
Proof.
  intros E. rewrite unescape_hex.
  pose proof (proj1 (strtol16_two_chars s0 s1)) as H.
  destruct (strtol16 [s0; s1; NUL]) as [v eptr]. cbn [snd] in H.
  now rewrite H, E.
Qed.

(** * Facts for the further properties *)

(** ** The two escape modes *)

Lemma escape_char_mode (m : Z) (c : ascii) :
  escape_char m c
  = if m =? ESC_HUMAN then escape_char ESC_HUMAN c else escape_char ESC_FULL c.
Proof.
  unfold escape_char. destruct (m =? ESC_HUMAN); reflexivity.
Qed.

Lemma unescape_escape_char_human (c : ascii) (rest : bytes) :
  unescape_string (escape_char ESC_HUMAN c ++ rest)
    = store c (length (escape_char ESC_HUMAN c)) (unescape_string rest).
Proof. each_char c; reflexivity. Qed.

Lemma unescape_escape_char_any (m : Z) (c : ascii) (rest : bytes) :
  unescape_string (escape_char m c ++ rest)
    = store c (length (escape_char m c)) (unescape_string rest).
Proof.
  rewrite escape_char_mode. destruct (m =? ESC_HUMAN).
  - apply unescape_escape_char_human.
  - apply unescape_escape_char.
Qed.

Lemma unescape_esc_any (m : Z) (x rest : bytes) :
  unescape_string (esc m x ++ NUL :: rest)
    = UReturn 0 (x ++ [NUL]) (length (esc m x) + 1).
Proof.
  induction x as [|c x IH].
  - reflexivity.
  - rewrite esc_cons, <- app_assoc, unescape_escape_char_any, IH.
    cbn [store app]. rewrite length_app. f_equal. lia.
Qed.

Lemma escape_char_printable_check (c : ascii) :
  forallb printable (escape_char ESC_FULL c) = true /\
  forallb (fun d => printable d || (d =? NL)%char) (escape_char ESC_HUMAN c)
    = true.
Proof. each_char c; split; reflexivity. Qed.

Lemma escape_char_human_check (c : ascii) :
  escape_char ESC_HUMAN c
  = if (c =? NL)%char then [BSL; NL] else escape_char ESC_FULL c.
Proof. each_char c; reflexivity. Qed.

Lemma escape_char_plain_check (c : ascii) :
  (if plain c
   then match escape_char ESC_FULL c with
        | [d] => (d =? c)%char
        | _ => false
        end
   else (2 <=? len (escape_char ESC_FULL c))) = true /\
  length (escape_char ESC_HUMAN c) = length (escape_char ESC_FULL c).
Proof. each_char c; split; reflexivity. Qed.

Lemma in_esc (m : Z) (x : bytes) (d : ascii) :
  In d (esc m x) -> exists c, In c x /\ In d (escape_char m c).
Proof.
  induction x as [|c x IH]; [intros []|].
  rewrite esc_cons, in_app_iff. intros [H|H].
  - exists c. split; [now left|exact H].
  - destruct (IH H) as (c' & Hc & Hd). exists c'. split; [now right|exact Hd].
Qed.

Lemma esc_length_bounds (m : Z) (x : bytes) :
  len x <= len (esc m x) <= 4 * len x.
Proof.
  induction x as [|c x IH]; [cbn; lia|].
  rewrite esc_cons, len_app. pose proof (escape_char_length m c).
  change (len (c :: x)) with (Z.of_nat (S (length x))).
  unfold len in *. lia.
Qed.

Lemma escape_char_plain (m : Z) (c : ascii) :
  plain c = true -> escape_char m c = [c].
Proof.
  intros P. rewrite escape_char_mode, escape_char_human_check.
  destruct (escape_char_plain_check c) as [H _]. rewrite P in H.
  assert (E : escape_char ESC_FULL c = [c]).
  { destruct (escape_char ESC_FULL c) as [|d [|]]; try discriminate.
    now apply Ascii.eqb_eq in H as ->. }
  destruct (Ascii.eqb_spec c NL) as [->|_]; [discriminate P|].
  now destruct (m =? ESC_HUMAN).
Qed.

Lemma escape_char_not_plain (m : Z) (c : ascii) :
  plain c = false -> 2 <= len (escape_char m c).
Proof.
  intros P. destruct (escape_char_plain_check c) as [H L]. rewrite P in H.
  apply Z.leb_le in H. rewrite escape_char_mode.
  destruct (m =? ESC_HUMAN); [|exact H]. unfold len in *. rewrite L. exact H.
Qed.

Lemma esc_plain (m : Z) (x : bytes) :
  forallb plain x = true -> esc m x = x.
Proof.
  induction x as [|c x IH]; [reflexivity|]. cbn [forallb].
  intros H. apply andb_true_iff in H as [Hc Hx].
  now rewrite esc_cons, escape_char_plain, IH.
Qed.

Lemma esc_not_plain (m : Z) (x : bytes) :
  forallb plain x = false -> len x < len (esc m x).
Proof.
  induction x as [|c x IH]; [discriminate|]. cbn [forallb].
  rewrite esc_cons, len_app.
  change (len (c :: x)) with (Z.of_nat (S (length x))).
  pose proof (esc_length_bounds m x) as B.
  pose proof (escape_char_length m c) as L.
  destruct (plain c) eqn:P; cbn [andb]; intros H.
  - specialize (IH H). unfold len in *. lia.
  - apply (escape_char_not_plain m) in P. unfold len in *. lia.
Qed.

Lemma escape_string_all (m : Z) (src : bytes) (max : Z) :
  len (esc m (cstring src)) < max ->
  escape_string m src max = (Z.of_nat (strlen src), esc m (cstring src)).
Proof.
  intros Hlen. unfold escape_string, strlen.
  pose proof (len_nonneg (esc m (cstring src))).
  destruct (max <=? 0) eqn:E; [apply Z.leb_le in E; lia|].
  destruct (escape_loop_spec m (cstring src) 0 0 max [] ltac:(lia))
    as (k & _ & Heq & _ & _ & Hall).
  rewrite Heq, (Hall ltac:(lia)), firstn_all. reflexivity.
Qed.

Lemma escape_string_prefix (m : Z) (src : bytes) (max : Z) :
  exists k : nat,
    (k <= strlen src)%nat /\
    escape_string m src max
    = (Z.of_nat k, esc m (firstn k (cstring src))).
Proof.
  unfold escape_string, strlen.
  destruct (max <=? 0) eqn:E.
  - exists 0%nat. split; [lia|reflexivity].
  - apply Z.leb_gt in E.
    destruct (escape_loop_spec m (cstring src) 0 0 max [] E)
      as (k & Hk & Heq & _).
    exists k. split; [exact Hk|]. rewrite Heq. reflexivity.
Qed.

Lemma cstring_id (x : bytes) : ~ In NUL x -> cstring x = x.
Proof.
  intros H. rewrite <- (app_nil_r x) at 1.
  rewrite <- (cstring_app_nul x []) at 2 by exact H.
  induction x as [|c x IH]; cbn [app cstring]; [reflexivity|].
  destruct (c =? NUL)%char; [reflexivity|]. f_equal. apply IH.
  intros H'. apply H. now right.
Qed.

(** ** The output of [dump_file] *)

Lemma dump_line_shape (r : record) :
  exists body, dump_line ESC_FULL r = body ++ [NL] /\ ~ In NL body.
Proof.
  unfold dump_line, print_record.
  destruct (escape_string_prefix ESC_FULL (fst r ++ [NUL]) 513)
    as (k1 & _ & ->).
  destruct (escape_string_prefix ESC_FULL (snd r ++ [NUL]) (65536 * 2 + 1))
    as (k2 & _ & ->).
  cbn [fst].
  match goal with
  | |- exists body, ?a ++ [EQS] ++ ?b ++ [NL] = _ /\ _ =>
      exists (a ++ [EQS] ++ b)
  end.
  split.
  - now rewrite <- !app_assoc.
  - rewrite !in_app_iff. intros [H|[[H|[]]|H]]; try discriminate;
      now apply esc_no_nl in H.
Qed.

Lemma count_newlines (rs : list record) :
  count_occ ascii_dec (concat (map (dump_line ESC_FULL) rs)) NL = length rs.
Proof.
  induction rs as [|r rs IH]; [reflexivity|].
  cbn [map concat length]. rewrite count_occ_app, IH.
  destruct (dump_line_shape r) as (body & -> & Hb).
  rewrite count_occ_app. apply (count_occ_not_In ascii_dec) in Hb.
  rewrite Hb. reflexivity.
Qed.

Lemma dump_loop_lines (m : Z) (todo : nat) :
  forall (k : Z) (f out : bytes) (err : list dump_diag),
    exists (rs : list record) (rest : bytes) (ds : list dump_diag),
      f = concat (map record_bytes rs) ++ rest /\
      Forall fits rs /\
      (dump_loop m todo k f out err
       = (0, out ++ concat (map (dump_line m) rs), err ++ ds) /\
       length rs = todo
       \/
       dump_loop m todo k f out err
       = (1, out ++ concat (map (dump_line m) rs), err ++ ds) /\
       (length rs < todo)%nat /\
       exists d, read_record (k + Z.of_nat (length rs) + 1) rest = inl d).
Proof.
  induction todo as [|todo IH]; intros k f out err.
  - exists [], f, []. cbn [map concat app length dump_loop].
    rewrite !app_nil_r. repeat split; auto.
  - cbn [dump_loop].
    destruct (read_record (k + 1) f) as [d|[[n v] f']] eqn:E.
    + exists [], f, [d]. cbn [map concat app length].
      rewrite app_nil_r, Z.add_0_r. repeat split; auto.
      right. repeat split; [lia|]. exists d. exact E.
    + apply read_record_inv in E as [-> Hr].
      pose proof (print_record_fst m (k + 1) (n ++ [NUL]) (v ++ [NUL])) as P.
      destruct (print_record m (k + 1) (n ++ [NUL]) (v ++ [NUL]))
        as [line ds1].
      cbn [fst] in P.
      destruct (IH (k + 1) f' (out ++ line) (err ++ ds1))
        as (rs & rest & ds & -> & Hrs & H).
      exists ((n, v) :: rs), rest, (ds1 ++ ds).
      cbn [map concat length]. rewrite <- !app_assoc.
      split; [reflexivity|]. split; [now constructor|].
      assert (L : dump_line m (n, v) = line) by (symmetry; exact P).
      rewrite L.
      destruct H as [[H1 H2]|(H1 & H2 & d & H3)].
      * left. rewrite H1, <- !app_assoc. split; [reflexivity|lia].
      * right. rewrite H1, <- !app_assoc. split; [reflexivity|].
        split; [lia|]. exists d.
        replace (k + Z.of_nat (S (length rs)) + 1)
          with (k + 1 + Z.of_nat (length rs) + 1) by lia.
        exact H3.
Qed.

Lemma dump_file_lines (m : Z) (f out : bytes) (err : list dump_diag) :
  exists (sts : Z) (rs : list record) (ds : list dump_diag),
    dump_file m f out err
    = (sts, out ++ concat (map (dump_line m) rs), err ++ ds) /\
    (sts = 0 \/ sts = 1) /\
    Forall fits rs /\
    (rs <> [] ->
     exists rest, skipn 8 f = concat (map record_bytes rs) ++ rest).
Proof.
  unfold dump_file, fread.
  destruct (negb (length (firstn 8 f) =? 8)%nat ||
            negb (memeq (firstn 8 f) MAGIC 6)).
  - exists 1, [], [DumpHeader]. cbn [map concat]. rewrite app_nil_r.
    repeat split; auto. congruence.
  - match goal with
    | |- context [dump_loop m ?t ?k ?g out err] =>
        destruct (dump_loop_lines m t k g out err)
          as (rs & rest & ds & Hf & Hrs & H)
    end.
    destruct H as [[-> _]|(-> & _)].
    + exists 0, rs, ds. repeat split; auto. intros _. now exists rest.
    + exists 1, rs, ds. repeat split; auto. intros _. now exists rest.
Qed.

Lemma dump_loop_append (m : Z) (todo : nat) :
  forall (k : Z) (f out : bytes) (err : list dump_diag),
    dump_loop m todo k f out err
    = let '(s, o, e) := dump_loop m todo k f [] [] in
      (s, out ++ o, err ++ e).
Proof.
  induction todo as [|todo IH]; intros k f out err; cbn [dump_loop].
  - now rewrite !app_nil_r.
  - destruct (read_record (k + 1) f) as [d|[[n v] f']];
      [cbn [app]; now rewrite app_nil_r|].
    destruct (print_record m (k + 1) (n ++ [NUL]) (v ++ [NUL])) as [line ds].
    rewrite (IH (k + 1) f' (out ++ line) (err ++ ds)).
    rewrite (IH (k + 1) f' ([] ++ line) ([] ++ ds)).
    destruct (dump_loop m todo (k + 1) f' [] []) as [[s o] e].
    cbn [app]. now rewrite <- !app_assoc.
Qed.

Lemma dump_file_append (m : Z) (f out : bytes) (err : list dump_diag) :
  dump_file m f out err
  = let '(s, o, e) := dump_file m f [] [] in (s, out ++ o, err ++ e).
Proof.
  unfold dump_file. destruct (fread 8 f) as [h g].
  destruct (negb (length h =? 8)%nat || negb (memeq h MAGIC 6)).
  - cbn [app]. now rewrite app_nil_r.
  - apply dump_loop_append.
Qed.

Lemma dump_file_status (m : Z) (f out : bytes) (err : list dump_diag) :
  fst (fst (dump_file m f out err)) = 0 \/
  fst (fst (dump_file m f out err)) = 1.
Proof.
  unfold dump_file. destruct (fread 8 f) as [h g].
  destruct (negb (length h =? 8)%nat || negb (memeq h MAGIC 6)).
  - now right.
  - apply dump_loop_status.
Qed.

Lemma dump_files_spec (m : Z) (files : list bytes) :
  forall (ret : Z) (out : bytes) (err : list dump_diag),
    dump_files m files ret out err
    = (if ret =? 0
       then if forallb (fun f => fst (fst (dump_file m f [] [])) =? 0) files
            then 0 else 1
       else ret,
       out ++ concat (map (fun f => snd (fst (dump_file m f [] []))) files),
       err ++ concat (map (fun f => snd (dump_file m f [] [])) files)).
Proof.
  induction files as [|f files IH]; intros ret out err.
  - cbn [dump_files forallb map concat]. rewrite !app_nil_r.
    now destruct (ret =? 0) eqn:E; [apply Z.eqb_eq in E as ->|].
  - cbn [dump_files forallb map concat].
    rewrite (dump_file_append m f out err).
    pose proof (dump_file_status m f [] []) as St.
    destruct (dump_file m f [] []) as [[s o] e]. cbn [fst snd] in *.
    rewrite IH, <- !app_assoc.
    destruct St as [-> | ->]; cbn [Z.eqb negb andb].
    + reflexivity.
    + destruct (ret =? 0) eqn:E; [reflexivity|].
      now rewrite E.
Qed.

(** ** The value returned by [build_file] and the exit code of
    nvram_build *)




(** ** The records written by [build_file] are well formed *)

Lemma make_record_well_formed (name value : bytes) :
  well_formed (make_record name value).
Proof.
  pose proof (Z.mod_pos_bound (Z.of_nat (strlen name)) 256 ltac:(lia)) as Bn.
  pose proof (Z.mod_pos_bound (Z.of_nat (strlen value)) 65536 ltac:(lia))
    as Bv.
  pose proof (Z.mod_le (Z.of_nat (strlen name)) 256 ltac:(lia) ltac:(lia))
    as Ln.
  pose proof (Z.mod_le (Z.of_nat (strlen value)) 65536 ltac:(lia) ltac:(lia))
    as Lv.
  exists (firstn (Z.to_nat (Z.of_nat (strlen name) mod 256)) (cstring name),
          firstn (Z.to_nat (Z.of_nat (strlen value) mod 65536))
            (cstring value)).
  assert (En : len (firstn (Z.to_nat (Z.of_nat (strlen name) mod 256))
                      (cstring name))
               = Z.of_nat (strlen name) mod 256).
  { unfold len, strlen in *. rewrite length_firstn. lia. }
  assert (Ev : len (firstn (Z.to_nat (Z.of_nat (strlen value) mod 65536))
                      (cstring value))
               = Z.of_nat (strlen value) mod 65536).
  { unfold len, strlen in *. rewrite length_firstn. lia. }
  split.
  - unfold fits. cbn [fst snd]. rewrite En, Ev. lia.
  - rewrite make_record_mod. unfold record_bytes.
    rewrite En, Ev, shiftr_8. reflexivity.
Qed.

Lemma build_line_well_formed (st st' : build_state) :
  build_line st = Ok st' ->
  Forall well_formed (written st) -> Forall well_formed (written st').
Proof.
  intros H W. build_line_cases H; auto.
  all: apply Forall_app; split; [exact W|].
  all: constructor; [apply make_record_well_formed|constructor].
Qed.

Lemma build_loop_well_formed (fuel p_end : nat) :
  forall st st',
    build_loop fuel p_end st = Ok st' ->
    Forall well_formed (written st) -> Forall well_formed (written st').
Proof.
  induction fuel as [|fuel IH]; intros st st' H W; cbn [build_loop] in H;
    destruct (negb (p_start st <? p_end)%nat).
  - now injection H as <-.
  - discriminate.
  - now injection H as <-.
  - destruct (build_line st) as [st1|] eqn:E; [|discriminate]. cbn [bind] in H.
    eapply IH; [exact H|]. eapply build_line_well_formed; eauto.
Qed.

Lemma build_file_well_formed (static_buffer f : bytes) (b : built) :
  build_file static_buffer f = Ok b -> Forall well_formed (b_written b).
Proof.
  unfold build_file, fread.
  destruct (Z.of_nat (length (firstn (Z.to_nat (BUFFER_MAX + 1)) f))
            <=? BUFFER_MAX).
  - match goal with
    | |- bind (build_loop ?a ?b ?st) _ = _ -> _ =>
        destruct (build_loop a b st) as [st'|] eqn:E
    end; [|discriminate].
    cbn [bind]. intros [= <-]. cbn [b_written].
    eapply build_loop_well_formed; [exact E|constructor].
  - intros H.
    apply (f_equal (fun o => match o with
                             | Ok x => b_written x
                             | Fault _ => []
                             end)) in H.
    cbn [b_written] in H. rewrite <- H. constructor.
Qed.

Lemma main_loop_well_formed (files : list bytes) :
  forall st st',
    main_loop files st = Ok st' ->
    Forall well_formed (m_records st) -> Forall well_formed (m_records st').
Proof.
  induction files as [|f files IH]; intros st st' H W; cbn [main_loop] in H.
  - now injection H as <-.
  - destruct (build_file (m_buffer st) f) as [b|] eqn:E; [|discriminate].
    cbn [bind] in H. eapply IH; [exact H|]. cbn [m_records].
    apply Forall_app. split; [exact W|].
    eapply build_file_well_formed; eauto.
Qed.

Lemma well_formed_records (ws : list bytes) :
  Forall well_formed ws ->
  exists rs, Forall fits rs /\ ws = map record_bytes rs.
Proof.
  induction 1 as [|w ws (r & Hr & ->) _ (rs & Hrs & ->)].
  - exists []. split; constructor.
  - exists (r :: rs). split; [now constructor|reflexivity].
Qed.

Lemma dump_image (m : Z) (rs : list record) (rest out : bytes)
    (err : list dump_diag) :
  Forall fits rs ->
  Z.of_nat (length rs) <= 65535 ->
  read_image (image (Z.of_nat (length rs)) rs ++ rest) = Some rs /\
  exists ds,
    dump_file m (image (Z.of_nat (length rs)) rs ++ rest) out err
    = (0, out ++ concat (map (dump_line m) rs), err ++ ds).
Proof.
  intros Hrs Hcount. unfold image, read_image, dump_file, fread.
  cbn [MAGIC str list_ascii_of_string app firstn skipn length Nat.eqb
       memeq negb orb nth].
  rewrite !Ascii.eqb_refl. cbn [andb negb].
  rewrite le16_char_of_int, Z.mod_small, Nat2Z.id by lia.
  split.
  - now apply read_records_bytes.
  - destruct (dump_loop_records m rs 0 0 rest out err Hrs) as [ds E].
    rewrite Nat.add_0_r in E. rewrite E.
    exists ds. reflexivity.
Qed.

(** ** [build_file] on one input file, line by line *)

Lemma join_lines_clean (text post : bytes) :
  no_continuation (text ++ [NUL]) ->
  join_lines (length text) 0 (text ++ NUL :: post) = text ++ NUL :: post.
Proof.
  intros H. apply join_lines_same. intros k Hk.
  rewrite (nth_app_nul _ post k), (nth_app_nul _ post (S k)) by lia.
  now apply no_continuation_nth.
Qed.

Lemma text_no_continuation_app (rs : list record) (rest : bytes) :
  Forall readable rs -> no_continuation rest ->
  no_continuation (text_of ESC_FULL rs ++ rest).
Proof.
  intros Hrs Hrest.
  induction Hrs as [|[n v] rs (_ & _ & _ & _ & _ & Hlast & _) _ IH].
  - exact Hrest.
  - rewrite text_of_cons. unfold text_line. cbn [fst snd].
    replace (((esc ESC_FULL n ++ [EQS] ++ esc ESC_FULL v ++ [NL]) ++
              text_of ESC_FULL rs) ++ rest)
      with ((esc ESC_FULL n ++ EQS :: esc ESC_FULL v) ++
            NL :: (text_of ESC_FULL rs ++ rest))
      by (repeat (rewrite <- app_assoc; cbn [app]); reflexivity).
    apply no_continuation_line; [| |exact IH].
    + rewrite in_app_iff. intros [H|[H|H]]; [|discriminate|].
      * now apply esc_no_nl in H.
      * now apply esc_no_nl in H.
    + destruct (esc ESC_FULL v) as [|c y] eqn:E.
      * rewrite last_app_nonnil by discriminate. cbn. discriminate.
      * rewrite last_app_nonnil by discriminate.
        change (last (EQS :: c :: y) NUL) with (last (c :: y) NUL).
        rewrite <- E. now apply esc_last.
Qed.

Lemma build_loop_done (fuel p_end : nat) (st : build_state) :
  (p_end <= p_start st)%nat -> build_loop fuel p_end st = Ok st.
Proof.
  intros H. apply Nat.ltb_ge in H.
  destruct fuel; cbn [build_loop]; now rewrite H.
Qed.

Lemma build_loop_text_then (rs : list record) :
  forall (fuel p_end : nat) (pre post : bytes) (k ln : Z)
         (w : list bytes) (d : list build_diag),
    Forall readable rs ->
    (length pre + length (text_of ESC_FULL rs) <= p_end)%nat ->
    build_loop (length rs + fuel) p_end
      {| buffer := pre ++ text_of ESC_FULL rs ++ post;
         p_start := length pre;
         record_count := k; line_number := ln; written := w; diags := d |}
    = build_loop fuel p_end
        {| buffer := pre ++ concat (map cut_line rs) ++ post;
           p_start := length pre + length (text_of ESC_FULL rs);
           record_count := k + Z.of_nat (length rs);
           line_number := ln + Z.of_nat (length rs);
           written := w ++ map written_record rs; diags := d |}.
Proof.
  induction rs as [|r rs IH]; intros fuel p_end pre post k ln w d Hrs Hle.
  - cbn [text_of map concat length app Nat.add].
    now rewrite Nat.add_0_r, !Z.add_0_r, app_nil_r.
  - inversion Hrs as [|? ? Hr Hrs']; subst.
    rewrite text_of_cons in *. rewrite length_app in Hle.
    pose proof (text_line_length_pos ESC_FULL r) as Lp.
    cbn [length Nat.add]. rewrite <- app_assoc.
    rewrite build_loop_line by (auto; lia).
    specialize (IH fuel p_end (pre ++ cut_line r) post (k + 1) (ln + 1)
                  (w ++ [written_record r]) d Hrs').
    rewrite !length_app, text_line_length in IH.
    rewrite <- !app_assoc in IH. rewrite length_app, Nat.add_assoc.
    rewrite IH by lia.
    cbn [map concat]. rewrite <- !app_assoc. cbn [app].
    f_equal. f_equal; lia.
Qed.

(** The start of [build_file] on a text without NUL in which no
    backslash stands in front of a newline: the text is in the buffer as
    it is when the second loop begins. *)
Lemma nvram_build_start (text : bytes) :
  ~ In NUL text ->
  no_continuation (text ++ [NUL]) ->
  len text <= BUFFER_MAX ->
  exists post,
    nvram_build [text]
    = bind (build_loop (length text) (length text)
              {| buffer := text ++ NUL :: post; p_start := 0;
                 record_count := 0; line_number := 0; written := [];
                 diags := [] |})
        (fun st =>
           Ok (if record_count st <? 0 then 1 else 0,
               let f := output_header ++ concat (written st) in
               if (if record_count st <? 0 then 1 else 0) =? 0
               then fixup_record_count f
                      (if record_count st <? 0 then 0
                       else 0 + record_count st)
               else f,
               written st, diags st)).
Proof.
  intros N C Hlen. unfold nvram_build. cbn [main_loop m_buffer].
  destruct (fresh_buffer (length text)) as [post0 ->].
  { unfold len in Hlen. lia. }
  unfold build_file, fread.
  assert (L : (length text <= Z.to_nat BUFFER_MAX)%nat)
    by (unfold len in Hlen; lia).
  rewrite firstn_all2 by (unfold BUFFER_MAX in *; lia).
  pose proof (skipn_app_length (repeat NUL (length text)) (NUL :: post0))
    as Sk.
  rewrite repeat_length in Sk. rewrite Sk.
  assert (B : (Z.of_nat (length text) <=? BUFFER_MAX) = true)
    by (apply Z.leb_le; exact Hlen).
  rewrite B.
  destruct (poke_behind text post0 (Z.to_nat BUFFER_MAX) L) as [post ->].
  rewrite strlen_app_nul by exact N.
  rewrite join_lines_clean by exact C.
  rewrite strlen_app_nul by exact N.
  exists post.
  destruct (build_loop _ _ _) as [st|fl]; reflexivity.
Qed.

Lemma strchr_skip (x m : bytes) (c : ascii) :
  ~ In c x -> ~ In NUL x ->
  strchr (x ++ m) c = option_map (Nat.add (length x)) (strchr m c).
Proof.
  induction x as [|d x IH]; intros Hc H0; cbn [app strchr length].
  - now destruct (strchr m c).
  - destruct (Ascii.eqb_spec d c) as [->|_]; [exfalso; apply Hc; now left|].
    destruct (Ascii.eqb_spec d NUL) as [->|_]; [exfalso; apply H0; now left|].
    rewrite IH.
    + now destruct (strchr m c).
    + intros H. apply Hc. now right.
    + intros H. apply H0. now right.
Qed.

Lemma build_line_empty_name (pre y post : bytes) (k ln : Z)
    (w : list bytes) (d : list build_diag) :
  ~ In NL y -> ~ In NUL y ->
  build_line
    {| buffer := pre ++ (EQS :: y ++ [NL]) ++ post; p_start := length pre;
       record_count := k; line_number := ln; written := w; diags := d |}
  = Ok {| buffer := pre ++ (NUL :: y ++ [NUL]) ++ post;
          p_start := length pre + length (EQS :: y ++ [NL]);
          record_count := k; line_number := ln + 1; written := w;
          diags := d ++ [BuildEmptyName] |}.
Proof.
  intros Hnl H0. unfold build_line.
  cbn [buffer p_start record_count line_number written diags].
  rewrite skipn_app_length.
  assert (A : (EQS :: y ++ [NL]) ++ post = (EQS :: y) ++ NL :: post).
  { cbn [app]. now rewrite <- app_assoc. }
  assert (E1 : strchr ((EQS :: y ++ [NL]) ++ post) EQS = Some 0%nat).
  { cbn [app strchr]. now rewrite Ascii.eqb_refl. }
  assert (E2 : strchr ((EQS :: y ++ [NL]) ++ post) NL
               = Some (length (EQS :: y))).
  { rewrite A. apply strchr_found.
    - intros [H|H]; [discriminate|auto].
    - intros [H|H]; [discriminate|auto]. }
  rewrite E1, E2, A, poke_app_r, poke_app, Nat.add_0_r.
  change (pre ++ (EQS :: y) ++ NUL :: post)
    with (pre ++ EQS :: (y ++ NUL :: post)).
  rewrite poke_app, skipn_app_length.
  change (strlen (NUL :: y ++ NUL :: post)) with 0%nat.
  cbn [Nat.eqb]. f_equal. f_equal.
  - cbn [app]. now rewrite <- app_assoc.
  - cbn [length]. rewrite length_app. cbn [length]. lia.
Qed.

Lemma build_line_missing_equals (pre l rest : bytes) (k ln : Z)
    (w : list bytes) (d : list build_diag) :
  ~ In EQS l -> ~ In NL l -> ~ In NUL l ->
  strchr rest EQS = None ->
  build_line
    {| buffer := pre ++ (l ++ [NL]) ++ rest; p_start := length pre;
       record_count := k; line_number := ln; written := w; diags := d |}
  = Ok {| buffer := pre ++ (l ++ [NL]) ++ rest;
          p_start := length pre + length (l ++ [NL]);
          record_count := k; line_number := ln + 1; written := w;
          diags := d ++ [BuildMissingEquals] |}.
Proof.
  intros He Hnl H0 Hrest. unfold build_line.
  cbn [buffer p_start record_count line_number written diags].
  rewrite skipn_app_length.
  assert (E1 : strchr ((l ++ [NL]) ++ rest) EQS = None).
  { rewrite strchr_skip, Hrest; [reflexivity| |].
    - rewrite in_app_iff. intros [H|[H|[]]]; [auto|discriminate].
    - rewrite in_app_iff. intros [H|[H|[]]]; [auto|discriminate]. }
  assert (E2 : strchr ((l ++ [NL]) ++ rest) NL = Some (length l)).
  { rewrite <- app_assoc. now apply strchr_found. }
  rewrite E1, E2. f_equal. f_equal.
  rewrite length_app. cbn [length]. lia.
Qed.

Lemma build_line_last (pre post : bytes) (r : record) (k ln : Z)
    (w : list bytes) (d : list build_diag) :
  readable r ->
  build_line
    {| buffer := pre ++ (esc ESC_FULL (fst r) ++ [EQS] ++ esc ESC_FULL (snd r))
                   ++ NUL :: post;
       p_start := length pre;
       record_count := k; line_number := ln; written := w; diags := d |}
  = Ok {| buffer := pre ++ cut_line r ++ post;
          p_start := length pre + length (cut_line r);
          record_count := k + 1; line_number := ln + 1;
          written := w ++ [written_record r]; diags := d |}.
Proof.
  destruct r as [n v]. unfold readable, cut_line, written_record.
  cbn [fst snd]. intros (Hn & Hn0 & Hne & Hnl & Hv0 & Hvl & Hvs).
  unfold build_line.
  cbn [buffer p_start record_count line_number written diags].
  rewrite skipn_app_length.
  pose proof (esc_no_nul n) as Xn0. pose proof (esc_no_nl n) as Xnl.
  pose proof (esc_no_eqs n Hne) as Xne.
  pose proof (esc_no_nul v) as Yn0. pose proof (esc_no_nl v) as Ynl.
  assert (Xlen : esc ESC_FULL n <> [])
    by (intros E; now apply esc_nil_iff in E).
  set (x := esc ESC_FULL n) in *. set (y := esc ESC_FULL v) in *.
  assert (A1 : (x ++ [EQS] ++ y) ++ NUL :: post
               = x ++ EQS :: (y ++ NUL :: post)).
  { cbn [app]. rewrite <- !app_assoc. reflexivity. }
  assert (A2 : x ++ EQS :: (y ++ NUL :: post)
               = (x ++ EQS :: y) ++ NUL :: post).
  { rewrite <- app_assoc. reflexivity. }
  assert (N0 : ~ In NUL (x ++ EQS :: y)).
  { rewrite in_app_iff. intros [H|[H|H]]; [auto|discriminate|auto]. }
  assert (E1 : strchr ((x ++ [EQS] ++ y) ++ NUL :: post) EQS
               = Some (length x)).
  { rewrite A1. now apply strchr_found. }
  assert (E2 : strchr ((x ++ [EQS] ++ y) ++ NUL :: post) NL = None).
  { rewrite A1, A2. apply strchr_absent; [discriminate|].
    rewrite in_app_iff. intros [H|[H|H]]; [auto|discriminate|auto]. }
  rewrite E1, E2.
  assert (L : strlen ((x ++ [EQS] ++ y) ++ NUL :: post)
              = length (x ++ EQS :: y)).
  { rewrite A1, A2. now apply strlen_app_nul. }
  rewrite L.
  assert (P1 : poke (pre ++ (x ++ [EQS] ++ y) ++ NUL :: post)
                 (length pre + length (x ++ EQS :: y)) NUL
               = pre ++ (x ++ EQS :: y) ++ NUL :: post).
  { rewrite A1, A2, poke_app_r, poke_app. reflexivity. }
  rewrite P1.
  assert (P2 : poke (pre ++ (x ++ EQS :: y) ++ NUL :: post)
                 (length pre + length x) NUL
               = pre ++ x ++ NUL :: y ++ NUL :: post).
  { rewrite <- app_assoc. cbn [app]. rewrite poke_app_r, poke_app.
    reflexivity. }
  rewrite P2.
  rewrite skipn_app_length, strlen_app_nul by assumption.
  destruct (length x =? 0)%nat eqn:E0.
  { apply Nat.eqb_eq in E0. destruct x; [congruence|discriminate]. }
  subst x. rewrite unescape_esc.
  assert (S1 : (R_NAME_SIZE <? len (n ++ [NUL])) = false).
  { apply Z.ltb_ge. rewrite len_app. change (len [NUL]) with 1.
    unfold R_NAME_SIZE. lia. }
  rewrite S1. change (negb (0 =? 0)) with false. cbv iota.
  assert (K : skipn (length pre + length (esc ESC_FULL n) + 1)
                (pre ++ esc ESC_FULL n ++ NUL :: y ++ NUL :: post)
              = y ++ NUL :: post).
  { rewrite <- Nat.add_assoc, skipn_app_plus.
    replace (length (esc ESC_FULL n) + 1)%nat
      with (length (esc ESC_FULL n ++ [NUL]) + 0)%nat
      by (rewrite length_app; cbn [length]; lia).
    change (esc ESC_FULL n ++ NUL :: y ++ NUL :: post)
      with (esc ESC_FULL n ++ [NUL] ++ y ++ NUL :: post).
    rewrite app_assoc, skipn_app_plus. reflexivity. }
  rewrite K. subst y. rewrite unescape_esc.
  assert (S2 : (R_VALUE_SIZE <? len (v ++ [NUL])) = false).
  { apply Z.ltb_ge. rewrite len_app. change (len [NUL]) with 1.
    unfold R_VALUE_SIZE. lia. }
  rewrite S2. change (negb (0 =? 0)) with false. cbv iota.
  f_equal. f_equal.
  - rewrite <- !app_assoc. reflexivity.
  - repeat (rewrite length_app; cbn [length]). lia.
Qed.

(** ** The second loop of [build_file], segment by segment *)

Lemma loop_text (rs : list record) (fuel p_end : nat) (pre post : bytes)
    (k ln : Z) (w : list bytes) (d : list build_diag) :
  Forall readable rs ->
  (length pre + length (text_of ESC_FULL rs) <= p_end)%nat ->
  build_loop (length rs + fuel) p_end
    (at_state pre (text_of ESC_FULL rs ++ post) k ln w d)
  = build_loop fuel p_end
      (at_state (pre ++ concat (map cut_line rs)) post
         (k + Z.of_nat (length rs)) (ln + Z.of_nat (length rs))
         (w ++ map written_record rs) d).
Proof.
  intros Hrs Hle. unfold at_state.
  rewrite build_loop_text_then by assumption.
  rewrite length_app, cut_lines_length, <- app_assoc. reflexivity.
Qed.

Lemma loop_step (fuel p_end : nat) (st st' : build_state) :
  (p_start st < p_end)%nat ->
  build_line st = Ok st' ->
  build_loop (S fuel) p_end st = build_loop fuel p_end st'.
Proof.
  intros H E. cbn [build_loop]. apply Nat.ltb_lt in H.
  now rewrite H, E.
Qed.

Lemma loop_empty_name (fuel p_end : nat) (pre y post : bytes) (k ln : Z)
    (w : list bytes) (d : list build_diag) :
  ~ In NL y -> ~ In NUL y ->
  (length pre < p_end)%nat ->
  build_loop (S fuel) p_end
    (at_state pre ((EQS :: y ++ [NL]) ++ post) k ln w d)
  = build_loop fuel p_end
      (at_state (pre ++ NUL :: y ++ [NUL]) post k (ln + 1) w
         (d ++ [BuildEmptyName])).
Proof.
  intros Hnl H0 Hlt. unfold at_state.
  erewrite loop_step; [|exact Hlt|now apply build_line_empty_name].
  rewrite <- app_assoc, length_app. cbn [length].
  repeat (rewrite length_app; cbn [length]). reflexivity.
Qed.

Lemma loop_last (fuel p_end : nat) (pre post : bytes) (r : record)
    (k ln : Z) (w : list bytes) (d : list build_diag) :
  readable r ->
  (length pre < p_end)%nat ->
  build_loop (S fuel) p_end
    (at_state pre
       ((esc ESC_FULL (fst r) ++ [EQS] ++ esc ESC_FULL (snd r)) ++
        NUL :: post) k ln w d)
  = build_loop fuel p_end
      (at_state (pre ++ cut_line r) post (k + 1) (ln + 1)
         (w ++ [written_record r]) d).
Proof.
  intros Hr Hlt. unfold at_state.
  erewrite loop_step; [|exact Hlt|now apply build_line_last].
  now rewrite <- app_assoc, length_app.
Qed.

Lemma lines_cons (l : bytes) (ls : list bytes) :
  lines (l :: ls) = (l ++ [NL]) ++ lines ls.
Proof. reflexivity. Qed.

Lemma lines_no_equals (ls : list bytes) :
  Forall no_equals ls -> ~ In EQS (lines ls) /\ ~ In NUL (lines ls).
Proof.
  induction 1 as [|l ls (He & _ & H0 & _) _ [IH1 IH2]]; [cbn; tauto|].
  rewrite lines_cons, !in_app_iff. cbn [In].
  split; intros [[H|[H|[]]]|H]; try discriminate; auto.
Qed.

Lemma loop_missing_equals (ls : list bytes) :
  forall (fuel p_end : nat) (pre post : bytes) (k ln : Z)
         (w : list bytes) (d : list build_diag),
    Forall no_equals ls ->
    (length pre + length (lines ls) <= p_end)%nat ->
    build_loop (length ls + fuel) p_end
      (at_state pre (lines ls ++ NUL :: post) k ln w d)
    = build_loop fuel p_end
        (at_state (pre ++ lines ls) (NUL :: post) k
           (ln + Z.of_nat (length ls)) w
           (d ++ repeat BuildMissingEquals (length ls))).
Proof.
  induction ls as [|l ls IH]; intros fuel p_end pre post k ln w d Hls Hle.
  - cbn [lines map concat length Nat.add app repeat].
    now rewrite !app_nil_r, Z.add_0_r.
  - inversion Hls as [|? ? Hl Hls']; subst.
    destruct Hl as (He & Hnl & H0 & _).
    rewrite lines_cons in *. rewrite length_app in Hle.
    assert (Lp : (1 <= length (l ++ [NL]))%nat)
      by (rewrite length_app; cbn [length]; lia).
    cbn [length Nat.add]. unfold at_state at 1.
    rewrite <- app_assoc.
    erewrite loop_step; [|cbn [p_start]; lia|].
    2:{ apply build_line_missing_equals; auto.
        apply strchr_absent; [discriminate|].
        now apply lines_no_equals. }
    pose proof (IH fuel p_end (pre ++ (l ++ [NL])) post k (ln + 1) w
                  (d ++ [BuildMissingEquals]) Hls') as E.
    unfold at_state at 1 in E. rewrite <- app_assoc, length_app in E.
    rewrite E by lia. unfold at_state.
    cbn [repeat]. rewrite <- !app_assoc. cbn [app].
    f_equal. f_equal. lia.
Qed.

Lemma loop_done (fuel p_end : nat) (pre post : bytes) (k ln : Z)
    (w : list bytes) (d : list build_diag) :
  (p_end <= length pre)%nat ->
  build_loop fuel p_end (at_state pre post k ln w d)
  = Ok (at_state pre post k ln w d).
Proof.
  intros H. now apply build_loop_done.
Qed.

(** [nvram_build] on one input file whose second loop ends in the state
    [st]. *)
Lemma nvram_build_result (text : bytes) (rs : list record)
    (ds : list build_diag) :
  ~ In NUL text ->
  no_continuation (text ++ [NUL]) ->
  len text <= BUFFER_MAX ->
  (forall post,
     exists pre' post' ln,
       build_loop (length text) (length text)
         (at_state [] (text ++ NUL :: post) 0 0 [] [])
       = Ok (at_state pre' post' (Z.of_nat (length rs)) ln
               (map written_record rs) ds)) ->
  nvram_build [text] = Ok (0, serialize rs, map written_record rs, ds).
Proof.
  intros N C Hlen H.
  destruct (nvram_build_start text N C Hlen) as [post ->].
  destruct (H post) as (pre' & post' & ln & E).
  unfold at_state in E at 1. cbn [app length] in E. rewrite E.
  cbn [bind at_state record_count written diags].
  assert (L : (Z.of_nat (length rs) <? 0) = false) by (apply Z.ltb_ge; lia).
  rewrite L. reflexivity.
Qed.

Lemma no_newline_no_continuation (l : bytes) :
  ~ In NL l -> no_continuation l.
Proof.
  induction l as [|c l IH]; intros H; cbn [no_continuation]; [exact I|].
  split.
  - destruct l as [|d l]; [exact I|]. intros [_ E]. apply H. right. now left.
  - apply IH. intros H'. apply H. now right.
Qed.

Lemma lines_no_continuation (ls : list bytes) (rest : bytes) :
  Forall no_equals ls -> no_continuation rest ->
  no_continuation (lines ls ++ rest).
Proof.
  intros Hls Hrest. induction Hls as [|l ls (_ & Hnl & _ & Hlast) _ IH].
  - exact Hrest.
  - rewrite lines_cons, <- !app_assoc. cbn [app].
    now apply no_continuation_line.
Qed.

Lemma length_lines (ls : list bytes) : (length ls <= length (lines ls))%nat.
Proof.
  induction ls as [|l ls IH]; [cbn; lia|].
  rewrite lines_cons, !length_app. cbn [length]. lia.
Qed.

(** The empty-name line in the middle of a text. *)
Lemma nvram_build_empty_name (rs1 rs2 : list record) (y : bytes) :
  Forall readable rs1 -> Forall readable rs2 ->
  ~ In NL y -> ~ In NUL y -> last y NUL <> BSL ->
  len (text_of ESC_FULL rs1 ++ (EQS :: y ++ [NL]) ++ text_of ESC_FULL rs2)
    <= BUFFER_MAX ->
  nvram_build
    [text_of ESC_FULL rs1 ++ (EQS :: y ++ [NL]) ++ text_of ESC_FULL rs2]
  = Ok (0, serialize (rs1 ++ rs2), map written_record (rs1 ++ rs2),
        [BuildEmptyName]).
Proof.
  intros H1 H2 Hnl H0 Hlast Hlen.
  apply nvram_build_result; [| |exact Hlen|].
  - rewrite !in_app_iff. cbn [In]. rewrite in_app_iff. cbn [In].
    intros [H|[[H|[H|[H|[]]]]|H]]; try discriminate; auto;
      now apply text_no_nul in H.
  - rewrite <- !app_assoc. apply text_no_continuation_app; [exact H1|].
    change ((EQS :: y ++ [NL]) ++ text_of ESC_FULL rs2 ++ [NUL])
      with (EQS :: ((y ++ [NL]) ++ text_of ESC_FULL rs2 ++ [NUL])).
    rewrite <- app_assoc.
    change (EQS :: y ++ [NL] ++ text_of ESC_FULL rs2 ++ [NUL])
      with ((EQS :: y) ++ NL :: (text_of ESC_FULL rs2 ++ [NUL])).
    apply no_continuation_line.
    + intros [H|H]; [discriminate|auto].
    + destruct y as [|c y]; [cbn; discriminate|exact Hlast].
    + now apply text_no_continuation.
  - intros post.
    pose proof (text_of_length ESC_FULL rs1) as L1.
    pose proof (text_of_length ESC_FULL rs2) as L2.
    assert (Lt : length (text_of ESC_FULL rs1 ++ (EQS :: y ++ [NL]) ++
                         text_of ESC_FULL rs2)
                 = (length (text_of ESC_FULL rs1) + S (S (length y)) +
                    length (text_of ESC_FULL rs2))%nat).
    { rewrite !length_app. cbn [length]. rewrite length_app.
      cbn [length]. lia. }
    remember (length (text_of ESC_FULL rs1 ++ (EQS :: y ++ [NL]) ++
                      text_of ESC_FULL rs2)) as p_end eqn:Ep.
    match goal with
    | |- context [build_loop p_end p_end ?s] =>
        replace (build_loop p_end p_end s)
          with (build_loop
                  (length rs1 +
                   S (length rs2 + (p_end - length rs1 - 1 - length rs2)))
                  p_end s)
          by (f_equal; lia)
    end.
    rewrite <- !app_assoc.
    rewrite loop_text; [|exact H1|cbn [length]; lia].
    rewrite loop_empty_name;
      [|exact Hnl|exact H0|
       rewrite length_app, cut_lines_length; cbn [length]; lia].
    rewrite loop_text; [|exact H2|].
    2:{ rewrite !length_app, cut_lines_length. cbn [length].
        rewrite length_app. cbn [length]. lia. }
    rewrite loop_done.
    2:{ rewrite !length_app, !cut_lines_length. cbn [length].
        rewrite length_app. cbn [length]. lia. }
    eexists _, _, _. unfold at_state. f_equal. f_equal.
    + rewrite length_app. lia.
    + cbn [app]. now rewrite map_app.
Qed.

(** Lines without an equals sign at the end of a text. *)
Lemma nvram_build_missing_equals (rs : list record) (ls : list bytes) :
  Forall readable rs -> Forall no_equals ls ->
  len (text_of ESC_FULL rs ++ lines ls) <= BUFFER_MAX ->
  nvram_build [text_of ESC_FULL rs ++ lines ls]
  = Ok (0, serialize rs, map written_record rs,
        repeat BuildMissingEquals (length ls)).
Proof.
  intros H1 H2 Hlen.
  apply nvram_build_result; [| |exact Hlen|].
  - rewrite in_app_iff. intros [H|H].
    + now apply text_no_nul in H.
    + now apply (lines_no_equals ls H2) in H.
  - rewrite <- app_assoc. apply text_no_continuation_app; [exact H1|].
    apply lines_no_continuation; [exact H2|]. cbn. auto.
  - intros post.
    pose proof (text_of_length ESC_FULL rs) as L1.
    pose proof (length_lines ls) as L2.
    assert (Lt : length (text_of ESC_FULL rs ++ lines ls)
                 = (length (text_of ESC_FULL rs) + length (lines ls))%nat)
      by apply length_app.
    remember (length (text_of ESC_FULL rs ++ lines ls)) as p_end eqn:Ep.
    match goal with
    | |- context [build_loop p_end p_end ?s] =>
        replace (build_loop p_end p_end s)
          with (build_loop
                  (length rs +
                   (length ls + (p_end - length rs - length ls)))
                  p_end s)
          by (f_equal; lia)
    end.
    rewrite <- !app_assoc.
    rewrite loop_text; [|exact H1|cbn [length]; lia].
    rewrite loop_missing_equals; [|exact H2|].
    2:{ rewrite length_app, cut_lines_length. cbn [length]. lia. }
    rewrite loop_done.
    2:{ rewrite !length_app, !cut_lines_length. cbn [length]. lia. }
    eexists _, _, _. unfold at_state. f_equal.
Qed.

(** A last line without a newline. *)
Lemma nvram_build_last_line (rs : list record) (r : record) :
  Forall readable rs -> readable r ->
  len (text_of ESC_FULL rs ++
       esc ESC_FULL (fst r) ++ [EQS] ++ esc ESC_FULL (snd r)) <= BUFFER_MAX ->
  nvram_build
    [text_of ESC_FULL rs ++
     esc ESC_FULL (fst r) ++ [EQS] ++ esc ESC_FULL (snd r)]
  = Ok (0, serialize (rs ++ [r]), map written_record (rs ++ [r]), []).
Proof.
  intros H1 Hr Hlen.
  assert (Hne : ~ In EQS (fst r)) by apply Hr.
  assert (Ll : ~ In NL (esc ESC_FULL (fst r) ++ [EQS] ++ esc ESC_FULL (snd r))
               /\ ~ In NUL (esc ESC_FULL (fst r) ++ [EQS] ++
                           esc ESC_FULL (snd r))).
  { rewrite !in_app_iff. cbn [In].
    split; intros [H|[[H|[]]|H]]; try discriminate.
    - now apply esc_no_nl in H.
    - now apply esc_no_nl in H.
    - now apply esc_no_nul in H.
    - now apply esc_no_nul in H. }
  destruct Ll as [Lnl Lnul].
  apply nvram_build_result; [| |exact Hlen|].
  - rewrite in_app_iff. intros [H|H]; [now apply text_no_nul in H|auto].
  - rewrite <- app_assoc. apply text_no_continuation_app; [exact H1|].
    apply no_newline_no_continuation.
    rewrite in_app_iff. intros [H|[H|[]]]; [auto|discriminate].
  - intros post.
    pose proof (text_of_length ESC_FULL rs) as L1.
    set (line := esc ESC_FULL (fst r) ++ [EQS] ++ esc ESC_FULL (snd r)) in *.
    assert (Lp : (1 <= length line)%nat).
    { unfold line. rewrite !length_app. cbn [length]. lia. }
    assert (Lc : length (cut_line r) = S (length line)).
    { unfold cut_line, line. repeat (rewrite length_app; cbn [length]). lia. }
    assert (Lt : length (text_of ESC_FULL rs ++ line)
                 = (length (text_of ESC_FULL rs) + length line)%nat)
      by apply length_app.
    remember (length (text_of ESC_FULL rs ++ line)) as p_end eqn:Ep.
    match goal with
    | |- context [build_loop p_end p_end ?s] =>
        replace (build_loop p_end p_end s)
          with (build_loop (length rs + S (p_end - length rs - 1)) p_end s)
          by (f_equal; lia)
    end.
    rewrite <- !app_assoc.
    rewrite loop_text; [|exact H1|cbn [length]; lia].
    replace (line ++ NUL :: post)
      with ((esc ESC_FULL (fst r) ++ [EQS] ++ esc ESC_FULL (snd r)) ++
            NUL :: post) by reflexivity.
    rewrite loop_last; [|exact Hr|].
    2:{ rewrite length_app, cut_lines_length. cbn [length]. lia. }
    rewrite loop_done.
    2:{ rewrite !length_app, !cut_lines_length, Lc. cbn [length]. lia. }
    eexists _, _, _. unfold at_state. f_equal. f_equal.
    + rewrite length_app. cbn [length]. lia.
    + cbn [app]. now rewrite map_app.
Qed.

Lemma esc_concat (m : Z) (a b : bytes) : esc m (a ++ b) = esc m a ++ esc m b.
Proof. unfold esc. rewrite map_app. apply concat_app. Qed.

Lemma text_of_app (m : Z) (rs1 rs2 : list record) :
  text_of m (rs1 ++ rs2) = text_of m rs1 ++ text_of m rs2.
Proof. unfold text_of. rewrite map_app. apply concat_app. Qed.

Lemma text_line_equals_in_name (n1 n2 v : bytes) :
  text_line ESC_FULL (n1 ++ EQS :: n2, v)
  = text_line ESC_FULL (n1, n2 ++ EQS :: v).
Proof.
  unfold text_line. cbn [fst snd].
  rewrite !esc_concat, !esc_cons.
  change (escape_char ESC_FULL EQS) with [EQS].
  rewrite <- !app_assoc. reflexivity.
Qed.

Lemma dump_lines_text_any (rs : list record) :
  Forall (fun r => ~ In NUL (fst r) /\ ~ In NUL (snd r) /\
                   len (esc ESC_FULL (fst r)) <= 512) rs ->
  len (text_of ESC_FULL rs) <= BUFFER_MAX ->
  concat (map (dump_line ESC_FULL) rs) = text_of ESC_FULL rs.
Proof.
  intros Hrs Hlen. unfold text_of. f_equal. apply map_ext_in.
  intros r Hr. rewrite Forall_forall in Hrs.
  destruct (Hrs r Hr) as (Hn & Hv & Ln).
  apply dump_line_text; auto.
  pose proof (text_line_le ESC_FULL r rs Hr) as L.
  unfold text_line in L. rewrite !len_app in L.
  pose proof (len_nonneg (esc ESC_FULL (fst r))).
  change (len [EQS]) with 1 in L. change (len [NL]) with 1 in L.
  unfold BUFFER_MAX in Hlen. lia.
Qed.

Lemma nvram_dump_one (m : Z) (f out : bytes) (ds : list dump_diag) :
  dump_file m f [] [] = (0, out, ds) -> nvram_dump m [f] = (0, out, ds).
Proof.
  intros E. unfold nvram_dump. cbn [dump_files]. now rewrite E.
Qed.

(** ** The first loop of [build_file] on a human-mode text *)

Lemma nth_after (pre : bytes) (c : ascii) (m : bytes) :
  nth (length pre) (pre ++ c :: m) NUL = c.
Proof. induction pre; cbn [length app nth]; auto. Qed.

Lemma nth_after_1 (pre : bytes) (c d : ascii) (m : bytes) :
  nth (length pre + 1) (pre ++ c :: d :: m) NUL = d.
Proof. induction pre; cbn [length app nth Nat.add]; auto. Qed.

Lemma poke_after_1 (pre : bytes) (c d e : ascii) (m : bytes) :
  poke (pre ++ c :: d :: m) (length pre + 1) e = pre ++ c :: e :: m.
Proof.
  rewrite poke_app_r. reflexivity.
Qed.

Lemma join_lines_S (n i : nat) (b : bytes) :
  join_lines (S n) i b
  = join_lines n (S i)
      (if (nth i b NUL =? BSL)%char && (nth (i + 1) b NUL =? NL)%char
       then poke b (i + 1) "n"%char else b).
Proof. reflexivity. Qed.

Lemma join_lines_join_from (l : bytes) :
  forall (pre : bytes) (c : ascii) (post : bytes),
    join_lines (S (length l)) (length pre) (pre ++ c :: l ++ NUL :: post)
    = pre ++ c :: join_from c l ++ NUL :: post.
Proof.
  induction l as [|d l IH]; intros pre c post.
  - cbn [length app join_from]. rewrite join_lines_S.
    rewrite nth_after, nth_after_1.
    change (NUL =? NL)%char with false. rewrite andb_false_r. reflexivity.
  - cbn [length app join_from]. rewrite join_lines_S.
    rewrite nth_after, nth_after_1.
    set (d' := if (c =? BSL)%char && (d =? NL)%char then "n"%char else d).
    assert (E : (if (c =? BSL)%char && (d =? NL)%char
                 then poke (pre ++ c :: d :: l ++ NUL :: post)
                        (length pre + 1) "n"%char
                 else pre ++ c :: d :: l ++ NUL :: post)
                = (pre ++ [c]) ++ d' :: l ++ NUL :: post).
    { unfold d'. rewrite <- app_assoc. cbn [app].
      destruct ((c =? BSL)%char && (d =? NL)%char);
        [apply poke_after_1|reflexivity]. }
    rewrite E.
    replace (S (length pre)) with (length (pre ++ [c]))
      by (rewrite length_app; cbn [length]; lia).
    rewrite IH, <- app_assoc. reflexivity.
Qed.

Lemma join_lines_all (text post : bytes) :
  join_lines (length text) 0 (text ++ NUL :: post)
  = join_from NUL text ++ NUL :: post.
Proof.
  destruct text as [|c l]; [reflexivity|].
  cbn [length]. exact (join_lines_join_from l [] c post).
Qed.

Lemma join_from_length (l : bytes) :
  forall c, length (join_from c l) = length l.
Proof.
  induction l as [|d l IH]; intros c; cbn [join_from length]; auto.
Qed.

Lemma last_cons_default (l : bytes) :
  forall c d, last (c :: l) d = last l c.
Proof.
  induction l as [|e l IH]; intros c d; [reflexivity|].
  change (last (c :: e :: l) d) with (last (e :: l) d).
  now rewrite !IH.
Qed.

Lemma last_app_default (a b : bytes) (d : ascii) :
  last (a ++ b) d = last b (last a d).
Proof.
  revert d. induction a as [|c a IH]; intros d; [reflexivity|].
  cbn [app]. now rewrite !last_cons_default, IH.
Qed.

Lemma join_from_plain (a rest : bytes) :
  forall p,
    ~ In NL a ->
    join_from p (a ++ rest) = a ++ join_from (last a p) rest.
Proof.
  induction a as [|c a IH]; intros p H; [reflexivity|].
  cbn [app join_from].
  assert (E : (c =? NL)%char = false)
    by (apply Ascii.eqb_neq; intros ->; apply H; now left).
  rewrite E, andb_false_r, IH by (intros H'; apply H; now right).
  now rewrite last_cons_default.
Qed.

Lemma join_from_escape_char (c : ascii) :
  exists d0 ds,
    escape_char ESC_HUMAN c = d0 :: ds /\ d0 <> NL /\
    forall rest,
      d0 :: join_from d0 (ds ++ rest)
      = escape_char ESC_FULL c ++
        join_from (last (escape_char ESC_FULL c) NUL) rest.
Proof.
  each_char c; eexists _, _; (split; [reflexivity|]);
    (split; [discriminate|]); intros rest; reflexivity.
Qed.

Lemma escape_char_full_last (c : ascii) (p : ascii) :
  last (escape_char ESC_FULL c) p = last (escape_char ESC_FULL c) NUL.
Proof. each_char c; reflexivity. Qed.

Lemma join_from_esc (x rest : bytes) :
  forall p,
    join_from p (esc ESC_HUMAN x ++ rest)
    = esc ESC_FULL x ++ join_from (last (esc ESC_FULL x) p) rest.
Proof.
  induction x as [|c x IH]; intros p; [reflexivity|].
  rewrite !esc_cons, <- app_assoc.
  destruct (join_from_escape_char c) as (d0 & ds & E & Hd & J).
  rewrite E. cbn [app join_from].
  assert (F : (d0 =? NL)%char = false) by (now apply Ascii.eqb_neq).
  rewrite F, andb_false_r, J, IH, <- app_assoc.
  f_equal. f_equal.
  now rewrite last_app_default, (escape_char_full_last c p).
Qed.

Lemma last_nonnil_default (l : bytes) (d d' : ascii) :
  l <> [] -> last l d = last l d'.
Proof.
  destruct l as [|c l]; [congruence|]. intros _.
  now rewrite !last_cons_default.
Qed.

Lemma esc_last_eqs (x : bytes) :
  last x NUL <> BSL -> last (esc ESC_FULL x) EQS <> BSL.
Proof.
  intros H. destruct x as [|c x]; [cbn; discriminate|].
  rewrite (last_nonnil_default _ EQS NUL).
  - now apply esc_last.
  - intros E. apply esc_nil_iff in E. discriminate.
Qed.

Lemma join_from_text_line (r : record) (rest : bytes) (p : ascii) :
  last (snd r) NUL <> BSL ->
  join_from p (text_line ESC_HUMAN r ++ rest)
  = text_line ESC_FULL r ++ join_from NL rest.
Proof.
  intros H. unfold text_line. repeat (rewrite <- app_assoc; cbn [app]).
  rewrite join_from_plain by apply esc_no_nl.
  cbn [join_from]. change (EQS =? NL)%char with false.
  rewrite andb_false_r, join_from_esc. cbn [join_from].
  assert (E : (last (esc ESC_FULL (snd r)) EQS =? BSL)%char = false)
    by (apply Ascii.eqb_neq; now apply esc_last_eqs).
  rewrite E. reflexivity.
Qed.

Lemma join_from_text (rs : list record) :
  Forall readable rs ->
  forall p, join_from p (text_of ESC_HUMAN rs) = text_of ESC_FULL rs.
Proof.
  induction 1 as [|r rs Hr _ IH]; intros p; [reflexivity|].
  rewrite !text_of_cons, join_from_text_line, IH; [reflexivity|apply Hr].
Qed.

Lemma text_of_length_human (rs : list record) :
  Forall readable rs ->
  length (text_of ESC_HUMAN rs) = length (text_of ESC_FULL rs).
Proof.
  intros H. now rewrite <- (join_from_text rs H NUL), join_from_length.
Qed.

Lemma escape_char_no_nul_check (c : ascii) :
  forallb (fun d => negb (d =? NUL)%char) (escape_char ESC_FULL c) = true /\
  forallb (fun d => negb (d =? NUL)%char) (escape_char ESC_HUMAN c) = true.
Proof. each_char c; split; reflexivity. Qed.

Lemma escape_char_no_nul (m : Z) (c : ascii) : ~ In NUL (escape_char m c).
Proof.
  rewrite escape_char_mode. intros H.
  destruct (escape_char_no_nul_check c) as [F Hu].
  rewrite forallb_forall in F, Hu.
  destruct (m =? ESC_HUMAN); [apply Hu in H|apply F in H];
    rewrite Ascii.eqb_refl in H; discriminate.
Qed.

Lemma esc_no_nul_any (m : Z) (x : bytes) : ~ In NUL (esc m x).
Proof.
  intros H. apply in_esc in H as (c & _ & H).
  exact (escape_char_no_nul m c H).
Qed.

Lemma text_no_nul_any (m : Z) (rs : list record) : ~ In NUL (text_of m rs).
Proof.
  induction rs as [|[n v] rs IH]; [intros []|].
  rewrite text_of_cons. unfold text_line. cbn [fst snd].
  rewrite !in_app_iff. cbn [In].
  intros [[H|[[H|[]]|[H|[H|[]]]]]|H]; try discriminate; auto;
    now apply esc_no_nul_any in H.
Qed.

(** ** [build_file] on a text written by [nvram_dump] in human mode *)

Lemma build_file_human_text (rs : list record) (a post : bytes) :
  Forall readable rs ->
  len (text_of ESC_HUMAN rs) <= BUFFER_MAX ->
  length a = length (text_of ESC_HUMAN rs) ->
  exists post',
    build_file (a ++ NUL :: post) (text_of ESC_HUMAN rs)
    = Ok {| b_ret := Z.of_nat (length rs);
            b_buffer := concat (map cut_line rs) ++ NUL :: post';
            b_written := map written_record rs;
            b_diags := [] |}.
Proof.
  intros Hrs Hlen Ha. unfold build_file, fread.
  pose proof (text_of_length_human rs Hrs) as HL.
  remember (text_of ESC_HUMAN rs) as text eqn:Ht.
  assert (L : (length text <= Z.to_nat BUFFER_MAX)%nat)
    by (unfold len in Hlen; lia).
  rewrite firstn_all2 by (unfold BUFFER_MAX in *; lia).
  rewrite <- Ha, skipn_app_length, Ha.
  assert (B : (Z.of_nat (length text) <=? BUFFER_MAX) = true)
    by (apply Z.leb_le; exact Hlen).
  rewrite B.
  destruct (poke_behind text post (Z.to_nat BUFFER_MAX) L) as [post' ->].
  assert (N : ~ In NUL text) by (subst text; apply text_no_nul_any).
  rewrite strlen_app_nul by exact N.
  rewrite join_lines_all. subst text. rewrite join_from_text by exact Hrs.
  rewrite strlen_app_nul by apply text_no_nul.
  pose proof (build_loop_text rs (length (text_of ESC_FULL rs)) []
                (NUL :: post') 0 0 [] [] Hrs (text_of_length _ rs)) as E.
  cbn [app length Nat.add] in E. rewrite E. cbn [bind].
  exists post'. reflexivity.
Qed.

Lemma nvram_build_human_text (rs : list record) :
  Forall readable rs ->
  len (text_of ESC_HUMAN rs) <= BUFFER_MAX ->
  nvram_build [text_of ESC_HUMAN rs]
  = Ok (0, serialize rs, map written_record rs, []).
Proof.
  intros Hrs Hlen. unfold nvram_build. cbn [main_loop m_buffer].
  destruct (fresh_buffer (length (text_of ESC_HUMAN rs))) as [post ->].
  { unfold len in Hlen. lia. }
  destruct (build_file_human_text rs
              (repeat NUL (length (text_of ESC_HUMAN rs)))
              post Hrs Hlen (repeat_length _ _)) as [post' ->].
  cbn [bind b_ret b_buffer b_written b_diags m_ret m_record_count m_records
       m_diags app].
  assert (E : (Z.of_nat (length rs) <? 0) = false) by (apply Z.ltb_ge; lia).
  rewrite E. reflexivity.
Qed.

Lemma dump_lines_text_mode (m : Z) (rs : list record) :
  Forall (fun r => ~ In NUL (fst r) /\ ~ In NUL (snd r) /\
                   len (esc ESC_FULL (fst r)) <= 512) rs ->
  len (text_of m rs) <= BUFFER_MAX ->
  concat (map (dump_line m) rs) = text_of m rs.
Proof.
  intros Hrs Hlen. unfold text_of. f_equal. apply map_ext_in.
  intros r Hr. rewrite Forall_forall in Hrs.
  destruct (Hrs r Hr) as (Hn & Hv & Ln).
  apply dump_line_text; auto.
  pose proof (text_line_le m r rs Hr) as L.
  unfold text_line in L. rewrite !len_app in L.
  pose proof (len_nonneg (esc ESC_FULL (fst r))).
  change (len [EQS]) with 1 in L. change (len [NL]) with 1 in L.
  unfold BUFFER_MAX in Hlen. lia.
Qed.

(** ** What [unescape_string] stores and reads *)

Lemma store_inv (c : ascii) (k : nat) (r : unescaped) (sts : Z)
    (dest : bytes) (nread : nat) :
  store c k r = UReturn sts dest nread ->
  exists dest' nread',
    r = UReturn sts dest' nread' /\ dest = c :: dest' /\
    nread = (k + nread')%nat.
Proof.
  destruct r as [s d n|]; [|discriminate]. cbn [store].
  intros E. injection E as <- <- <-. eauto.
Qed.

Lemma unescape_string_inv (src : bytes) (sts : Z) (dest : bytes)
    (nread : nat) :
  unescape_string src = UReturn sts dest nread ->
  (sts = 0 /\ dest = [NUL] /\ nread = 1%nat /\ (1 <= length src)%nat) \/
  (sts = 1 /\ dest = [] /\ nread = 4%nat /\ (4 <= length src)%nat) \/
  exists c k rest dest' nread',
    unescape_string rest = UReturn sts dest' nread' /\
    dest = c :: dest' /\ nread = (k + nread')%nat /\ (1 <= k)%nat /\
    (k + length rest <= length src)%nat.
Proof.
  destruct src as [|c p1]; [discriminate|]. cbn [unescape_string].
  destruct (c =? NUL)%char.
  { intros E. injection E as <- <- <-. left. cbn [length]. repeat split. lia. }
  destruct (c =? BSL)%char.
  2:{ intros E. apply store_inv in E as (d' & n' & E & -> & ->).
      right. right. exists c, 1%nat, p1, d', n'. cbn [length].
      repeat split; auto; lia. }
  destruct p1 as [|e p2]; [discriminate|].
  assert (G : forall b,
             store b 2 (unescape_string p2) = UReturn sts dest nread ->
             exists c k rest dest' nread',
               unescape_string rest = UReturn sts dest' nread' /\
               dest = c :: dest' /\ nread = (k + nread')%nat /\
               (1 <= k)%nat /\
               (k + length rest <= length (c :: e :: p2))%nat).
  { intros b E. apply store_inv in E as (d' & n' & E & -> & ->).
    exists b, 2%nat, p2, d', n'. cbn [length]. repeat split; auto; lia. }
  repeat match goal with
         | |- (if ?b then store _ _ _ else _) = _ -> _ =>
             destruct b; [intros E; right; right;
                          destruct (G _ E) as (c0 & k & rest & d' & n' & H);
                          exists c0, k, rest, d', n'; exact H|]
         end.
  destruct (e =? "x")%char.
  2:{ intros E; right; right.
      destruct (G _ E) as (c0 & k & rest & d' & n' & H).
      exists c0, k, rest, d', n'; exact H. }
  destruct p2 as [|s0 [|s1 p4]]; try discriminate.
  destruct (strtol16 [s0; s1; NUL]) as [v eptr].
  destruct (negb (eptr =? 2)%nat).
  - intros E. injection E as <- <- <-. right. left. cbn [length].
    repeat split. lia.
  - intros E. apply store_inv in E as (d' & n' & E & -> & ->).
    right. right. exists (char_of_int v), 4%nat, p4, d', n'. cbn [length].
    repeat split; auto; lia.
Qed.

Lemma unescape_string_bounds (n : nat) :
  forall (src : bytes) (sts : Z) (dest : bytes) (nread : nat),
    (length src <= n)%nat ->
    unescape_string src = UReturn sts dest nread ->
    (sts = 0 \/ sts = 1) /\
    (length dest <= nread <= length src)%nat /\
    (sts = 0 -> exists d, dest = d ++ [NUL]).
Proof.
  induction n as [|n IH]; intros src sts dest nread Hn E.
  - destruct src; [discriminate|cbn [length] in Hn; lia].
  - apply unescape_string_inv in E
      as [(-> & -> & -> & L)|[(-> & -> & -> & L)|
          (c & k & rest & d' & n' & E & -> & -> & K & L)]].
    + split; [now left|]. split; [cbn [length]; lia|].
      intros _. now exists [].
    + split; [now right|]. split; [cbn [length]; lia|]. discriminate.
    + apply IH in E as (S & B & T); [|lia].
      split; [exact S|]. split; [cbn [length]; lia|].
      intros Z0. destruct (T Z0) as [d ->]. now exists (c :: d).
Qed.

(** ** A line with a name and a value, whatever they unescape to *)

Lemma build_line_fields (pre post x y : bytes) (k ln : Z) (w : list bytes)
    (d : list build_diag) :
  x <> [] -> ~ In NUL x -> ~ In NL x -> ~ In EQS x ->
  ~ In NUL y -> ~ In NL y ->
  build_line (at_state pre ((x ++ [EQS] ++ y ++ [NL]) ++ post) k ln w d)
  = let next k w d :=
      at_state (pre ++ x ++ [NUL] ++ y ++ [NUL]) post k (ln + 1) w d in
    match unescape_string (x ++ NUL :: y ++ NUL :: post) with
    | UFault => Fault ReadOutside
    | UReturn sts r_name _ =>
        if R_NAME_SIZE <? len r_name then Fault OverrunName
        else if negb (sts =? 0) then
          Ok (next k w (d ++ [BuildBadName]))
        else
          match unescape_string (y ++ NUL :: post) with
          | UFault => Fault ReadOutside
          | UReturn sts r_value _ =>
              if R_VALUE_SIZE <? len r_value then Fault OverrunValue
              else if negb (sts =? 0) then
                Ok (next k w (d ++ [BuildBadValue]))
              else
                Ok (next (k + 1) (w ++ [make_record r_name r_value]) d)
          end
    end.
Proof.
  intros Xlen Xn0 Xnl Xne Yn0 Ynl. unfold at_state, build_line.
  cbn [buffer p_start record_count line_number written diags].
  rewrite skipn_app_length.
  assert (A1 : (x ++ [EQS] ++ y ++ [NL]) ++ post
               = x ++ EQS :: (y ++ NL :: post)).
  { cbn [app]. rewrite <- !app_assoc. cbn [app]. rewrite <- app_assoc.
    reflexivity. }
  assert (A2 : x ++ EQS :: (y ++ NL :: post) = (x ++ EQS :: y) ++ NL :: post).
  { rewrite <- app_assoc. reflexivity. }
  assert (E1 : strchr ((x ++ [EQS] ++ y ++ [NL]) ++ post) EQS
               = Some (length x)).
  { rewrite A1. now apply strchr_found. }
  assert (E2 : strchr ((x ++ [EQS] ++ y ++ [NL]) ++ post) NL
               = Some (length (x ++ EQS :: y))).
  { rewrite A1, A2. apply strchr_found.
    - rewrite in_app_iff. intros [H|[H|H]]; [auto|discriminate|auto].
    - rewrite in_app_iff. intros [H|[H|H]]; [auto|discriminate|auto]. }
  rewrite E1, E2.
  assert (P1 : poke (pre ++ (x ++ [EQS] ++ y ++ [NL]) ++ post)
                 (length pre + length (x ++ EQS :: y)) NUL
               = pre ++ (x ++ EQS :: y) ++ NUL :: post).
  { rewrite A1, A2, poke_app_r, poke_app. reflexivity. }
  rewrite P1.
  assert (P2 : poke (pre ++ (x ++ EQS :: y) ++ NUL :: post)
                 (length pre + length x) NUL
               = pre ++ x ++ NUL :: y ++ NUL :: post).
  { rewrite <- app_assoc. cbn [app]. rewrite poke_app_r, poke_app.
    reflexivity. }
  rewrite P2.
  rewrite skipn_app_length, strlen_app_nul by assumption.
  destruct (length x =? 0)%nat eqn:E0.
  { apply Nat.eqb_eq in E0. destruct x; [congruence|discriminate]. }
  assert (K : skipn (length pre + length x + 1)
                (pre ++ x ++ NUL :: y ++ NUL :: post)
              = y ++ NUL :: post).
  { rewrite <- Nat.add_assoc, skipn_app_plus.
    replace (length x + 1)%nat with (length (x ++ [NUL]) + 0)%nat
      by (rewrite length_app; cbn [length]; lia).
    change (x ++ NUL :: y ++ NUL :: post)
      with (x ++ [NUL] ++ y ++ NUL :: post).
    rewrite app_assoc, skipn_app_plus. reflexivity. }
  rewrite K.
  assert (B : pre ++ x ++ NUL :: y ++ NUL :: post
              = (pre ++ x ++ [NUL] ++ y ++ [NUL]) ++ post).
  { repeat (rewrite <- app_assoc; cbn [app]). reflexivity. }
  assert (L : (length pre + length (x ++ EQS :: y) + 1)%nat
              = length (pre ++ x ++ [NUL] ++ y ++ [NUL])).
  { repeat (rewrite length_app; cbn [length]). lia. }
  rewrite L, B. reflexivity.
Qed.

Lemma unescape_esc_then (x rest : bytes) :
  unescape_string (esc ESC_FULL x ++ rest)
  = match unescape_string rest with
    | UReturn sts dest nread =>
        UReturn sts (x ++ dest) (length (esc ESC_FULL x) + nread)
    | UFault => UFault
    end.
Proof.
  induction x as [|c x IH].
  - cbn [app length Nat.add]. change (esc ESC_FULL []) with (@nil ascii).
    cbn [app length Nat.add]. now destruct (unescape_string rest).
  - rewrite esc_cons, <- app_assoc, unescape_escape_char, IH.
    destruct (unescape_string rest) as [s dd n|]; [|reflexivity].
    cbn [store app]. rewrite length_app. f_equal. lia.
Qed.

(** ** A line that [build_file] skips or on which it goes wrong, between
    the lines of two texts *)

Lemma text_around_line (rs1 rs2 : list record) (body : bytes) :
  Forall readable rs1 -> Forall readable rs2 ->
  ~ In NL body -> ~ In NUL body -> last body NUL <> BSL ->
  ~ In NUL (text_of ESC_FULL rs1 ++ (body ++ [NL]) ++ text_of ESC_FULL rs2) /\
  no_continuation
    ((text_of ESC_FULL rs1 ++ (body ++ [NL]) ++ text_of ESC_FULL rs2) ++
     [NUL]).
Proof.
  intros H1 H2 Hnl H0 Hlast. split.
  - rewrite !in_app_iff. cbn [In].
    intros [H|[[H|[H|[]]]|H]]; try discriminate; auto;
      now apply text_no_nul in H.
  - rewrite <- !app_assoc. apply text_no_continuation_app; [exact H1|].
    cbn [app]. apply no_continuation_line; [exact Hnl|exact Hlast|].
    now apply text_no_continuation.
Qed.

Lemma nvram_build_skipped_line (rs1 rs2 : list record) (body cut : bytes)
    (dg : build_diag) :
  Forall readable rs1 -> Forall readable rs2 ->
  ~ In NL body -> ~ In NUL body -> last body NUL <> BSL ->
  length cut = S (length body) ->
  (forall pre post k ln w d,
     build_line (at_state pre ((body ++ [NL]) ++ post) k ln w d)
     = Ok (at_state (pre ++ cut) post k (ln + 1) w (d ++ [dg]))) ->
  len (text_of ESC_FULL rs1 ++ (body ++ [NL]) ++ text_of ESC_FULL rs2)
    <= BUFFER_MAX ->
  nvram_build
    [text_of ESC_FULL rs1 ++ (body ++ [NL]) ++ text_of ESC_FULL rs2]
  = Ok (0, serialize (rs1 ++ rs2), map written_record (rs1 ++ rs2),
        [dg]).
Proof.
  intros H1 H2 Hnl H0 Hlast Hcut Hline Hlen.
  destruct (text_around_line rs1 rs2 body H1 H2 Hnl H0 Hlast) as [N C].
  apply nvram_build_result; [exact N|exact C|exact Hlen|].
  intros post.
  pose proof (text_of_length ESC_FULL rs1) as L1.
  pose proof (text_of_length ESC_FULL rs2) as L2.
  assert (Lt : length (text_of ESC_FULL rs1 ++ (body ++ [NL]) ++
                       text_of ESC_FULL rs2)
               = (length (text_of ESC_FULL rs1) + S (length body) +
                  length (text_of ESC_FULL rs2))%nat).
  { rewrite !length_app. cbn [length]. lia. }
  remember (length (text_of ESC_FULL rs1 ++ (body ++ [NL]) ++
                    text_of ESC_FULL rs2)) as p_end eqn:Ep.
  match goal with
  | |- context [build_loop p_end p_end ?s] =>
      replace (build_loop p_end p_end s)
        with (build_loop
                (length rs1 +
                 S (length rs2 + (p_end - length rs1 - 1 - length rs2)))
                p_end s)
        by (f_equal; lia)
  end.
  rewrite <- !app_assoc.
  rewrite loop_text; [|exact H1|cbn [length]; lia].
  rewrite (app_assoc body [NL]).
  erewrite loop_step; [|unfold at_state; cbn [p_start app length];
                         rewrite cut_lines_length; lia|apply Hline].
  rewrite loop_text; [|exact H2|].
  2:{ cbn [app]. rewrite !length_app, cut_lines_length. lia. }
  rewrite loop_done.
  2:{ cbn [app]. rewrite !length_app, !cut_lines_length. lia. }
  eexists _, _, _. unfold at_state. f_equal. f_equal.
  - rewrite length_app. lia.
  - cbn [app]. now rewrite map_app.
Qed.

Lemma nvram_build_fault_line (rs1 rs2 : list record) (body : bytes)
    (fl : fault) :
  Forall readable rs1 -> Forall readable rs2 ->
  ~ In NL body -> ~ In NUL body -> last body NUL <> BSL ->
  (forall pre post k ln w d,
     build_line (at_state pre ((body ++ [NL]) ++ post) k ln w d)
     = Fault fl) ->
  len (text_of ESC_FULL rs1 ++ (body ++ [NL]) ++ text_of ESC_FULL rs2)
    <= BUFFER_MAX ->
  nvram_build
    [text_of ESC_FULL rs1 ++ (body ++ [NL]) ++ text_of ESC_FULL rs2]
  = Fault fl.
Proof.
  intros H1 H2 Hnl H0 Hlast Hline Hlen.
  destruct (text_around_line rs1 rs2 body H1 H2 Hnl H0 Hlast) as [N C].
  destruct (nvram_build_start _ N C Hlen) as [post E].
  etransitivity; [exact E|]. clear E.
  pose proof (text_of_length ESC_FULL rs1) as L1.
  assert (Lt : length (text_of ESC_FULL rs1 ++ (body ++ [NL]) ++
                       text_of ESC_FULL rs2)
               = (length (text_of ESC_FULL rs1) + S (length body) +
                  length (text_of ESC_FULL rs2))%nat).
  { rewrite !length_app. cbn [length]. lia. }
  remember (length (text_of ESC_FULL rs1 ++ (body ++ [NL]) ++
                    text_of ESC_FULL rs2)) as p_end eqn:Ep.
  match goal with
  | |- context [build_loop p_end p_end ?s] =>
      replace (build_loop p_end p_end s)
        with (build_loop (length rs1 + S (p_end - length rs1 - 1)) p_end
                (at_state []
                   ((text_of ESC_FULL rs1 ++ (body ++ [NL]) ++
                     text_of ESC_FULL rs2) ++ NUL :: post) 0 0 [] []))
        by (f_equal; lia)
  end.
  rewrite <- !app_assoc.
  rewrite loop_text; [|exact H1|cbn [length]; lia].
  rewrite (app_assoc body [NL]).
  cbn [build_loop].
  assert (Lp : (p_start (at_state ([] ++ concat (map cut_line rs1))
                  ((body ++ [NL]) ++ text_of ESC_FULL rs2 ++ NUL :: post)
                  (0 + Z.of_nat (length rs1)) (0 + Z.of_nat (length rs1))
                  ([] ++ map written_record rs1) []) <? p_end)%nat = true).
  { apply Nat.ltb_lt. unfold at_state. cbn [p_start app].
    rewrite cut_lines_length. lia. }
  rewrite Lp, Hline. reflexivity.
Qed.

Lemma last_name_value (x y : bytes) :
  last (x ++ [EQS] ++ y) NUL = last y EQS.
Proof.
  rewrite last_app_default. cbn [app]. apply last_cons_default.
Qed.

Lemma line_assoc (x y post : bytes) :
  ((x ++ [EQS] ++ y) ++ [NL]) ++ post = (x ++ [EQS] ++ y ++ [NL]) ++ post.
Proof. repeat (rewrite <- app_assoc; cbn [app]). reflexivity. Qed.

(** A name or a value too long for [r_name] or [r_value]. *)
Lemma nvram_build_long_field (rs1 rs2 : list record) (n v : bytes) :
  Forall readable rs1 -> Forall readable rs2 ->
  n <> [] -> ~ In NUL n -> ~ In EQS n ->
  ~ In NUL v -> last v NUL <> BSL ->
  256 < len n \/ 65536 < len v ->
  len (text_of ESC_FULL rs1 ++ text_line ESC_FULL (n, v) ++
       text_of ESC_FULL rs2) <= BUFFER_MAX ->
  nvram_build
    [text_of ESC_FULL rs1 ++ text_line ESC_FULL (n, v) ++
     text_of ESC_FULL rs2]
  = Fault (if 256 <? len n then OverrunName else OverrunValue).
Proof.
  intros H1 H2 Hn Hn0 Hne Hv0 Hvl Hlong.
  unfold text_line. cbn [fst snd].
  replace (esc ESC_FULL n ++ [EQS] ++ esc ESC_FULL v ++ [NL])
    with ((esc ESC_FULL n ++ [EQS] ++ esc ESC_FULL v) ++ [NL])
    by (repeat (rewrite <- app_assoc; cbn [app]); reflexivity).
  pose proof (esc_no_nul n) as Xn0. pose proof (esc_no_nl n) as Xnl.
  pose proof (esc_no_eqs n Hne) as Xne.
  pose proof (esc_no_nul v) as Yn0. pose proof (esc_no_nl v) as Ynl.
  assert (Xlen : esc ESC_FULL n <> [])
    by (intros E; now apply esc_nil_iff in E).
  apply nvram_build_fault_line; auto.
  - rewrite !in_app_iff. cbn [In]. intros [H|[[H|[]]|H]]; auto. discriminate.
  - rewrite !in_app_iff. cbn [In]. intros [H|[[H|[]]|H]]; auto. discriminate.
  - rewrite last_name_value. now apply esc_last_eqs.
  - intros pre post k ln w d.
    rewrite line_assoc, build_line_fields by assumption. cbv zeta.
    rewrite unescape_esc.
    assert (S1 : (R_NAME_SIZE <? len (n ++ [NUL])) = (256 <? len n)).
    { rewrite len_app. change (len [NUL]) with 1. unfold R_NAME_SIZE.
      destruct (256 <? len n) eqn:E.
      - apply Z.ltb_lt in E. apply Z.ltb_lt. lia.
      - apply Z.ltb_ge in E. apply Z.ltb_ge. lia. }
    rewrite S1. destruct (256 <? len n) eqn:E; [reflexivity|].
    apply Z.ltb_ge in E. change (negb (0 =? 0)) with false. cbv iota.
    rewrite unescape_esc.
    assert (S2 : (R_VALUE_SIZE <? len (v ++ [NUL])) = true).
    { apply Z.ltb_lt. rewrite len_app. change (len [NUL]) with 1.
      unfold R_VALUE_SIZE. lia. }
    now rewrite S2.
Qed.

(** A value with a [\x] that is not followed by an accepted pair. *)
Lemma nvram_build_bad_value (rs1 rs2 : list record) (n v1 y2 : bytes)
    (a b : ascii) :
  Forall readable rs1 -> Forall readable rs2 ->
  n <> [] -> ~ In NUL n -> ~ In EQS n -> len n <= 256 ->
  ~ In NUL v1 -> len v1 <= 65536 ->
  accepted_hex a b = false ->
  ~ In NUL (a :: b :: y2) -> ~ In NL (a :: b :: y2) ->
  last (b :: y2) NUL <> BSL ->
  len (text_of ESC_FULL rs1 ++
       ((esc ESC_FULL n ++ [EQS] ++
         esc ESC_FULL v1 ++ BSL :: "x"%char :: a :: b :: y2) ++ [NL]) ++
       text_of ESC_FULL rs2) <= BUFFER_MAX ->
  nvram_build
    [text_of ESC_FULL rs1 ++
     ((esc ESC_FULL n ++ [EQS] ++
       esc ESC_FULL v1 ++ BSL :: "x"%char :: a :: b :: y2) ++ [NL]) ++
     text_of ESC_FULL rs2]
  = Ok (0, serialize (rs1 ++ rs2), map written_record (rs1 ++ rs2),
        [BuildBadValue]).
Proof.
  intros H1 H2 Hn Hn0 Hne Hnl Hv0 Hvl Hab Hy0 Hynl Hlast.
  pose proof (esc_no_nul n) as Xn0. pose proof (esc_no_nl n) as Xnl.
  pose proof (esc_no_eqs n Hne) as Xne.
  assert (Xlen : esc ESC_FULL n <> [])
    by (intros E; now apply esc_nil_iff in E).
  set (y := esc ESC_FULL v1 ++ BSL :: "x"%char :: a :: b :: y2).
  assert (Yn0 : ~ In NUL y).
  { unfold y. rewrite in_app_iff. cbn [In] in *.
    intros [H|[H|[H|H]]]; try discriminate; auto.
    now apply esc_no_nul in H. }
  assert (Ynl : ~ In NL y).
  { unfold y. rewrite in_app_iff. cbn [In] in *.
    intros [H|[H|[H|H]]]; try discriminate; auto.
    now apply esc_no_nl in H. }
  assert (Yl : last y EQS <> BSL).
  { unfold y. rewrite last_app_default.
    change (last (BSL :: "x"%char :: a :: b :: y2) (last (esc ESC_FULL v1) EQS))
      with (last (b :: y2) (last (esc ESC_FULL v1) EQS)).
    rewrite (last_nonnil_default _ _ NUL) by discriminate. exact Hlast. }
  apply (nvram_build_skipped_line rs1 rs2 _
           (esc ESC_FULL n ++ [NUL] ++ y ++ [NUL]) BuildBadValue); auto.
  - rewrite !in_app_iff. cbn [In]. intros [H|[[H|[]]|H]]; auto. discriminate.
  - rewrite !in_app_iff. cbn [In]. intros [H|[[H|[]]|H]]; auto. discriminate.
  - now rewrite last_name_value.
  - repeat (rewrite length_app; cbn [length]). lia.
  - intros pre post k ln w d.
    rewrite line_assoc, build_line_fields by assumption. cbv zeta.
    rewrite unescape_esc.
    assert (S1 : (R_NAME_SIZE <? len (n ++ [NUL])) = false).
    { apply Z.ltb_ge. rewrite len_app. change (len [NUL]) with 1.
      unfold R_NAME_SIZE. lia. }
    rewrite S1. change (negb (0 =? 0)) with false. cbv iota.
    unfold y at 1. rewrite <- app_assoc, unescape_esc_then. cbn [app].
    rewrite unescape_hex_rejected by exact Hab.
    assert (S2 : (R_VALUE_SIZE <? len (v1 ++ [])) = false).
    { apply Z.ltb_ge. rewrite app_nil_r. unfold R_VALUE_SIZE. lia. }
    rewrite S2. reflexivity.
Qed.

(** A name with a [\x] that is not followed by an accepted pair. *)
Lemma nvram_build_bad_name (rs1 rs2 : list record) (n1 x2 y : bytes)
    (a b : ascii) :
  Forall readable rs1 -> Forall readable rs2 ->
  ~ In NUL n1 -> ~ In EQS n1 -> len n1 <= 257 ->
  accepted_hex a b = false ->
  ~ In NUL (a :: b :: x2) -> ~ In NL (a :: b :: x2) ->
  ~ In EQS (a :: b :: x2) ->
  ~ In NUL y -> ~ In NL y -> last y EQS <> BSL ->
  len (text_of ESC_FULL rs1 ++
       (((esc ESC_FULL n1 ++ BSL :: "x"%char :: a :: b :: x2) ++ [EQS] ++ y)
        ++ [NL]) ++
       text_of ESC_FULL rs2) <= BUFFER_MAX ->
  nvram_build
    [text_of ESC_FULL rs1 ++
     (((esc ESC_FULL n1 ++ BSL :: "x"%char :: a :: b :: x2) ++ [EQS] ++ y)
      ++ [NL]) ++
     text_of ESC_FULL rs2]
  = Ok (0, serialize (rs1 ++ rs2), map written_record (rs1 ++ rs2),
        [BuildBadName]).
Proof.
  intros H1 H2 Hn0 Hne Hnl Hab Hx0 Hxnl Hxe Yn0 Ynl Yl.
  set (x := esc ESC_FULL n1 ++ BSL :: "x"%char :: a :: b :: x2).
  assert (Xn0 : ~ In NUL x).
  { unfold x. rewrite in_app_iff. cbn [In] in *.
    intros [H|[H|[H|H]]]; try discriminate; auto.
    now apply esc_no_nul in H. }
  assert (Xnl : ~ In NL x).
  { unfold x. rewrite in_app_iff. cbn [In] in *.
    intros [H|[H|[H|H]]]; try discriminate; auto.
    now apply esc_no_nl in H. }
  assert (Xne : ~ In EQS x).
  { unfold x. rewrite in_app_iff. cbn [In] in *.
    intros [H|[H|[H|H]]]; try discriminate; auto.
    now apply esc_no_eqs in H. }
  assert (Xlen : x <> []).
  { unfold x. intros E. apply app_eq_nil in E as [_ E]. discriminate. }
  apply (nvram_build_skipped_line rs1 rs2 _
           (x ++ [NUL] ++ y ++ [NUL]) BuildBadName); auto.
  - rewrite !in_app_iff. cbn [In]. intros [H|[[H|[]]|H]]; auto. discriminate.
  - rewrite !in_app_iff. cbn [In]. intros [H|[[H|[]]|H]]; auto. discriminate.
  - now rewrite last_name_value.
  - repeat (rewrite length_app; cbn [length]). lia.
  - intros pre post k ln w d.
    rewrite line_assoc, build_line_fields by assumption. cbv zeta.
    unfold x at 1. rewrite <- app_assoc, unescape_esc_then. cbn [app].
    rewrite unescape_hex_rejected by exact Hab.
    assert (S1 : (R_NAME_SIZE <? len (n1 ++ [])) = false).
    { apply Z.ltb_ge. rewrite app_nil_r. unfold R_NAME_SIZE. lia. }
    rewrite S1. reflexivity.
Qed.

(** ** [build_file] on a buffer that still holds the previous file *)

Lemma of_nat_not_neg (n : nat) : (Z.of_nat n <? 0) = false.
Proof. apply Z.ltb_ge. lia. Qed.

Lemma build_file_start (a lo post f : bytes) :
  length a = length f ->
  ~ In NUL (f ++ lo) ->
  no_continuation ((f ++ lo) ++ [NUL]) ->
  len (f ++ lo) <= BUFFER_MAX ->
  exists post',
    build_file (a ++ lo ++ NUL :: post) f
    = bind (build_loop (length (f ++ lo)) (length (f ++ lo))
              (at_state [] ((f ++ lo) ++ NUL :: post') 0 0 [] []))
        (fun st =>
           Ok {| b_ret := record_count st; b_buffer := buffer st;
                 b_written := written st; b_diags := diags st |}).
Proof.
  intros Ha N C Hlen. unfold build_file, fread.
  assert (L : (length (f ++ lo) <= Z.to_nat BUFFER_MAX)%nat)
    by (unfold len in Hlen; lia).
  assert (Lf : (length f <= Z.to_nat BUFFER_MAX)%nat)
    by (rewrite length_app in L; lia).
  rewrite firstn_all2 by (unfold BUFFER_MAX in *; lia).
  rewrite <- Ha, skipn_app_length, Ha.
  assert (B : (Z.of_nat (length f) <=? BUFFER_MAX) = true)
    by (apply Z.leb_le; unfold len in Hlen; rewrite length_app in Hlen; lia).
  rewrite B, (app_assoc f lo).
  destruct (poke_behind (f ++ lo) post (Z.to_nat BUFFER_MAX) L)
    as [post' ->].
  rewrite strlen_app_nul by exact N.
  rewrite join_lines_clean by exact C.
  rewrite strlen_app_nul by exact N.
  exists post'. reflexivity.
Qed.

(** The second of two input files, shorter than the first and without a
    final newline. *)
Lemma nvram_build_leftover (rs : list record) (n1 va vb n2 v2 : bytes) :
  readable (n1, va ++ vb) -> Forall readable rs ->
  readable (n2, v2 ++ vb) ->
  length (esc ESC_FULL n2 ++ [EQS] ++ esc ESC_FULL v2)
  = length (esc ESC_FULL n1 ++ [EQS] ++ esc ESC_FULL va) ->
  len (text_of ESC_FULL ((n1, va ++ vb) :: rs)) <= BUFFER_MAX ->
  nvram_build
    [text_of ESC_FULL ((n1, va ++ vb) :: rs);
     esc ESC_FULL n2 ++ [EQS] ++ esc ESC_FULL v2]
  = Ok (0,
        serialize (((n1, va ++ vb) :: rs) ++ [(n2, v2 ++ vb)]),
        map written_record (((n1, va ++ vb) :: rs) ++ [(n2, v2 ++ vb)]),
        []).
Proof.
  intros Hr1 Hrs Hr2 Hsame Hlen.
  assert (Hrs0 : Forall readable ((n1, va ++ vb) :: rs))
    by (constructor; assumption).
  set (f2 := esc ESC_FULL n2 ++ [EQS] ++ esc ESC_FULL v2) in *.
  unfold nvram_build. cbn [main_loop m_buffer].
  destruct (fresh_buffer (length (text_of ESC_FULL ((n1, va ++ vb) :: rs))))
    as [post ->].
  { unfold len in Hlen. lia. }
  destruct (build_file_text ((n1, va ++ vb) :: rs)
              (repeat NUL (length (text_of ESC_FULL ((n1, va ++ vb) :: rs))))
              post Hrs0 Hlen (repeat_length _ _)) as [post1 ->].
  cbn [bind b_ret b_buffer b_written b_diags m_ret m_record_count m_records
       m_diags app].
  set (a := esc ESC_FULL n1 ++ [NUL] ++ esc ESC_FULL va).
  set (lo := esc ESC_FULL vb).
  assert (Eb : concat (map cut_line ((n1, va ++ vb) :: rs)) ++ NUL :: post1
               = a ++ lo ++ NUL :: (concat (map cut_line rs) ++ NUL :: post1)).
  { cbn [map concat]. unfold cut_line at 1, a, lo. cbn [fst snd].
    rewrite esc_concat. repeat (rewrite <- app_assoc; cbn [app]).
    reflexivity. }
  rewrite Eb.
  assert (Ea : length a = length f2).
  { unfold a. rewrite Hsame. repeat (rewrite length_app; cbn [length]).
    reflexivity. }
  assert (Ef : f2 ++ lo
               = esc ESC_FULL (fst (n2, v2 ++ vb)) ++ [EQS] ++
                 esc ESC_FULL (snd (n2, v2 ++ vb))).
  { unfold f2, lo. cbn [fst snd]. rewrite esc_concat.
    repeat (rewrite <- app_assoc; cbn [app]). reflexivity. }
  assert (Hne : ~ In EQS n2) by apply Hr2.
  assert (Ll : ~ In NL (f2 ++ lo) /\ ~ In NUL (f2 ++ lo)).
  { rewrite Ef. cbn [fst snd]. rewrite !in_app_iff. cbn [In].
    split; intros [H|[[H|[]]|H]]; try discriminate.
    - now apply esc_no_nl in H.
    - now apply esc_no_nl in H.
    - now apply esc_no_nul in H.
    - now apply esc_no_nul in H. }
  destruct Ll as [Lnl Lnul].
  assert (Hlen2 : len (f2 ++ lo) <= BUFFER_MAX).
  { revert Hlen. rewrite text_of_cons. unfold text_line, len, f2, lo.
    cbn [fst snd]. rewrite esc_concat.
    repeat (rewrite length_app; cbn [length]).
    pose proof Hsame as Hs. unfold f2 in Hs.
    repeat (rewrite length_app in Hs; cbn [length] in Hs).
    lia. }
  destruct (build_file_start a lo (concat (map cut_line rs) ++ NUL :: post1)
              f2 Ea Lnul) as [post2 ->]; [|exact Hlen2|].
  { apply no_newline_no_continuation. rewrite in_app_iff.
    intros [H|[H|[]]]; [auto|discriminate]. }
  assert (Lp : (0 < length (f2 ++ lo))%nat).
  { rewrite Ef. repeat (rewrite length_app; cbn [length]). lia. }
  destruct (length (f2 ++ lo)) as [|fuel] eqn:El; [lia|].
  rewrite Ef, loop_last; [|exact Hr2|cbn [length]; lia].
  rewrite loop_done.
  2:{ cbn [app]. rewrite text_line_length. unfold text_line.
      rewrite Ef in El. repeat (rewrite length_app; cbn [length]).
      repeat (rewrite length_app in El; cbn [length] in El).
      cbn [fst snd] in *. unfold bytes in *. lia. }
  cbn [bind at_state record_count written diags buffer b_ret b_buffer
       b_written b_diags].
  cbn [m_ret m_record_count m_records m_diags app].
  rewrite !of_nat_not_neg. change (0 + 1 <? 0) with false. cbv iota.
  cbn [Z.eqb].
  unfold serialize.
  change ((n1, va ++ vb) :: rs ++ [(n2, v2 ++ vb)])
    with (((n1, va ++ vb) :: rs) ++ [(n2, v2 ++ vb)]).
  rewrite !map_app, !length_app, Nat2Z.inj_add. reflexivity.
Qed.

(** ** The name of the output file *)

Lemma cstring_no_nul (m : bytes) : ~ In NUL (cstring m).
Proof.
  induction m as [|c m IH]; cbn [cstring]; [intros []|].
  destruct (Ascii.eqb_spec c NUL) as [->|N]; [intros []|].
  intros [H|H]; [congruence|auto].
Qed.

Lemma strrchr_absent (x rest : bytes) (c : ascii) :
  ~ In c x -> strrchr (x ++ NUL :: rest) c = None.
Proof.
  induction x as [|d x IH]; intros Hc; cbn [app strrchr].
  - reflexivity.
  - destruct (d =? NUL)%char; [reflexivity|].
    rewrite IH by (intros H; apply Hc; now right).
    destruct (Ascii.eqb_spec d c) as [->|_]; [|reflexivity].
    exfalso. apply Hc. now left.
Qed.

Lemma strrchr_found (a b rest : bytes) (c : ascii) :
  c <> NUL -> ~ In NUL a -> ~ In c b ->
  strrchr (a ++ c :: b ++ NUL :: rest) c = Some (length a).
Proof.
  intros Hc. induction a as [|d a IH]; intros Ha Hb; cbn [app strrchr length].
  - destruct (Ascii.eqb_spec c NUL) as [E|_]; [contradiction|].
    rewrite strrchr_absent by exact Hb. now rewrite Ascii.eqb_refl.
  - destruct (Ascii.eqb_spec d NUL) as [->|_];
      [exfalso; apply Ha; now left|].
    rewrite IH; [reflexivity| |exact Hb]. intros H. apply Ha. now right.
Qed.

Lemma strrchr_prefix (a b rest : bytes) (c : ascii) :
  ~ In NUL a -> ~ In c b ->
  strrchr (a ++ b ++ NUL :: rest) c = strrchr (a ++ [NUL]) c.
Proof.
  induction a as [|d a IH]; intros Ha Hb; cbn [app strrchr].
  - now apply strrchr_absent.
  - destruct (Ascii.eqb_spec d NUL) as [->|_];
      [exfalso; apply Ha; now left|].
    rewrite IH; [reflexivity| |exact Hb]. intros H. apply Ha. now right.
Qed.

Lemma strrchr_lt (m : bytes) (c : ascii) (k : nat) :
  strrchr m c = Some k -> (k < strlen m)%nat /\ nth k m NUL = c.
Proof.
  unfold strlen. revert k.
  induction m as [|d m IH]; intros k; cbn [strrchr cstring]; [discriminate|].
  destruct (d =? NUL)%char; [discriminate|].
  destruct (strrchr m c) as [j|].
  - intros E. injection E as <-. destruct (IH j eq_refl) as [L N].
    cbn [length nth]. split; [lia|exact N].
  - destruct (Ascii.eqb_spec d c) as [->|_]; [|discriminate].
    intros E. injection E as <-. cbn [length nth]. split; [lia|reflexivity].
Qed.

Lemma strrchr_rest (x rest : bytes) (c : ascii) :
  ~ In NUL x -> strrchr (x ++ NUL :: rest) c = strrchr (x ++ [NUL]) c.
Proof.
  intros Hx. rewrite <- (app_nil_r x) at 1. rewrite <- app_assoc.
  now apply (strrchr_prefix x [] rest c).
Qed.

Lemma strcpy_app (s : bytes) :
  forall pre m : bytes,
    (length s < length m)%nat ->
    strcpy (pre ++ m) (length pre) s
    = pre ++ s ++ NUL :: skipn (S (length s)) m.
Proof.
  induction s as [|c s IH]; intros pre m L; cbn [strcpy length app].
  - destruct m as [|d m]; [cbn [length] in L; lia|].
    now rewrite poke_app.
  - destruct m as [|d m]; [cbn [length] in L; lia|].
    rewrite poke_app.
    replace (pre ++ c :: m) with ((pre ++ [c]) ++ m)
      by (now rewrite <- app_assoc).
    replace (S (length pre)) with (length (pre ++ [c]))
      by (rewrite length_app; cbn [length]; lia).
    rewrite IH by (cbn [length] in L; lia).
    rewrite <- app_assoc. reflexivity.
Qed.

Lemma holds_cstring (buf x : bytes) : holds buf x -> cstring buf = x.
Proof.
  intros (_ & N & _ & rest & ->). now apply cstring_app_nul.
Qed.

Lemma firstn_no_nul (n : nat) (x : bytes) :
  ~ In NUL x -> ~ In NUL (firstn n x).
Proof.
  revert x. induction n as [|n IH]; intros [|c x] H; cbn [firstn In];
    try tauto.
  intros [E|H']; [apply H; now left|].
  apply (IH x); [|exact H']. intros H2. apply H. now right.
Qed.

Lemma copy_filename_holds (buf s : bytes) :
  length buf = Z.to_nat 65541 ->
  holds (copy_filename buf s) (firstn (Z.to_nat 65536) (cstring s)).
Proof.
  intros L. unfold copy_filename, strncpy.
  set (N := Z.to_nat 65536) in *.
  set (x := firstn N (cstring s)).
  assert (Lx : length x = Nat.min N (strlen s)) by apply length_firstn.
  assert (Ls : length (x ++ repeat NUL (N - strlen s)) = N).
  { rewrite length_app, repeat_length. lia. }
  assert (Lk : length (skipn N buf) = 5%nat).
  { rewrite length_skipn, L. subst N. lia. }
  destruct (skipn N buf) as [|d tl] eqn:Sk; [discriminate|].
  rewrite <- Ls at 2.
  rewrite <- (Nat.add_0_r (length (x ++ repeat NUL (N - strlen s)))).
  rewrite poke_app_r. cbn [poke].
  assert (Nx : ~ In NUL x) by (apply firstn_no_nul, cstring_no_nul).
  split; [|split; [|split]].
  - rewrite length_app. cbn [length] in *. rewrite Ls. subst N. lia.
  - exact Nx.
  - lia.
  - destruct (N - strlen s)%nat as [|k].
    + exists tl. cbn [repeat]. now rewrite app_nil_r.
    + exists (repeat NUL k ++ NUL :: tl). cbn [repeat].
      rewrite <- app_assoc. reflexivity.
Qed.

Lemma holds_length (buf x : bytes) :
  holds buf x -> length buf = Z.to_nat 65541.
Proof. intros (L & _). exact L. Qed.

Lemma last_cons_any {A : Type} (l : list A) :
  forall c d, last (c :: l) d = last l c.
Proof.
  induction l as [|e l IH]; intros c d; [reflexivity|].
  change (last (c :: e :: l) d) with (last (e :: l) d).
  now rewrite !IH.
Qed.

Lemma fold_left_last {A B C : Type} (g : B -> A -> B) (f : A -> C)
    (R : B -> C -> Prop) :
  (forall b a c, R b c -> R (g b a) (f a)) ->
  forall l b c, R b c -> R (fold_left g l b) (last (map f l) c).
Proof.
  intros Hg. induction l as [|a l IH]; intros b c H; [exact H|].
  cbn [fold_left map]. rewrite last_cons_any. apply IH. exact (Hg b a c H).
Qed.

Lemma options_holds (optargs : list bytes) (buf x : bytes) :
  holds buf x ->
  holds (fold_left copy_filename optargs buf)
    (last (map (fun o => firstn (Z.to_nat 65536) (cstring o)) optargs) x).
Proof.
  apply (fold_left_last copy_filename
           (fun o => firstn (Z.to_nat 65536) (cstring o)) holds).
  intros b a c H. apply copy_filename_holds. exact (holds_length _ _ H).
Qed.

Lemma zeros_hold : holds (repeat NUL (Z.to_nat 65541)) [].
Proof.
  split; [|split; [|split]].
  - apply repeat_length.
  - intros [].
  - cbn [length]. lia.
  - assert (E : Z.to_nat 65541 = S (Z.to_nat 65540)) by lia.
    rewrite E. cbn [repeat app]. eauto.
Qed.

Lemma strcpy_holds (buf x : bytes) (d : nat) :
  holds buf x -> (d <= length x)%nat ->
  cstring (strcpy buf d (str ".bin")) = firstn d x ++ str ".bin".
Proof.
  intros (L & N & Lx & rest & ->) Hd.
  assert (Ex : x ++ NUL :: rest = firstn d x ++ (skipn d x ++ NUL :: rest))
    by (rewrite app_assoc, firstn_skipn; reflexivity).
  assert (Lf : length (firstn d x) = d) by (rewrite length_firstn; lia).
  pose proof (strcpy_app (str ".bin") (firstn d x)
                (skipn d x ++ NUL :: rest)) as Q.
  rewrite Lf in Q. rewrite Ex, Q.
  - rewrite app_assoc. apply cstring_app_nul.
    rewrite in_app_iff. intros [H|H].
    + now apply firstn_no_nul in H.
    + cbn in H. intuition discriminate.
  - rewrite length_app in *. cbn [length] in *.
    rewrite length_skipn.
    change (length (str ".bin")) with 4%nat. lia.
Qed.

Lemma change_extension_holds (buf x : bytes) :
  holds buf x -> cstring (change_extension buf) = default_name x.
Proof.
  intros H. pose proof H as (L & N & Lx & rest & E).
  unfold change_extension, default_name, strcat, strlen.
  rewrite (holds_cstring _ _ H).
  assert (Rd : forall c, strrchr buf c = strrchr (x ++ [NUL]) c)
    by (intros c; rewrite E; apply strrchr_rest; exact N).
  rewrite !Rd.
  destruct (strrchr (x ++ [NUL]) DOT) as [d|] eqn:Ed.
  - apply strrchr_lt in Ed as [Ld _]. unfold strlen in Ld.
    rewrite cstring_app_nul in Ld by exact N.
    destruct (match strrchr (x ++ [NUL]) SLASH with
              | Some s => (s <? d)%nat
              | None => true
              end).
    + apply strcpy_holds; [exact H|lia].
    + rewrite (strcpy_holds _ _ _ H) by lia. now rewrite firstn_all.
  - rewrite (strcpy_holds _ _ _ H) by lia. now rewrite firstn_all.
Qed.

Lemma name_of_buffer (buf buf1 given x : bytes) :
  holds buf given -> holds buf1 x ->
  (if (strlen buf =? 0)%nat then Some (cstring (change_extension buf1))
   else Some (cstring buf))
  = Some (match given with
          | [] => default_name x
          | c :: g => c :: g
          end).
Proof.
  intros H H1. unfold strlen. rewrite (holds_cstring _ _ H).
  destruct given as [|g gs]; [|reflexivity].
  cbn [length Nat.eqb]. f_equal. now apply change_extension_holds.
Qed.

Lemma output_name_spec (optargs : list bytes) (first : bytes)
    (files : list bytes) :
  output_name optargs (first :: files)
  = Some (match last (map (fun o => firstn (Z.to_nat 65536) (cstring o))
                        optargs) [] with
          | [] => default_name (firstn (Z.to_nat 65536) (cstring first))
          | c :: given => c :: given
          end).
Proof.
  pose proof (options_holds optargs _ _ zeros_hold) as H.
  exact (name_of_buffer _ _ _ _ H
           (copy_filename_holds _ first (holds_length _ _ H))).
Qed.

Lemma default_name_extension (stem ext : bytes) :
  ~ In NUL (stem ++ DOT :: ext) -> ~ In DOT ext -> ~ In SLASH ext ->
  default_name (stem ++ DOT :: ext) = stem ++ str ".bin".
Proof.
  intros N Hd Hs. unfold default_name.
  assert (Ns : ~ In NUL stem)
    by (intros H; apply N; rewrite in_app_iff; now left).
  assert (Ed : strrchr ((stem ++ DOT :: ext) ++ [NUL]) DOT
               = Some (length stem)).
  { rewrite <- app_assoc. cbn [app].
    apply strrchr_found; [discriminate|exact Ns|exact Hd]. }
  assert (Es : strrchr ((stem ++ DOT :: ext) ++ [NUL]) SLASH
               = strrchr (stem ++ [NUL]) SLASH).
  { rewrite <- app_assoc.
    apply (strrchr_prefix stem (DOT :: ext) [] SLASH); [exact Ns|].
    intros [H|H]; [discriminate|auto]. }
  rewrite Ed, Es.
  assert (F : firstn (length stem) (stem ++ DOT :: ext) = stem)
    by apply firstn_app_length.
  destruct (strrchr (stem ++ [NUL]) SLASH) as [s|] eqn:E;
    [|now rewrite F].
  apply strrchr_lt in E as [L _]. unfold strlen in L.
  rewrite cstring_app_nul in L by exact Ns.
  apply Nat.ltb_lt in L. now rewrite L, F.
Qed.

Lemma default_name_no_extension (dir base : bytes) :
  ~ In NUL (dir ++ base) -> ~ In DOT base -> ~ In SLASH base ->
  dir = [] \/ (exists dir', dir = dir' ++ [SLASH]) ->
  default_name (dir ++ base) = (dir ++ base) ++ str ".bin".
Proof.
  intros N Hd Hs Hdir. unfold default_name.
  assert (Nd : ~ In NUL dir)
    by (intros H; apply N; rewrite in_app_iff; now left).
  assert (Ed : strrchr ((dir ++ base) ++ [NUL]) DOT
               = strrchr (dir ++ [NUL]) DOT).
  { rewrite <- app_assoc. now apply strrchr_prefix. }
  rewrite Ed. destruct Hdir as [->|[dir' ->]]; [reflexivity|].
  assert (Nd' : ~ In NUL dir')
    by (intros H; apply Nd; rewrite in_app_iff; now left).
  assert (Es : strrchr (((dir' ++ [SLASH]) ++ base) ++ [NUL]) SLASH
               = Some (length dir')).
  { rewrite <- !app_assoc. cbn [app].
    apply strrchr_found; [discriminate|exact Nd'|exact Hs]. }
  rewrite Es.
  assert (Ed' : strrchr ((dir' ++ [SLASH]) ++ [NUL]) DOT
                = strrchr (dir' ++ [NUL]) DOT).
  { rewrite <- app_assoc.
    apply (strrchr_prefix dir' [SLASH] [] DOT); [exact Nd'|].
    intros [H|[]]. discriminate. }
  rewrite Ed'.
  destruct (strrchr (dir' ++ [NUL]) DOT) as [d|] eqn:E; [|reflexivity].
  apply strrchr_lt in E as [L _]. unfold strlen in L.
  rewrite cstring_app_nul in L by exact Nd'.
  assert (F : (length dir' <? d)%nat = false) by (apply Nat.ltb_ge; lia).
  now rewrite F.
Qed.

Lemma default_name_length (x : bytes) :
  ~ In NUL x ->
  (4 <= length (default_name x) <= length x + 4)%nat /\
  ~ In NUL (default_name x).
Proof.
  intros N. unfold default_name.
  assert (B : ~ In NUL (str ".bin")) by (cbn; intuition discriminate).
  assert (A : forall y, ~ In NUL y -> (length y <= length x)%nat ->
                (4 <= length (y ++ str ".bin") <= length x + 4)%nat /\
                ~ In NUL (y ++ str ".bin")).
  { intros y Ny Ly. rewrite length_app, in_app_iff.
    change (length (str ".bin")) with 4%nat. split; [lia|tauto]. }
  assert (F : forall d, (4 <= length (firstn d x ++ str ".bin")
                         <= length x + 4)%nat /\
                        ~ In NUL (firstn d x ++ str ".bin")).
  { intros d. apply A; [now apply firstn_no_nul|].
    rewrite length_firstn. lia. }
  destruct (strrchr (x ++ [NUL]) DOT) as [d|]; [|now apply A].
  destruct (match strrchr (x ++ [NUL]) SLASH with
            | Some s => (s <? d)%nat
            | None => true
            end); [apply F|now apply A].
Qed.

Lemma firstn_cstring (n : nat) (x : bytes) :
  ~ In NUL x -> (length x <= n)%nat -> firstn n (cstring x) = x.
Proof.
  intros N L. rewrite (cstring_id x N). now apply firstn_all2.
Qed.

Lemma output_name_default (x : bytes) (files : list bytes) :
  ~ In NUL x -> len x <= 65536 ->
  output_name [] (x :: files) = Some (default_name x).
Proof.
  intros N L. rewrite output_name_spec. cbn [map last].
  rewrite firstn_cstring; [reflexivity|exact N|unfold len in L; lia].
Qed.

Lemma last_app_any {A : Type} (a b : list A) (d : A) :
  last (a ++ b) d = last b (last a d).
Proof.
  revert d. induction a as [|c a IH]; intros d; [reflexivity|].
  cbn [app]. now rewrite !last_cons_any, IH.
Qed.

Lemma output_name_option (optargs : list bytes) (o first : bytes)
    (files : list bytes) :
  output_name (optargs ++ [o]) (first :: files)
  = match firstn (Z.to_nat 65536) (cstring o) with
    | [] => output_name [] (first :: files)
    | c :: given => Some (c :: given)
    end.
Proof.
  rewrite !output_name_spec, map_app, last_app_any.
  cbn [map last].
  now destruct (firstn (Z.to_nat 65536) (cstring o)).
Qed.

Lemma some_inj {A : Type} (a b : A) : Some a = Some b -> a = b.
Proof. intros E. now injection E. Qed.

Lemma output_name_bounds (optargs files : list bytes) (name : bytes) :
  output_name optargs files = Some name ->
  0 < len name <= 65540 /\ ~ In NUL name.
Proof.
  destruct files as [|first files]; [discriminate|].
  rewrite output_name_spec.
  pose proof (options_holds optargs _ _ zeros_hold) as (_ & N & L & _).
  destruct (last _ []) as [|c given].
  - intros E. apply some_inj in E. subst name.
    assert (Nx : ~ In NUL (firstn (Z.to_nat 65536) (cstring first)))
      by apply firstn_no_nul, cstring_no_nul.
    destruct (default_name_length _ Nx) as [Ld Nd].
    rewrite length_firstn in Ld. unfold len. split; [lia|exact Nd].
  - intros E. apply some_inj in E. subst name. unfold len.
    cbn [length] in *.
    split; [lia|exact N].
Qed.

(** ** The diagnostics of [dump_file] *)

Lemma dump_loop_step_diags (m : Z) (todo : nat) (k : Z) (r : record)
    (rest out : bytes) (err : list dump_diag) :
  fits r ->
  dump_loop m (S todo) k (record_bytes r ++ rest) out err
  = dump_loop m todo (k + 1) rest (out ++ dump_line m r)
      (err ++ snd (print_record m (k + 1) (fst r ++ [NUL]) (snd r ++ [NUL]))).
Proof.
  intros Hr. cbn [dump_loop]. rewrite read_record_bytes by exact Hr.
  unfold dump_line. rewrite <- (print_record_fst m (k + 1)).
  destruct (print_record m (k + 1) (fst r ++ [NUL]) (snd r ++ [NUL]))
    as [line ds].
  reflexivity.
Qed.

Lemma dump_loop_records_diags (m : Z) (rs : list record) :
  forall (todo : nat) (k : Z) (rest out : bytes) (err : list dump_diag),
    Forall fits rs ->
    dump_loop m (length rs + todo) k (concat (map record_bytes rs) ++ rest)
      out err
    = dump_loop m todo (k + Z.of_nat (length rs)) rest
        (out ++ concat (map (dump_line m) rs)) (err ++ dump_diags m k rs).
Proof.
  induction rs as [|r rs IH]; intros todo k rest out err Hrs.
  - cbn [length map concat app Nat.add dump_diags].
    now rewrite Z.add_0_r, !app_nil_r.
  - inversion Hrs as [|? ? Hr Hrs']; subst.
    cbn [length map concat Nat.add dump_diags]. rewrite <- app_assoc.
    rewrite dump_loop_step_diags by exact Hr.
    rewrite IH by exact Hrs'.
    rewrite <- !app_assoc. f_equal. lia.
Qed.

Lemma short_record_read (k : Z) (f : bytes) :
  short_record f -> read_record k f = inl (short_read k f).
Proof.
  unfold short_record, short_read, read_record, fread.
  destruct f as [|b0 f]; [reflexivity|]. cbn [firstn skipn].
  pose proof (code_range b0) as R0.
  destruct (len f <? code b0) eqn:E0.
  - intros _. apply Z.ltb_lt in E0.
    assert (E1 : negb (length (firstn (Z.to_nat (code b0)) f)
                       =? Z.to_nat (code b0))%nat = true).
    { apply negb_true_iff, Nat.eqb_neq. rewrite length_firstn.
      unfold len in E0. lia. }
    now rewrite E1.
  - apply Z.ltb_ge in E0.
    assert (E1 : negb (length (firstn (Z.to_nat (code b0)) f)
                       =? Z.to_nat (code b0))%nat = false).
    { apply negb_false_iff, Nat.eqb_eq. rewrite length_firstn.
      unfold len in E0. lia. }
    rewrite E1. intros [H|H]; [lia|].
    destruct (skipn (Z.to_nat (code b0)) f) as [|lo [|hi g]];
      try reflexivity.
    cbn [firstn skipn].
    pose proof (code_range lo). pose proof (code_range hi).
    assert (0 <= le16 lo hi) by (unfold le16; lia).
    destruct (0 <? Z.to_nat (le16 lo hi))%nat eqn:E3.
    + assert (E4 : negb (length (firstn (Z.to_nat (le16 lo hi)) g)
                         =? Z.to_nat (le16 lo hi))%nat = true).
      { apply negb_true_iff, Nat.eqb_neq. rewrite length_firstn.
        unfold len in H. lia. }
      now rewrite E4.
    + apply Nat.ltb_ge in E3. unfold len in H. lia.
Qed.

Lemma dump_file_truncated (m : Z) (rs : list record) (count : Z)
    (rest : bytes) :
  Forall fits rs ->
  Z.of_nat (length rs) < count <= 65535 ->
  short_record rest ->
  dump_file m (image count rs ++ rest) [] []
  = (1, concat (map (dump_line m) rs),
     dump_diags m 0 rs ++ [short_read (Z.of_nat (length rs) + 1) rest]).
Proof.
  intros Hrs Hcount Hshort.
  unfold image, dump_file, fread.
  cbn [MAGIC str list_ascii_of_string app firstn skipn length Nat.eqb
       memeq negb orb nth].
  rewrite !Ascii.eqb_refl. cbn [andb negb].
  rewrite le16_char_of_int, Z.mod_small by lia.
  replace (Z.to_nat count)
    with (length rs + S (Z.to_nat count - length rs - 1))%nat by lia.
  rewrite dump_loop_records_diags by exact Hrs.
  cbn [dump_loop app].
  now rewrite (short_record_read _ rest Hshort).
Qed.

(** The diagnostics of [print_record]: the one about the name, then the
    one about the value. *)
Lemma print_record_diags (m k : Z) (name value : bytes) :
  exists d2,
    snd (print_record m k name value)
    = (if 512 <? len (esc ESC_FULL (cstring name)) then [DumpNameCut k]
       else if forallb plain (cstring name) then []
            else [DumpNameNonPrintable k]) ++ d2 /\
    (d2 = [] \/ d2 = [DumpValueCut k]).
Proof.
  unfold print_record.
  assert (D2 : forall c2 : Z,
             (if c2 <? Z.of_nat (strlen value) then [DumpValueCut k] else [])
             = [] \/
             (if c2 <? Z.of_nat (strlen value) then [DumpValueCut k] else [])
             = [DumpValueCut k]).
  { intros c2. destruct (c2 <? _); auto. }
  destruct (512 <? len (esc ESC_FULL (cstring name))) eqn:E.
  - apply Z.ltb_lt in E.
    destruct (escape_string_prefix ESC_FULL name 513) as (j & Hj & Heq).
    assert (Hlt : (j < strlen name)%nat).
    { unfold escape_string in Heq. cbn [Z.leb Z.compare] in Heq.
      destruct (escape_loop_spec ESC_FULL (cstring name) 0 0 513 []
                  ltac:(lia)) as (j' & Hj' & Heq' & Hl & _).
      rewrite Heq' in Heq. cbn [app] in Heq.
      assert (Ej : j' = j) by (injection Heq as Ej _; lia). subst j'.
      unfold strlen in *.
      destruct (Nat.eq_dec j (length (cstring name))) as [->|]; [|lia].
      rewrite firstn_all in Hl. lia. }
    rewrite Heq.
    destruct (escape_string m value (65536 * 2 + 1)) as [c2 e2].
    cbn [snd].
    assert (L : (Z.of_nat j <? Z.of_nat (strlen name)) = true)
      by (apply Z.ltb_lt; lia).
    rewrite L. eexists. split; [reflexivity|apply D2].
  - apply Z.ltb_ge in E.
    rewrite (escape_string_all ESC_FULL name 513) by lia.
    destruct (escape_string m value (65536 * 2 + 1)) as [c2 e2].
    cbn [snd]. rewrite Z.ltb_irrefl.
    unfold strlen at 2.
    rewrite (cstring_id (esc ESC_FULL (cstring name))) by apply esc_no_nul.
    unfold strlen at 1.
    destruct (forallb plain (cstring name)) eqn:P.
    + rewrite (esc_plain ESC_FULL _ P), Nat.ltb_irrefl.
      eexists. split; [reflexivity|apply D2].
    + apply (esc_not_plain ESC_FULL) in P. unfold len in P.
      assert (L : (length (cstring name)
                   <? length (esc ESC_FULL (cstring name)))%nat = true)
        by (apply Nat.ltb_lt; lia).
      rewrite L. eexists. split; [reflexivity|apply D2].
Qed.

(** ** [main] with and without an input file *)

Lemma nvram_build_cons (f0 : bytes) (fs : list bytes) :
  nvram_build (f0 :: fs)
  = (do st <- main_loop (f0 :: fs)
                {| m_buffer := repeat NUL (Z.to_nat (BUFFER_MAX + 1));
                   m_ret := 0; m_record_count := 0; m_records := [];
                   m_diags := [] |};
     let f := output_header ++ concat (m_records st) in
     let f := if m_ret st =? 0 then fixup_record_count f (m_record_count st)
              else f in
     Ok (m_ret st, f, m_records st, m_diags st)).
Proof. reflexivity. Qed.

Lemma nvram_dump_cons (escape : Z) (f0 : bytes) (fs : list bytes) :
  nvram_dump escape (f0 :: fs) = dump_files escape (f0 :: fs) 0 [] [].
Proof. reflexivity. Qed.




(** * Properties *)

(** ** C2 *)

(** C2 (defect of the code): the human-mode round trip loses a value that
    ends in a backslash.  [nvram_dump -h] prints the value [x\] of the
    record [a] as [x\] followed by the newline that ends the line; the
    first loop of [build_file] rewrites that newline into the letter [n],
    although a doubled backslash precedes it, and [nvram_build] writes the
    single record [a] with the six-byte value [x\nk=v] in place of the two
    records of the image. *)
Theorem human_round_trip_loses_trailing_backslash :
  nvram_dump ESC_HUMAN [image_backslash] = (0, text_backslash, []) /\
  join_lines (length text_backslash) 0 text_backslash =
    str "a=x\\nk=v" ++ [NL] /\
  nvram_build [text_backslash] =
    Ok (0,
        MAGIC ++ ["001"%char; NUL] ++
        ["001"%char] ++ str "a" ++ ["006"%char; NUL] ++ str "x\nk=v",
        [["001"%char] ++ str "a" ++ ["006"%char; NUL] ++ str "x\nk=v"],
        []).
Proof.
  repeat split; vm_compute; reflexivity.
Qed.

(** ** C9 *)

(** C9: [escape_string] never overruns its destination nor cuts an escape
    sequence.  For every source and every capacity [max > 0] it consumes
    some number [k] of the characters of the source string and returns
    [k]; the string it leaves in [dest] is exactly the escape sequences of
    these [k] characters, whole, and is shorter than [max] (so its NUL
    terminator fits too); it stops early only in front of a sequence that
    would not fit, and consumes the whole string when its escaped form is
    shorter than [max]. *)
Theorem escape_string_truncation_safe (escape_mode : Z) (src : bytes)
    (max : Z) :
  0 < max ->
  exists k : nat,
    (k <= strlen src)%nat /\
    escape_string escape_mode src max
      = (Z.of_nat k, esc escape_mode (firstn k (cstring src))) /\
    len (esc escape_mode (firstn k (cstring src))) < max /\
    ((k < strlen src)%nat ->
       max <= len (esc escape_mode (firstn (S k) (cstring src)))) /\
    (len (esc escape_mode (cstring src)) < max -> k = strlen src).
Proof.
  intros Hmax. unfold escape_string, strlen.
  destruct (max <=? 0) eqn:E; [apply Z.leb_le in E; lia|].
  destruct (escape_loop_spec escape_mode (cstring src) 0 0 max [] Hmax)
    as (k & Hk & Heq & Hlt & Hnext & Hall).
  exists k. repeat split; auto; try lia.
Qed.

Lemma escape_string_truncation_safe_witness :
  0 < 6 /\
  exists k : nat,
    (k <= strlen (str "ab" ++ [NL] ++ str "cd" ++ [NUL]))%nat /\
    escape_string ESC_FULL (str "ab" ++ [NL] ++ str "cd" ++ [NUL]) 6
      = (Z.of_nat k,
         esc ESC_FULL (firstn k (cstring (str "ab" ++ [NL] ++ str "cd" ++ [NUL])))) /\
    len (esc ESC_FULL (firstn k (cstring (str "ab" ++ [NL] ++ str "cd" ++ [NUL])))) < 6 /\
    ((k < strlen (str "ab" ++ [NL] ++ str "cd" ++ [NUL]))%nat ->
       6 <= len (esc ESC_FULL
                   (firstn (S k) (cstring (str "ab" ++ [NL] ++ str "cd" ++ [NUL]))))) /\
    (len (esc ESC_FULL (cstring (str "ab" ++ [NL] ++ str "cd" ++ [NUL]))) < 6 ->
       k = strlen (str "ab" ++ [NL] ++ str "cd" ++ [NUL])).
Proof.
  split; [lia|].
  apply (escape_string_truncation_safe ESC_FULL
           (str "ab" ++ [NL] ++ str "cd" ++ [NUL]) 6).
  lia.
Defined.

(** ** C6 *)

(** C6: [dump_file] rejects an input shorter than the 8 bytes of the
    header, or whose first 6 bytes are not the magic tag, with the header
    diagnostic, status 1 and nothing printed (no record is read); on any
    other input the number of records it goes on to read is the unsigned
    16-bit little-endian value of the bytes at offsets 6 and 7: an image
    whose count bytes are the low and the high byte of the number of its
    records is read in full, record by record, with status 0, whatever
    follows the records. *)
Theorem dump_file_validates_header (escape_mode : Z) (f out : bytes)
    (err : list dump_diag) :
  ((length f < 8)%nat \/ firstn 6 f <> MAGIC ->
     dump_file escape_mode f out err = (1, out, err ++ [DumpHeader]) /\
     read_image f = None) /\
  (forall lo hi body,
     f = MAGIC ++ lo :: hi :: body ->
     dump_file escape_mode f out err
       = dump_loop escape_mode (Z.to_nat (code lo + 256 * code hi)) 0 body
           out err /\
     read_image f = read_records (Z.to_nat (code lo + 256 * code hi)) 0 body) /\
  (forall (rs : list record) (rest : bytes),
     f = image (Z.of_nat (length rs)) rs ++ rest ->
     Forall fits rs ->
     Z.of_nat (length rs) <= 65535 ->
     read_image f = Some rs /\
     exists ds,
       dump_file escape_mode f out err
       = (0, out ++ concat (map (dump_line escape_mode) rs), err ++ ds)).
Proof.
  split; [|split].
  - intros H. unfold dump_file, read_image, fread.
    destruct (negb (length (firstn 8 f) =? 8)%nat) eqn:E1; [now split|].
    destruct (memeq (firstn 8 f) MAGIC 6) eqn:E2; [|now split].
    exfalso. apply negb_false_iff, Nat.eqb_eq in E1.
    apply memeq_true in E2 as (E2 & _ & _).
    rewrite firstn_firstn in E2. change (Nat.min 6 8) with 6%nat in E2.
    rewrite length_firstn in E1.
    destruct H as [H|H]; [lia|]. apply H. exact E2.
  - intros lo hi body ->. unfold dump_file, read_image, fread, le16.
    change (firstn 8 (MAGIC ++ lo :: hi :: body)) with (MAGIC ++ [lo; hi]).
    change (skipn 8 (MAGIC ++ lo :: hi :: body)) with body.
    change (length (MAGIC ++ [lo; hi]) =? 8)%nat with true.
    change (memeq (MAGIC ++ [lo; hi]) MAGIC 6) with true.
    cbn [negb orb].
    change (nth 6 (MAGIC ++ [lo; hi]) NUL) with lo.
    change (nth 7 (MAGIC ++ [lo; hi]) NUL) with hi.
    replace (code hi * 256 + code lo) with (code lo + 256 * code hi) by lia.
    split; reflexivity.
  - intros rs rest -> Hrs Hcount.
    unfold image, read_image, dump_file, fread.
    cbn [MAGIC str list_ascii_of_string app firstn skipn length Nat.eqb
         memeq negb orb nth].
    rewrite !Ascii.eqb_refl. cbn [andb negb].
    rewrite le16_char_of_int, Z.mod_small, Nat2Z.id by lia.
    split.
    + now apply read_records_bytes.
    + destruct (dump_loop_records escape_mode rs 0 0 rest out err Hrs)
        as [ds E].
      rewrite Nat.add_0_r in E. rewrite E.
      exists ds. reflexivity.
Qed.

Lemma dump_file_validates_header_witness :
  (((length (str "DD-WRX12") < 8)%nat \/ firstn 6 (str "DD-WRX12") <> MAGIC) /\
   dump_file ESC_FULL (str "DD-WRX12") [] [] = (1, [], [] ++ [DumpHeader]) /\
   read_image (str "DD-WRX12") = None) /\
  (dump_file ESC_FULL (MAGIC ++ ["002"%char; "001"%char]) [] []
   = dump_loop ESC_FULL (Z.to_nat (code "002" + 256 * code "001")) 0 [] [] [] /\
   read_image (MAGIC ++ ["002"%char; "001"%char])
   = read_records (Z.to_nat (code "002" + 256 * code "001")) 0 []) /\
  (read_image (image 1 [(str "a", str "b")] ++ str "junk")
   = Some [(str "a", str "b")] /\
   exists ds,
     dump_file ESC_FULL (image 1 [(str "a", str "b")] ++ str "junk") [] []
     = (0, [] ++ concat (map (dump_line ESC_FULL) [(str "a", str "b")]),
        [] ++ ds)).
Proof.
  assert (H : (length (str "DD-WRX12") < 8)%nat \/
              firstn 6 (str "DD-WRX12") <> MAGIC)
    by (right; discriminate).
  split; [|split].
  - split; [exact H|].
    exact (proj1 (dump_file_validates_header ESC_FULL (str "DD-WRX12") [] [])
             H).
  - exact (proj1 (proj2 (dump_file_validates_header ESC_FULL
                           (MAGIC ++ ["002"%char; "001"%char]) [] []))
             "002"%char "001"%char [] eq_refl).
  - apply (proj2 (proj2 (dump_file_validates_header ESC_FULL
                           (image 1 [(str "a", str "b")] ++ str "junk")
                           [] []))
             [(str "a", str "b")] (str "junk") eq_refl).
    + repeat constructor; vm_compute; discriminate.
    + vm_compute. discriminate.
Defined.

(** ** C4 *)

(** C4 (defect of the code): [unescape_string] validates the two
    characters after [\x] with [strtol] and the test [eptr != s+2], and
    [strtol] takes a sign or a white-space character in front of one
    hexadecimal digit.  [\x+5] and [\x 5] are decoded as the byte 5 and
    [\x-5] as the byte 251 where a structural error is due, and
    [nvram_build] writes the record of the line [a=\x+5] with the value
    byte 5 and no diagnostic. *)
Theorem unescape_hex_accepts_sign_and_space :
  unescape_string (str "\x+5" ++ [NUL]) = UReturn 0 ["005"%char; NUL] 5 /\
  unescape_string (str "\x 5" ++ [NUL]) = UReturn 0 ["005"%char; NUL] 5 /\
  unescape_string (str "\x-5" ++ [NUL]) = UReturn 0 ["251"%char; NUL] 5 /\
  nvram_build [str "a=\x+5" ++ [NL]] =
    Ok (0,
        MAGIC ++ ["001"%char; NUL] ++
        ["001"%char] ++ str "a" ++ ["001"%char; NUL; "005"%char],
        [["001"%char] ++ str "a" ++ ["001"%char; NUL; "005"%char]],
        []).
Proof.
  repeat split; vm_compute; reflexivity.
Qed.

(** ** C10 *)

(** C10 (defect of the code): on a string that ends in a lone backslash
    [unescape_string] takes the terminating NUL for the escaped character,
    stores it, steps over it and goes on decoding the bytes that follow
    the string.  With [bc] behind the two-character string [a\] it reads
    6 bytes and stores [a], NUL, [b], [c], NUL; when the terminator is the
    last byte of the buffer it reads outside of the buffer.  After [\x]
    at the end of a string it reads one byte behind the terminator. *)
Theorem unescape_reads_past_terminator :
  strlen (str "a\" ++ [NUL] ++ str "bc" ++ [NUL]) = 2%nat /\
  unescape_string (str "a\" ++ [NUL] ++ str "bc" ++ [NUL])
    = UReturn 0 (str "a" ++ [NUL] ++ str "bc" ++ [NUL]) 6 /\
  unescape_string (str "a\" ++ [NUL]) = UFault /\
  unescape_string (str "a\x" ++ [NUL] ++ str "bc" ++ [NUL])
    = UReturn 1 (str "a") 5.
Proof.
  repeat split; vm_compute; reflexivity.
Qed.

(** ** C8 *)

(** C8 (defect of the code): [build_file] looks for the equals sign with
    [strchr] from the start of the line to the end of the buffer, not to
    the end of the line.  On the two lines [abc] and [x=y] it takes the
    equals sign of the second line for the one of the first and writes
    the record of name [abc] and value [y] followed by a newline; the
    first line is not skipped and not reported, the record [x], [y] is
    not written, and the missing equals sign is reported twice, for what
    is left of the second line. *)
Theorem missing_equals_takes_next_line :
  nvram_build [str "abc" ++ [NL] ++ str "x=y" ++ [NL]] =
    Ok (0,
        MAGIC ++ ["001"%char; NUL] ++
        ["003"%char] ++ str "abc" ++ ["002"%char; NUL] ++ str "y" ++ [NL],
        [["003"%char] ++ str "abc" ++ ["002"%char; NUL] ++ str "y" ++ [NL]],
        [BuildMissingEquals; BuildMissingEquals]).
Proof.
  vm_compute; reflexivity.
Qed.

(** ** C1 *)

(** C1, as the claim states it, fails on a value that holds a NUL: the
    image of the record [a] with the three-byte value [x], NUL, [y] is
    read in full by [dump_file], but the value is then handled as a C
    string, [nvram_dump] prints [a=x], and [nvram_build] makes from that
    line an image whose value is the single byte [x]. *)
Lemma full_round_trip_loses_nul :
  read_image image_nul = Some [(str "a", str "x" ++ [NUL] ++ str "y")] /\
  nvram_dump ESC_FULL [image_nul] = (0, str "a=x" ++ [NL], []) /\
  nvram_build [str "a=x" ++ [NL]]
    = Ok (0, image 1 [(str "a", str "x")],
          [record_bytes (str "a", str "x")], []) /\
  image 1 [(str "a", str "x")] <> image_nul.
Proof.
  repeat split; try (vm_compute; reflexivity). discriminate.
Qed.

(** C1, amended: the full-mode round trip holds for the records that the
    text form carries.  For every sequence of at most 65535 records whose
    names are not empty, hold no NUL and no equals sign, are at most 255
    bytes long and at most 512 characters once escaped, whose values hold
    no NUL, do not end in a backslash and are at most 65535 bytes long,
    and whose full-mode text is at most 128K long: the image
    [nvram_build] writes for them is the image of these records in the
    format; [dump_file] reads from it the same records in the same order;
    [nvram_dump] prints their full-mode text; and [nvram_build] makes from
    that text the same image, byte for byte, without a diagnostic. *)
Theorem full_round_trip (rs : list record) :
  Forall round_trips rs ->
  Z.of_nat (length rs) <= 65535 ->
  len (text_of ESC_FULL rs) <= BUFFER_MAX ->
  serialize rs = image (Z.of_nat (length rs)) rs /\
  read_image (serialize rs) = Some rs /\
  (exists diags,
     nvram_dump ESC_FULL [serialize rs] = (0, text_of ESC_FULL rs, diags)) /\
  nvram_build [text_of ESC_FULL rs]
    = Ok (0, serialize rs, map written_record rs, []).
Proof.
  intros Hrs Hcount Hlen.
  assert (Hfits : Forall fits rs)
    by (eapply Forall_impl; [apply round_trips_fits|exact Hrs]).
  assert (Hread : Forall readable rs)
    by (eapply Forall_impl; [apply round_trips_readable|exact Hrs]).
  pose proof (serialize_image rs Hrs) as Himg.
  assert (Hcnt : Z.to_nat (le16 (char_of_int (Z.of_nat (length rs)))
                             (char_of_int (Z.shiftr (Z.of_nat (length rs)) 8)))
                 = length rs).
  { rewrite le16_char_of_int, Z.mod_small by lia. lia. }
  repeat split.
  - exact Himg.
  - rewrite Himg. unfold image, read_image, fread.
    cbn [MAGIC str list_ascii_of_string app firstn skipn length Nat.eqb
         memeq negb orb nth].
    rewrite !Ascii.eqb_refl. cbn [andb negb].
    rewrite Hcnt. rewrite <- (app_nil_r (concat _)).
    now apply read_records_bytes.
  - rewrite Himg. unfold nvram_dump, image, dump_files, dump_file, fread.
    cbn [MAGIC str list_ascii_of_string app firstn skipn length Nat.eqb
         memeq negb orb nth].
    rewrite !Ascii.eqb_refl. cbn [andb negb].
    rewrite Hcnt. rewrite <- (app_nil_r (concat _)).
    rewrite <- (Nat.add_0_r (length rs)).
    destruct (dump_loop_records ESC_FULL rs 0 0 [] [] [] Hfits) as [ds ->].
    cbn [dump_loop app]. rewrite dump_lines_text by assumption.
    exists ds. reflexivity.
  - now apply nvram_build_text.
Qed.

Lemma full_round_trip_witness :
  let rs := [(str "wl_ssid", str "MyNet" ++ ["001"%char]);
             (str "k", str "line1" ++ [NL] ++ str "line2\x")] in
  serialize rs = image (Z.of_nat (length rs)) rs /\
  read_image (serialize rs) = Some rs /\
  (exists diags,
     nvram_dump ESC_FULL [serialize rs] = (0, text_of ESC_FULL rs, diags)) /\
  nvram_build [text_of ESC_FULL rs]
    = Ok (0, serialize rs, map written_record rs, []).
Proof.
  apply (full_round_trip
           [(str "wl_ssid", str "MyNet" ++ ["001"%char]);
            (str "k", str "line1" ++ [NL] ++ str "line2\x")]).
  - repeat constructor; cbn; try discriminate; intuition discriminate.
  - cbn. lia.
  - vm_compute. discriminate.
Defined.

(** ** C3 *)

(** C3, as the claim states it, fails: the line whose name is 256 letters
    [a] is not rejected.  [nvram_build] ends with status 0 and no
    diagnostic and writes one record, with the name length 0 and no name
    byte. *)
Lemma long_name_not_rejected :
  nvram_build [text_long_name]
  = Ok (0, image 1 [([], str "v")], [record_bytes ([], str "v")], []).
Proof.
  vm_compute. reflexivity.
Qed.

(** C3, amended: [build_file] has no name-too-long error.  The record it
    builds starts with the low 8 bits of the length of the name, followed
    by that many of the first bytes of the name; so a line whose name
    unescapes to 256 bytes (what [r_name] can hold) is written, with
    status 0 and no diagnostic, as a record with an empty name and the
    value of the line. *)
Theorem long_name_is_cut :
  (forall name value : bytes,
     exists tail,
       make_record name value
       = char_of_int (Z.of_nat (strlen name) mod 256) ::
         firstn (Z.to_nat (Z.of_nat (strlen name) mod 256)) (cstring name) ++
         tail) /\
  (forall n v : bytes,
     len n = 256 -> ~ In NUL n -> ~ In EQS n ->
     ~ In NUL v -> last v NUL <> BSL -> len v <= 65535 ->
     len (text_line ESC_FULL (n, v)) <= BUFFER_MAX ->
     nvram_build [text_line ESC_FULL (n, v)]
     = Ok (0, image 1 [([], v)], [record_bytes ([], v)], [])).
Proof.
  split.
  - intros name value. rewrite make_record_mod. eexists. reflexivity.
  - intros n v Ln Hn0 Hne Hv0 Hvl Lv Ht.
    assert (Hr : readable (n, v)).
    { unfold readable. cbn [fst snd]. repeat split; auto; try lia.
      intros ->. discriminate. }
    assert (Ht' : len (text_of ESC_FULL [(n, v)]) <= BUFFER_MAX).
    { unfold text_of. cbn [map concat]. now rewrite app_nil_r. }
    pose proof (nvram_build_text [(n, v)] (Forall_cons _ Hr (Forall_nil _)) Ht')
      as E.
    unfold text_of in E. cbn [map concat] in E. rewrite app_nil_r in E.
    rewrite E. unfold serialize. rewrite fixup_header. cbn [map concat].
    assert (W : written_record (n, v) = record_bytes ([], v)).
    { unfold written_record, record_bytes. cbn [fst snd].
      rewrite make_record_mod, !strlen_app_nul, !cstring_app_nul by assumption.
      unfold len in *. rewrite Ln. change (256 mod 256) with 0.
      rewrite (Z.mod_small (Z.of_nat (length v))) by lia.
      rewrite Nat2Z.id, firstn_all, shiftr_8. reflexivity. }
    rewrite W. reflexivity.
Qed.

Lemma long_name_is_cut_witness :
  nvram_build [text_line ESC_FULL (repeat "a"%char 256, str "v")]
  = Ok (0, image 1 [([], str "v")], [record_bytes ([], str "v")], []).
Proof.
  apply (proj2 long_name_is_cut (repeat "a"%char 256) (str "v")).
  - reflexivity.
  - intros H. apply repeat_spec in H. discriminate.
  - intros H. apply repeat_spec in H. discriminate.
  - cbn. intuition discriminate.
  - cbn. discriminate.
  - cbn. lia.
  - vm_compute. discriminate.
Defined.

(** ** C5 *)

(** C5, as the claim states it, fails: [dump_file] prints each record as
    soon as it is read.  On the image that announces two records and is
    cut in the value of the second it returns 1 with the diagnostic of
    the short read, and the line of the first record is on [stdout]. *)
Lemma truncated_image_prints_earlier_records :
  dump_file ESC_FULL image_cut [] [] = (1, str "a=b" ++ [NL], [DumpValue 2]).
Proof.
  vm_compute. reflexivity.
Qed.

(** C5, amended: a short read is fatal for the image and stops the
    reading, but it is not atomic for [stdout].  When the image announces
    more records than it holds in full and what follows the complete
    records [rs] is cut short, [dump_file] returns 1; [stdout] holds the
    lines of the records [rs] read before and nothing else; and [stderr]
    holds the diagnostics about the names and values of these records
    followed by the report of the short read: the message of the read
    that came short (name length, name, value length or value) with the
    number of the record that is cut.  [dump_file] returns 0 only when
    it has read and printed as many complete records as the header
    announces. *)
Theorem truncated_image_fails (escape_mode : Z) :
  (forall (rs : list record) (count : Z) (rest : bytes),
     Forall fits rs ->
     Z.of_nat (length rs) < count <= 65535 ->
     short_record rest ->
     dump_file escape_mode (image count rs ++ rest) [] []
     = (1, concat (map (dump_line escape_mode) rs),
        dump_diags escape_mode 0 rs ++
        [short_read (Z.of_nat (length rs) + 1) rest])) /\
  (forall (f out : bytes) (err : list dump_diag),
     dump_file escape_mode f [] [] = (0, out, err) ->
     exists (rs : list record) (rest : bytes),
       f = image (Z.of_nat (length rs)) rs ++ rest /\
       Forall fits rs /\
       out = concat (map (dump_line escape_mode) rs)).
Proof.
  split.
  - intros rs count rest Hrs Hcount Hshort.
    now apply dump_file_truncated.
  - intros f out err H. unfold dump_file, fread in H.
    remember (firstn 8 f) as h eqn:Hh.
    destruct (negb (length h =? 8)%nat) eqn:E1; [discriminate|].
    destruct (memeq h MAGIC 6) eqn:E2; [|discriminate].
    cbn [negb orb] in H.
    apply negb_false_iff, Nat.eqb_eq in E1.
    apply memeq_true in E2 as (E2 & _ & _).
    destruct h as [|c0 [|c1 [|c2 [|c3 [|c4 [|c5 [|lo [|hi [|]]]]]]]]];
      try discriminate.
    cbn in E2. injection E2 as -> -> -> -> -> ->.
    cbn [nth] in H.
    apply dump_loop_success in H as (rs & rest & Hf & Hn & Hrs & ->).
    exists rs, rest. repeat split; auto.
    rewrite <- (firstn_skipn 8 f), <- Hh, Hf. unfold image.
    pose proof (code_range lo). pose proof (code_range hi).
    assert (Hc : Z.of_nat (length rs) = le16 lo hi) by (unfold le16 in *; lia).
    rewrite Hc.
    replace (char_of_int (le16 lo hi)) with lo.
    2:{ unfold le16. rewrite <- (char_of_code lo) at 1. unfold char_of_int.
        rewrite !land_255. do 2 f_equal. Z.div_mod_to_equations. lia. }
    replace (char_of_int (Z.shiftr (le16 lo hi) 8)) with hi.
    2:{ unfold le16. rewrite <- (char_of_code hi) at 1. unfold char_of_int.
        rewrite !land_255, shiftr_8. do 2 f_equal.
        Z.div_mod_to_equations. lia. }
    reflexivity.
Qed.

Lemma truncated_image_fails_witness :
  dump_file ESC_FULL
    (image 2 [(str "a\", str "b")] ++
     ["001"%char] ++ str "c" ++ ["005"%char; NUL] ++ str "xy") [] []
  = (1, concat (map (dump_line ESC_FULL) [(str "a\", str "b")]),
     dump_diags ESC_FULL 0 [(str "a\", str "b")] ++
     [short_read (Z.of_nat (length [(str "a\", str "b")]) + 1)
        (["001"%char] ++ str "c" ++ ["005"%char; NUL] ++ str "xy")]).
Proof.
  apply (proj1 (truncated_image_fails ESC_FULL) [(str "a\", str "b")] 2).
  - repeat constructor; vm_compute; discriminate.
  - split; reflexivity || (vm_compute; discriminate).
  - right. vm_compute. reflexivity.
Defined.

(** ** C7 *)

(** C7, as the claim states it, fails: with two input files of 32768
    lines [a=] each, [nvram_build] writes 65536 records, ends with status
    0 and no diagnostic, and the count it patches into the header is 0:
    the low 16 bits of 65536. *)
Lemma record_count_wraps :
  nvram_build [text_32768; text_32768]
  = Ok (0,
        MAGIC ++ [NUL; NUL] ++
        concat (map written_record (records_32768 ++ records_32768)),
        map written_record (records_32768 ++ records_32768), []) /\
  Z.of_nat (length (map written_record (records_32768 ++ records_32768)))
  = 65536.
Proof.
  assert (L : Z.of_nat (length (records_32768 ++ records_32768)) = 65536).
  { unfold records_32768. rewrite length_app, repeat_length. lia. }
  split.
  - unfold text_32768. rewrite nvram_build_twice.
    + rewrite fixup_header, L. reflexivity.
    + unfold records_32768. apply Forall_forall. intros r Hr.
      apply repeat_spec in Hr as ->. unfold readable. cbn [fst snd].
      split; [discriminate|].
      split; [intros [H|[]]; discriminate|].
      split; [intros [H|[]]; discriminate|].
      split; [vm_compute; discriminate|].
      split; [intros []|].
      split; [discriminate|vm_compute; discriminate].
    + unfold records_32768. rewrite text_of_repeat.
      change (len (text_line ESC_FULL (str "a", []))) with 3.
      unfold BUFFER_MAX. lia.
  - rewrite length_map. exact L.
Qed.

(** C7, amended: [nvram_build] has no too-many-records error.  Whatever
    the input files, it ends (the loop of [build_file] never runs out of
    the iterations the model gives it) with status 0 or 1.  With status 0
    the output file is the magic tag, the two count bytes and the records
    written for all the inputs, and the count, read as an unsigned 16-bit
    little-endian value, is the number of these records modulo 65536,
    hence that number itself when it is at most 65535.  With status 1 the
    count bytes are left at 0. *)
Theorem record_count_patched_modulo (files : list bytes) :
  nvram_build files <> Fault OutOfFuel /\
  (forall (ret : Z) (f : bytes) (recs : list bytes) (d : list build_diag),
     nvram_build files = Ok (ret, f, recs, d) ->
     (ret = 0 \/ ret = 1) /\
     (ret = 0 ->
        exists lo hi,
          f = MAGIC ++ [lo; hi] ++ concat recs /\
          le16 lo hi = Z.of_nat (length recs) mod 65536 /\
          (Z.of_nat (length recs) <= 65535 ->
             le16 lo hi = Z.of_nat (length recs))) /\
     (ret = 1 -> f = MAGIC ++ [NUL; NUL] ++ concat recs)).
Proof.
  destruct files as [|f0 fs].
  { split; [discriminate|]. intros ret f recs d H. discriminate H. }
  rewrite nvram_build_cons.
  remember (f0 :: fs) as files eqn:Ef. clear Ef f0 fs.
  match goal with
  | |- context [main_loop files ?st0] =>
      pose proof (main_loop_fuel files st0) as F;
      pose proof (main_loop_counts files st0) as C;
      destruct (main_loop files st0) as [st|fl]
  end; cbn [bind].
  - split; [discriminate|]. intros ret f recs d H.
    destruct (C st eq_refl eq_refl (or_introl eq_refl)) as [Hc Hr].
    injection H as <- <- <- <-. split; [exact Hr|]. split.
    + intros R. rewrite R. cbn [Z.eqb].
      rewrite (fixup_header (concat (m_records st))), Hc.
      eexists _, _. split; [reflexivity|].
      rewrite le16_char_of_int. split; [reflexivity|].
      intros Hle. apply Z.mod_small. lia.
    + intros R. rewrite R. reflexivity.
  - split; [|discriminate]. intros [= ->]. now apply F.
Qed.

Lemma record_count_patched_modulo_witness :
  exists lo hi,
    MAGIC ++ ["001"%char; NUL] ++
      concat [["001"%char] ++ str "a" ++ ["001"%char; NUL] ++ str "b"]
    = MAGIC ++ [lo; hi] ++
      concat [["001"%char] ++ str "a" ++ ["001"%char; NUL] ++ str "b"] /\
    le16 lo hi
    = Z.of_nat (length [["001"%char] ++ str "a" ++
                        ["001"%char; NUL] ++ str "b"]) mod 65536 /\
    (Z.of_nat (length [["001"%char] ++ str "a" ++
                       ["001"%char; NUL] ++ str "b"]) <= 65535 ->
       le16 lo hi
       = Z.of_nat (length [["001"%char] ++ str "a" ++
                           ["001"%char; NUL] ++ str "b"])).
Proof.
  refine (proj1 (proj2 (proj2 (record_count_patched_modulo
                                 [str "a=b" ++ [NL]])
                          0 _ _ [] _)) eq_refl).
  vm_compute. reflexivity.
Defined.

(** * Further properties of the two programs *)

(** ** The escape engine *)

(** X1: escaping then unescaping gives the string back, in both modes.
    When the destination has room for the whole escaped string,
    [escape_string] consumes all of the source and, whatever follows the
    terminator of the destination, [unescape_string] stores the source
    string and its NUL, returns 0 and reads up to the terminator and no
    further. *)
Theorem escape_then_unescape (escape_mode : Z) (src : bytes) (max : Z)
    (rest : bytes) :
  len (esc escape_mode (cstring src)) < max ->
  exists dest,
    escape_string escape_mode src max = (Z.of_nat (strlen src), dest) /\
    unescape_string (dest ++ NUL :: rest)
    = UReturn 0 (cstring src ++ [NUL]) (length dest + 1).
Proof.
  intros H. exists (esc escape_mode (cstring src)).
  split; [now apply escape_string_all|apply unescape_esc_any].
Qed.

Lemma escape_then_unescape_witness :
  exists dest,
    escape_string ESC_HUMAN
      (str "a\b" ++ [NL; "200"%char; NUL] ++ str "junk") 20
    = (Z.of_nat (strlen (str "a\b" ++ [NL; "200"%char; NUL] ++ str "junk")),
       dest) /\
    unescape_string (dest ++ NUL :: str "more")
    = UReturn 0
        (cstring (str "a\b" ++ [NL; "200"%char; NUL] ++ str "junk") ++ [NUL])
        (length dest + 1).
Proof.
  apply (escape_then_unescape ESC_HUMAN
           (str "a\b" ++ [NL; "200"%char; NUL] ++ str "junk") 20
           (str "more")).
  vm_compute. reflexivity.
Defined.

(** X2: what [escape_string] leaves in the destination is text.  Every
    character of it is a printable ASCII character, except that in human
    mode it may be a newline; it is never a NUL, and outside of human
    mode never a newline, whatever the source and the capacity. *)
Theorem escape_string_printable (escape_mode : Z) (src : bytes) (max : Z)
    (d : ascii) :
  In d (snd (escape_string escape_mode src max)) ->
  (printable d = true \/ (escape_mode = ESC_HUMAN /\ d = NL)) /\
  d <> NUL /\
  (escape_mode <> ESC_HUMAN -> d <> NL).
Proof.
  destruct (escape_string_prefix escape_mode src max) as (k & _ & ->).
  cbn [snd]. intros H. apply in_esc in H as (c & _ & H).
  rewrite escape_char_mode in H.
  destruct (escape_char_printable_check c) as [PF PH].
  rewrite forallb_forall in PF, PH.
  destruct (Z.eqb_spec escape_mode ESC_HUMAN) as [E|Hm].
  - specialize (PH d H). apply orb_true_iff in PH as [P|P].
    + repeat split; [now left| |congruence].
      intros ->. discriminate P.
    + apply Ascii.eqb_eq in P. subst d.
      repeat split; [now right|discriminate|congruence].
  - specialize (PF d H).
    repeat split; [now left|intros ->|intros _ ->]; discriminate PF.
Qed.

Lemma escape_string_printable_witness :
  (printable "n" = true \/ (ESC_FULL = ESC_HUMAN /\ "n"%char = NL)) /\
  "n"%char <> NUL /\
  (ESC_FULL <> ESC_HUMAN -> "n"%char <> NL).
Proof.
  apply (escape_string_printable ESC_FULL (str "a" ++ [NL; NUL]) 10 "n").
  vm_compute. auto.
Defined.

(** X3: a string made of plain characters only (printable ASCII other
    than the backslash) is its own escaped form, and any other string
    grows; the escaped form is never shorter than the string and at most
    four times as long. *)
Theorem esc_length (escape_mode : Z) (x : bytes) :
  len x <= len (esc escape_mode x) <= 4 * len x /\
  (forallb plain x = true -> esc escape_mode x = x) /\
  (forallb plain x = false -> len x < len (esc escape_mode x)).
Proof.
  split; [apply esc_length_bounds|].
  split; [apply esc_plain|apply esc_not_plain].
Qed.

Lemma esc_length_witness :
  len (str "wl_ssid") <= len (esc ESC_FULL (str "wl_ssid"))
    <= 4 * len (str "wl_ssid") /\
  esc ESC_FULL (str "wl_ssid") = str "wl_ssid" /\
  len (str "a\b") < len (esc ESC_FULL (str "a\b")).
Proof.
  split; [apply (esc_length ESC_FULL (str "wl_ssid"))|].
  split.
  - apply (proj1 (proj2 (esc_length ESC_FULL (str "wl_ssid")))). reflexivity.
  - apply (proj2 (proj2 (esc_length ESC_FULL (str "a\b")))). reflexivity.
Defined.

(** ** [dump_file]: the line of a record *)

(** X4: names of at most 128 bytes and values of at most 32768 bytes
    are never cut by [dump_file], whatever bytes they hold: the line
    printed is the whole name escaped in full mode, an equals sign, the
    whole value escaped in the mode asked for and a newline, and neither
    of the two cut diagnostics is given. *)
Theorem short_fields_never_cut (escape_mode k : Z) (name value : bytes) :
  Z.of_nat (strlen name) <= 128 ->
  Z.of_nat (strlen value) <= 32768 ->
  fst (print_record escape_mode k name value)
  = esc ESC_FULL (cstring name) ++ [EQS] ++
    esc escape_mode (cstring value) ++ [NL] /\
  ~ In (DumpNameCut k) (snd (print_record escape_mode k name value)) /\
  ~ In (DumpValueCut k) (snd (print_record escape_mode k name value)).
Proof.
  intros Hn Hv. unfold print_record, strlen in *.
  pose proof (esc_length_bounds ESC_FULL (cstring name)) as Bn.
  pose proof (esc_length_bounds escape_mode (cstring value)) as Bv.
  unfold len in Bn, Bv.
  rewrite (escape_string_all ESC_FULL name 513) by (unfold len; lia).
  rewrite (escape_string_all escape_mode value (65536 * 2 + 1))
    by (unfold len; lia).
  unfold strlen. rewrite !Z.ltb_irrefl. cbn [fst snd].
  split; [reflexivity|].
  destruct (_ <? _)%nat; cbn [app In]; split; intros H;
    repeat (destruct H as [H|H]; try discriminate H); exact H.
Qed.

Lemma short_fields_never_cut_witness :
  fst (print_record ESC_HUMAN 1 (str "k" ++ [NUL])
         (str "a" ++ [NL; "200"%char; NUL]))
  = esc ESC_FULL (cstring (str "k" ++ [NUL])) ++ [EQS] ++
    esc ESC_HUMAN (cstring (str "a" ++ [NL; "200"%char; NUL])) ++ [NL] /\
  ~ In (DumpNameCut 1)
       (snd (print_record ESC_HUMAN 1 (str "k" ++ [NUL])
               (str "a" ++ [NL; "200"%char; NUL]))) /\
  ~ In (DumpValueCut 1)
       (snd (print_record ESC_HUMAN 1 (str "k" ++ [NUL])
               (str "a" ++ [NL; "200"%char; NUL]))).
Proof.
  apply (short_fields_never_cut ESC_HUMAN 1 (str "k" ++ [NUL])
           (str "a" ++ [NL; "200"%char; NUL]));
    vm_compute; discriminate.
Defined.

(** X5: [dump_file] cuts a name exactly when its escaped form is longer
    than 512 characters, and for a name that is not cut it gives the
    diagnostic about non-printable characters exactly when the name
    holds a character that is not plain, that is a control character, a
    backslash or a byte above 127. *)
Theorem name_warning_iff_not_plain (escape_mode k : Z) (name value : bytes) :
  (In (DumpNameCut k) (snd (print_record escape_mode k name value))
   <-> 512 < len (esc ESC_FULL (cstring name))) /\
  (~ In (DumpNameCut k) (snd (print_record escape_mode k name value)) ->
   (In (DumpNameNonPrintable k)
       (snd (print_record escape_mode k name value))
    <-> forallb plain (cstring name) = false)).
Proof.
  destruct (print_record_diags escape_mode k name value) as (d2 & -> & D2).
  assert (V : ~ In (DumpNameCut k) d2 /\ ~ In (DumpNameNonPrintable k) d2).
  { destruct D2 as [-> | ->]; cbn [In]; split; intros H;
      repeat (destruct H as [H|H]; try discriminate H); contradiction. }
  destruct V as [V1 V2].
  destruct (512 <? len (esc ESC_FULL (cstring name))) eqn:E.
  - apply Z.ltb_lt in E. split.
    + split; [intros _; exact E|]. intros _. now left.
    + intros H. exfalso. apply H. now left.
  - apply Z.ltb_ge in E. split.
    + split; [|lia]. intros H. apply in_app_or in H as [H|H]; [|tauto].
      destruct (forallb plain (cstring name)); cbn [In] in H;
        repeat (destruct H as [H|H]; try discriminate H); contradiction.
    + intros _. destruct (forallb plain (cstring name)) eqn:P.
      * split; [|discriminate]. intros H.
        apply in_app_or in H as [[]|H]. tauto.
      * split; [reflexivity|]. intros _. now left.
Qed.

Lemma name_warning_iff_not_plain_witness :
  In (DumpNameNonPrintable 3)
     (snd (print_record ESC_FULL 3
             (repeat "a"%char 200 ++ [BSL; NUL]) (str "v" ++ [NUL])))
  <-> forallb plain (cstring (repeat "a"%char 200 ++ [BSL; NUL])) = false.
Proof.
  apply (proj2 (name_warning_iff_not_plain ESC_FULL 3
                  (repeat "a"%char 200 ++ [BSL; NUL]) (str "v" ++ [NUL]))).
  vm_compute. intros H.
  repeat (destruct H as [H|H]; try discriminate H). contradiction.
Defined.

(** ** [dump_file] and [main] of nvram_dump *)

(** X6: in full mode every record occupies one and only one line.
    Whatever the input file, what [dump_file] prints is the concatenation
    of the lines of the records [rs] it has read from behind the header,
    each line being a text without a newline followed by one newline; so
    [stdout] holds exactly as many newlines as records were read. *)
Theorem full_mode_one_line_per_record (f : bytes) :
  exists rs : list record,
    snd (fst (dump_file ESC_FULL f [] []))
    = concat (map (dump_line ESC_FULL) rs) /\
    (rs <> [] ->
     exists rest, skipn 8 f = concat (map record_bytes rs) ++ rest) /\
    Forall (fun r => exists body,
              dump_line ESC_FULL r = body ++ [NL] /\ ~ In NL body) rs /\
    count_occ ascii_dec (snd (fst (dump_file ESC_FULL f [] []))) NL
    = length rs.
Proof.
  destruct (dump_file_lines ESC_FULL f [] []) as (s & rs & ds & E & _ & _ & H).
  exists rs. rewrite E. cbn [fst snd app].
  split; [reflexivity|]. split; [exact H|]. split.
  - apply Forall_forall. intros r _. apply dump_line_shape.
  - apply count_newlines.
Qed.

(** X7: with at least one file argument, [main] of nvram_dump goes
    through all its files even when one fails.  [stdout] and [stderr]
    are the concatenation, in order, of what [dump_file] gives for each
    file alone, and the exit code is 0 when every file is dumped with
    status 0 and 1 otherwise. *)
Theorem nvram_dump_files (escape : Z) (files : list bytes) :
  files <> [] ->
  nvram_dump escape files
  = (if forallb (fun f => fst (fst (dump_file escape f [] [])) =? 0) files
     then 0 else 1,
     concat (map (fun f => snd (fst (dump_file escape f [] []))) files),
     concat (map (fun f => snd (dump_file escape f [] [])) files)).
Proof.
  destruct files as [|f0 fs]; [congruence|]. intros _.
  rewrite nvram_dump_cons, dump_files_spec. reflexivity.
Qed.

Lemma nvram_dump_files_witness :
  nvram_dump ESC_FULL [image_cut; image 1 [(str "c", str "d")]]
  = (if forallb (fun f => fst (fst (dump_file ESC_FULL f [] [])) =? 0)
          [image_cut; image 1 [(str "c", str "d")]]
     then 0 else 1,
     concat (map (fun f => snd (fst (dump_file ESC_FULL f [] [])))
               [image_cut; image 1 [(str "c", str "d")]]),
     concat (map (fun f => snd (dump_file ESC_FULL f [] []))
               [image_cut; image 1 [(str "c", str "d")]])).
Proof.
  apply (nvram_dump_files ESC_FULL
           [image_cut; image 1 [(str "c", str "d")]]).
  discriminate.
Defined.

(** ** [build_file] and [main] of nvram_build *)




(** X10: what nvram_build writes, nvram_dump reads.  When [main] of
    nvram_build ends with status 0 having written at most 65535 records,
    whatever the input files held, the output file is a well-formed
    image: the magic tag, the number of records, and that many records
    whose fields have the lengths their length bytes declare.
    [dump_file] reads all of them and returns 0, in either mode. *)
Theorem built_image_is_dumped (escape_mode : Z) (files : list bytes)
    (f : bytes) (recs : list bytes) (d : list build_diag) :
  nvram_build files = Ok (0, f, recs, d) ->
  Z.of_nat (length recs) <= 65535 ->
  exists rs : list record,
    Forall fits rs /\
    recs = map record_bytes rs /\
    f = image (Z.of_nat (length rs)) rs /\
    read_image f = Some rs /\
    exists ds,
      dump_file escape_mode f [] []
      = (0, concat (map (dump_line escape_mode) rs), ds).
Proof.
  destruct files as [|f0 fs]; [discriminate|].
  rewrite nvram_build_cons.
  remember (f0 :: fs) as files eqn:Ef. clear Ef f0 fs.
  match goal with
  | |- context [main_loop files ?st0] =>
      pose proof (main_loop_counts files st0) as C;
      pose proof (main_loop_well_formed files st0) as W;
      destruct (main_loop files st0) as [st|fl]
  end; cbn [bind]; [|discriminate].
  intros H Hle.
  destruct (C st eq_refl eq_refl (or_introl eq_refl)) as [Hc _].
  specialize (W st eq_refl (Forall_nil _)).
  injection H as R <- <- <-. rewrite R in *. cbn [Z.eqb].
  destruct (well_formed_records _ W) as (rs & Hrs & E).
  exists rs. rewrite E, length_map in *.
  rewrite (fixup_header (concat (map record_bytes rs))), Hc.
  split; [exact Hrs|]. split; [reflexivity|]. split; [reflexivity|].
  fold (image (Z.of_nat (length rs)) rs).
  destruct (dump_image escape_mode rs [] [] [] Hrs Hle) as [Hread [ds Hd]].
  rewrite app_nil_r in Hread, Hd.
  split; [exact Hread|]. exists ds. exact Hd.
Qed.

Lemma built_image_is_dumped_witness :
  exists rs : list record,
    Forall fits rs /\
    [["003"%char] ++ str "abc" ++ ["002"%char; NUL] ++ str "y" ++ [NL]]
    = map record_bytes rs /\
    MAGIC ++ ["001"%char; NUL] ++
      ["003"%char] ++ str "abc" ++ ["002"%char; NUL] ++ str "y" ++ [NL]
    = image (Z.of_nat (length rs)) rs /\
    read_image (MAGIC ++ ["001"%char; NUL] ++
                ["003"%char] ++ str "abc" ++ ["002"%char; NUL] ++ str "y" ++ [NL])
    = Some rs /\
    exists ds,
      dump_file ESC_HUMAN
        (MAGIC ++ ["001"%char; NUL] ++
         ["003"%char] ++ str "abc" ++ ["002"%char; NUL] ++ str "y" ++ [NL]) [] []
      = (0, concat (map (dump_line ESC_HUMAN) rs), ds).
Proof.
  apply (built_image_is_dumped ESC_HUMAN
           [str "abc" ++ [NL] ++ str "x=y" ++ [NL]] _ _
           [BuildMissingEquals; BuildMissingEquals]).
  - vm_compute. reflexivity.
  - vm_compute. discriminate.
Defined.

(** ** [build_file]: the lines of a text *)

(** X11: a line with an empty name is skipped and the conversion goes
    on.  In a text made of the full-mode lines of the records [rs1], a
    line that starts with an equals sign, and the full-mode lines of the
    records [rs2], [nvram_build] reports the empty name once, writes the
    records of the other lines in their order, patches their count and
    ends with status 0. *)
Theorem empty_name_line_is_skipped (rs1 rs2 : list record) (y : bytes) :
  Forall readable rs1 -> Forall readable rs2 ->
  ~ In NL y -> ~ In NUL y -> last y NUL <> BSL ->
  len (text_of ESC_FULL rs1 ++ (EQS :: y ++ [NL]) ++ text_of ESC_FULL rs2)
    <= BUFFER_MAX ->
  nvram_build
    [text_of ESC_FULL rs1 ++ (EQS :: y ++ [NL]) ++ text_of ESC_FULL rs2]
  = Ok (0, serialize (rs1 ++ rs2), map written_record (rs1 ++ rs2),
        [BuildEmptyName]).
Proof.
  apply nvram_build_empty_name.
Qed.

Lemma empty_name_line_is_skipped_witness :
  nvram_build
    [text_of ESC_FULL [(str "a", str "b")] ++ (EQS :: str "x=\q" ++ [NL]) ++
     text_of ESC_FULL [(str "c", str "d")]]
  = Ok (0, serialize ([(str "a", str "b")] ++ [(str "c", str "d")]),
        map written_record ([(str "a", str "b")] ++ [(str "c", str "d")]),
        [BuildEmptyName]).
Proof.
  apply (empty_name_line_is_skipped [(str "a", str "b")]
           [(str "c", str "d")] (str "x=\q")).
  - repeat constructor; try discriminate; try (vm_compute; discriminate);
      cbn; intuition discriminate.
  - repeat constructor; try discriminate; try (vm_compute; discriminate);
      cbn; intuition discriminate.
  - cbn. intuition discriminate.
  - cbn. intuition discriminate.
  - cbn. discriminate.
  - vm_compute. discriminate.
Defined.

(** X12: a record with an empty name does not survive a dump and a
    build.  The image format allows it and [nvram_dump] prints it as a
    line that starts with the equals sign; [nvram_build] skips that line
    with the empty-name diagnostic, so the image it builds from the dump
    holds the other records only, with their count. *)
Theorem nameless_record_is_lost (rs1 rs2 : list record) (v : bytes) :
  Forall round_trips rs1 -> Forall round_trips rs2 ->
  ~ In NUL v -> last v NUL <> BSL -> len v <= 65535 ->
  Z.of_nat (length (rs1 ++ ([], v) :: rs2)) <= 65535 ->
  len (text_of ESC_FULL (rs1 ++ ([], v) :: rs2)) <= BUFFER_MAX ->
  exists text ds,
    nvram_dump ESC_FULL
      [image (Z.of_nat (length (rs1 ++ ([], v) :: rs2)))
         (rs1 ++ ([], v) :: rs2)]
    = (0, text, ds) /\
    nvram_build [text]
    = Ok (0, serialize (rs1 ++ rs2), map written_record (rs1 ++ rs2),
          [BuildEmptyName]).
Proof.
  intros H1 H2 Hv0 Hvl Lv Hcount Hlen.
  assert (Hfits : Forall fits (rs1 ++ ([], v) :: rs2)).
  { apply Forall_app. split.
    - eapply Forall_impl; [apply round_trips_fits|exact H1].
    - constructor.
      + unfold fits. cbn [fst snd]. change (len []) with 0. lia.
      + eapply Forall_impl; [apply round_trips_fits|exact H2]. }
  assert (Hd : Forall (fun r => ~ In NUL (fst r) /\ ~ In NUL (snd r) /\
                                len (esc ESC_FULL (fst r)) <= 512)
                 (rs1 ++ ([], v) :: rs2)).
  { apply Forall_app. split; [|constructor].
    - eapply Forall_impl; [|exact H1]. unfold round_trips. tauto.
    - cbn [fst snd]. repeat split; auto. cbn. lia.
    - eapply Forall_impl; [|exact H2]. unfold round_trips. tauto. }
  destruct (dump_image ESC_FULL _ [] [] [] Hfits Hcount) as [_ [ds Ed]].
  rewrite app_nil_r in Ed. cbn [app] in Ed.
  rewrite dump_lines_text_any in Ed by assumption.
  exists (text_of ESC_FULL (rs1 ++ ([], v) :: rs2)), ds.
  split; [now apply nvram_dump_one|].
  rewrite text_of_app, text_of_cons in *.
  change (text_line ESC_FULL ([], v))
    with (EQS :: esc ESC_FULL v ++ [NL]) in *.
  apply nvram_build_empty_name.
  - eapply Forall_impl; [apply round_trips_readable|exact H1].
  - eapply Forall_impl; [apply round_trips_readable|exact H2].
  - apply esc_no_nl.
  - apply esc_no_nul.
  - now apply esc_last.
  - exact Hlen.
Qed.

Lemma nameless_record_is_lost_witness :
  exists text ds,
    nvram_dump ESC_FULL
      [image (Z.of_nat (length ([(str "a", str "b")] ++
                                ([], str "v") :: [(str "c", str "d")])))
         ([(str "a", str "b")] ++ ([], str "v") :: [(str "c", str "d")])]
    = (0, text, ds) /\
    nvram_build [text]
    = Ok (0, serialize ([(str "a", str "b")] ++ [(str "c", str "d")]),
          map written_record ([(str "a", str "b")] ++ [(str "c", str "d")]),
          [BuildEmptyName]).
Proof.
  apply (nameless_record_is_lost [(str "a", str "b")] [(str "c", str "d")]
           (str "v")).
  - repeat constructor; try discriminate; try (vm_compute; discriminate);
      cbn; intuition discriminate.
  - repeat constructor; try discriminate; try (vm_compute; discriminate);
      cbn; intuition discriminate.
  - cbn. intuition discriminate.
  - cbn. discriminate.
  - vm_compute. discriminate.
  - vm_compute. discriminate.
  - vm_compute. discriminate.
Defined.

(** X13: lines without an equals sign at the end of a text are reported
    one by one.  When the full-mode lines of the records [rs] are
    followed by lines none of which holds an equals sign, [nvram_build]
    writes the records of [rs], reports the missing equals sign once
    for every one of the following lines, and ends with status 0. *)
Theorem missing_equals_at_the_end (rs : list record) (ls : list bytes) :
  Forall readable rs -> Forall no_equals ls ->
  len (text_of ESC_FULL rs ++ lines ls) <= BUFFER_MAX ->
  nvram_build [text_of ESC_FULL rs ++ lines ls]
  = Ok (0, serialize rs, map written_record rs,
        repeat BuildMissingEquals (length ls)).
Proof.
  apply nvram_build_missing_equals.
Qed.

Lemma missing_equals_at_the_end_witness :
  nvram_build [text_of ESC_FULL [(str "a", str "b")] ++
               lines [str "junk"; []; str "more"]]
  = Ok (0, serialize [(str "a", str "b")],
        map written_record [(str "a", str "b")],
        repeat BuildMissingEquals (length [str "junk"; []; str "more"])).
Proof.
  apply (missing_equals_at_the_end [(str "a", str "b")]
           [str "junk"; []; str "more"]).
  - repeat constructor; try discriminate; try (vm_compute; discriminate);
      cbn; intuition discriminate.
  - repeat constructor; try discriminate; cbn; intuition discriminate.
  - vm_compute. discriminate.
Defined.

(** X14: a last line without a newline is a record like the others.
    When the text ends, behind the full-mode lines of the records [rs],
    with the name, the equals sign and the value of one more record and
    no newline, [nvram_build] writes that record after those of [rs],
    without a diagnostic. *)
Theorem last_line_without_newline (rs : list record) (r : record) :
  Forall readable rs -> readable r ->
  len (text_of ESC_FULL rs ++
       esc ESC_FULL (fst r) ++ [EQS] ++ esc ESC_FULL (snd r)) <= BUFFER_MAX ->
  nvram_build
    [text_of ESC_FULL rs ++
     esc ESC_FULL (fst r) ++ [EQS] ++ esc ESC_FULL (snd r)]
  = Ok (0, serialize (rs ++ [r]), map written_record (rs ++ [r]), []).
Proof.
  apply nvram_build_last_line.
Qed.

Lemma last_line_without_newline_witness :
  nvram_build
    [text_of ESC_FULL [(str "a", str "b")] ++
     esc ESC_FULL (fst (str "c", str "d" ++ [NL])) ++ [EQS] ++
     esc ESC_FULL (snd (str "c", str "d" ++ [NL]))]
  = Ok (0, serialize ([(str "a", str "b")] ++ [(str "c", str "d" ++ [NL])]),
        map written_record
          ([(str "a", str "b")] ++ [(str "c", str "d" ++ [NL])]), []).
Proof.
  apply (last_line_without_newline [(str "a", str "b")]
           (str "c", str "d" ++ [NL])).
  - repeat constructor; try discriminate; try (vm_compute; discriminate);
      cbn; intuition discriminate.
  - repeat split; try discriminate; try (vm_compute; discriminate);
      cbn; intuition discriminate.
  - vm_compute. discriminate.
Defined.

(** X15: an equals sign in a name moves to the value.  [escape_string]
    leaves the equals sign as it is, so the full-mode line of the record
    of name [n1=n2] and value [v] is also the line of the record of name
    [n1] and value [n2=v]; when [n1] holds no equals sign, it is the
    latter that [nvram_build] writes for that line. *)
Theorem equals_sign_in_name (rs1 rs2 : list record) (n1 n2 v : bytes) :
  text_of ESC_FULL (rs1 ++ (n1 ++ EQS :: n2, v) :: rs2)
  = text_of ESC_FULL (rs1 ++ (n1, n2 ++ EQS :: v) :: rs2) /\
  (Forall readable (rs1 ++ (n1, n2 ++ EQS :: v) :: rs2) ->
   len (text_of ESC_FULL (rs1 ++ (n1 ++ EQS :: n2, v) :: rs2))
     <= BUFFER_MAX ->
   nvram_build [text_of ESC_FULL (rs1 ++ (n1 ++ EQS :: n2, v) :: rs2)]
   = Ok (0, serialize (rs1 ++ (n1, n2 ++ EQS :: v) :: rs2),
         map written_record (rs1 ++ (n1, n2 ++ EQS :: v) :: rs2), [])).
Proof.
  assert (E : text_of ESC_FULL (rs1 ++ (n1 ++ EQS :: n2, v) :: rs2)
              = text_of ESC_FULL (rs1 ++ (n1, n2 ++ EQS :: v) :: rs2)).
  { rewrite !text_of_app, !text_of_cons.
    now rewrite text_line_equals_in_name. }
  split; [exact E|]. rewrite E. intros Hrs Hlen.
  now apply nvram_build_text.
Qed.

Lemma equals_sign_in_name_witness :
  nvram_build [text_of ESC_FULL ([] ++ (str "a" ++ EQS :: str "b", str "c")
                                 :: [(str "k", str "v")])]
  = Ok (0, serialize ([] ++ (str "a", str "b" ++ EQS :: str "c")
                      :: [(str "k", str "v")]),
        map written_record ([] ++ (str "a", str "b" ++ EQS :: str "c")
                            :: [(str "k", str "v")]), []).
Proof.
  apply (proj2 (equals_sign_in_name [] [(str "k", str "v")]
                  (str "a") (str "b") (str "c"))).
  - repeat constructor; try discriminate; try (vm_compute; discriminate);
      cbn; intuition discriminate.
  - vm_compute. discriminate.
Defined.

(** X16: the round trip through the human-readable text.  For every
    sequence of at most 65535 records whose names are not empty, hold no
    NUL and no equals sign, are at most 255 bytes long and at most 512
    characters once escaped, whose values hold no NUL, do not end in a
    backslash and are at most 65535 bytes long, and whose human-mode text
    is at most 128K long: [nvram_dump] in human mode prints that text with
    status 0; the first loop of [build_file] turns every backslash and
    newline pair of it into the escape of a newline, which gives the
    full-mode text, of the same length; and [nvram_build] makes from the
    human-mode text the image the records came from, byte for byte and
    without a diagnostic, the same result as from the full-mode text. *)
Theorem human_text_round_trip (rs : list record) :
  Forall round_trips rs ->
  Z.of_nat (length rs) <= 65535 ->
  len (text_of ESC_HUMAN rs) <= BUFFER_MAX ->
  (exists diags,
     nvram_dump ESC_HUMAN [serialize rs]
     = (0, text_of ESC_HUMAN rs, diags)) /\
  join_from NUL (text_of ESC_HUMAN rs) = text_of ESC_FULL rs /\
  nvram_build [text_of ESC_HUMAN rs]
    = Ok (0, serialize rs, map written_record rs, []) /\
  nvram_build [text_of ESC_HUMAN rs] = nvram_build [text_of ESC_FULL rs].
Proof.
  intros Hrs Hcount Hlen.
  assert (Hfits : Forall fits rs)
    by (eapply Forall_impl; [apply round_trips_fits|exact Hrs]).
  assert (Hread : Forall readable rs)
    by (eapply Forall_impl; [apply round_trips_readable|exact Hrs]).
  assert (Hfull : len (text_of ESC_FULL rs) <= BUFFER_MAX)
    by (unfold len in *; now rewrite <- text_of_length_human).
  split; [|split; [|split]].
  - rewrite (serialize_image rs Hrs).
    destruct (dump_image ESC_HUMAN rs [] [] [] Hfits Hcount)
      as [_ [ds Hd]].
    rewrite app_nil_r in Hd. exists ds. apply nvram_dump_one.
    rewrite Hd. cbn [app]. rewrite dump_lines_text_mode; [reflexivity| |exact Hlen].
    eapply Forall_impl; [|exact Hrs].
    intros r (_ & Hn & _ & _ & Ln & Hv & _). auto.
  - now apply join_from_text.
  - now apply nvram_build_human_text.
  - now rewrite nvram_build_human_text, nvram_build_text.
Qed.

Lemma human_text_round_trip_witness :
  let rs := [(str "wl_ssid", str "My\Net" ++ ["001"%char]);
             (str "k", str "line1" ++ [NL] ++ str "line2" ++ [NL; NL] ++
                       str "x")] in
  (exists diags,
     nvram_dump ESC_HUMAN [serialize rs]
     = (0, text_of ESC_HUMAN rs, diags)) /\
  join_from NUL (text_of ESC_HUMAN rs) = text_of ESC_FULL rs /\
  nvram_build [text_of ESC_HUMAN rs]
    = Ok (0, serialize rs, map written_record rs, []) /\
  nvram_build [text_of ESC_HUMAN rs] = nvram_build [text_of ESC_FULL rs].
Proof.
  apply (human_text_round_trip
           [(str "wl_ssid", str "My\Net" ++ ["001"%char]);
            (str "k", str "line1" ++ [NL] ++ str "line2" ++ [NL; NL] ++
                      str "x")]).
  - repeat constructor; cbn; try discriminate; intuition discriminate.
  - cbn. lia.
  - vm_compute. discriminate.
Defined.

(** X17: [unescape_string] never stores more bytes than it has read.
    Whenever it returns, the value returned is 0 or 1, the number of
    bytes stored through [dest] is at most the number of bytes of [src]
    it has looked at, which is at least one and lies within the memory
    given; and when it returns 0 the last byte stored is the
    terminating NUL. *)
Theorem unescape_stores_at_most_what_it_reads (src : bytes) (sts : Z)
    (dest : bytes) (nread : nat) :
  unescape_string src = UReturn sts dest nread ->
  (sts = 0 \/ sts = 1) /\
  (length dest <= nread <= length src)%nat /\
  (sts = 0 -> exists d, dest = d ++ [NUL]).
Proof.
  apply (unescape_string_bounds (length src)). lia.
Qed.

Lemma unescape_stores_at_most_what_it_reads_witness :
  (0 = 0 \/ 0 = 1) /\
  (length (str "aA" ++ [NL; NUL]) <= 8
   <= length (str "a\x41\n" ++ [NUL] ++ str "left"))%nat /\
  (0 = 0 -> exists d, str "aA" ++ [NL; NUL] = d ++ [NUL]).
Proof.
  apply (unescape_stores_at_most_what_it_reads
           (str "a\x41\n" ++ [NUL] ++ str "left") 0
           (str "aA" ++ [NL; NUL]) 8).
  vm_compute. reflexivity.
Defined.

(** X18: [build_file] does not bound what it unescapes into [r_name] and
    [r_value].  A line whose name unescapes to more than 256 bytes, or
    whose value unescapes to more than 65536 bytes, is neither rejected
    nor cut: [unescape_string] stores the bytes and the terminating NUL
    past the end of [r_name] (257 bytes) or, when the name fits, past the
    end of [r_value] (65537 bytes), which C leaves undefined. *)
Theorem long_field_overruns_buffer (rs1 rs2 : list record) (n v : bytes) :
  Forall readable rs1 -> Forall readable rs2 ->
  n <> [] -> ~ In NUL n -> ~ In EQS n ->
  ~ In NUL v -> last v NUL <> BSL ->
  256 < len n \/ 65536 < len v ->
  len (text_of ESC_FULL rs1 ++ text_line ESC_FULL (n, v) ++
       text_of ESC_FULL rs2) <= BUFFER_MAX ->
  nvram_build
    [text_of ESC_FULL rs1 ++ text_line ESC_FULL (n, v) ++
     text_of ESC_FULL rs2]
  = Fault (if 256 <? len n then OverrunName else OverrunValue).
Proof.
  apply nvram_build_long_field.
Qed.

Lemma long_field_overruns_buffer_witness :
  nvram_build
    [text_of ESC_FULL [(str "a", str "b")] ++
     text_line ESC_FULL (repeat "n"%char 257, str "v") ++
     text_of ESC_FULL []]
  = Fault OverrunName.
Proof.
  apply (long_field_overruns_buffer [(str "a", str "b")] []
           (repeat "n"%char 257) (str "v")).
  - repeat constructor; try discriminate; try (vm_compute; discriminate);
      cbn; intuition discriminate.
  - constructor.
  - discriminate.
  - intros H. apply repeat_spec in H. discriminate.
  - intros H. apply repeat_spec in H. discriminate.
  - cbn. intuition discriminate.
  - cbn. discriminate.
  - left. vm_compute. reflexivity.
  - vm_compute. discriminate.
Defined.

(** X19: a value with a bad [\x] escape.  In a text made of the
    full-mode lines of the records [rs1], a line whose value holds [\x]
    followed by two characters that [unescape_string] does not accept,
    and the full-mode lines of the records [rs2], [build_file] reports
    the problem unescaping the value once and writes no record for that
    line; [nvram_build] writes the records of the other lines in their
    order, patches their count and ends with status 0. *)
Theorem bad_value_line_is_skipped (rs1 rs2 : list record) (n v1 y2 : bytes)
    (a b : ascii) :
  Forall readable rs1 -> Forall readable rs2 ->
  n <> [] -> ~ In NUL n -> ~ In EQS n -> len n <= 256 ->
  ~ In NUL v1 -> len v1 <= 65536 ->
  accepted_hex a b = false ->
  ~ In NUL (a :: b :: y2) -> ~ In NL (a :: b :: y2) ->
  last (b :: y2) NUL <> BSL ->
  len (text_of ESC_FULL rs1 ++
       ((esc ESC_FULL n ++ [EQS] ++
         esc ESC_FULL v1 ++ BSL :: "x"%char :: a :: b :: y2) ++ [NL]) ++
       text_of ESC_FULL rs2) <= BUFFER_MAX ->
  nvram_build
    [text_of ESC_FULL rs1 ++
     ((esc ESC_FULL n ++ [EQS] ++
       esc ESC_FULL v1 ++ BSL :: "x"%char :: a :: b :: y2) ++ [NL]) ++
     text_of ESC_FULL rs2]
  = Ok (0, serialize (rs1 ++ rs2), map written_record (rs1 ++ rs2),
        [BuildBadValue]).
Proof.
  apply nvram_build_bad_value.
Qed.

Lemma bad_value_line_is_skipped_witness :
  nvram_build
    [text_of ESC_FULL [(str "a", str "b")] ++
     ((esc ESC_FULL (str "k") ++ [EQS] ++
       esc ESC_FULL (str "ab") ++
       BSL :: "x"%char :: "z"%char :: "9"%char :: str "q") ++ [NL]) ++
     text_of ESC_FULL [(str "c", str "d")]]
  = Ok (0, serialize ([(str "a", str "b")] ++ [(str "c", str "d")]),
        map written_record ([(str "a", str "b")] ++ [(str "c", str "d")]),
        [BuildBadValue]).
Proof.
  apply (bad_value_line_is_skipped [(str "a", str "b")]
           [(str "c", str "d")] (str "k") (str "ab") (str "q")
           "z"%char "9"%char).
  - repeat constructor; try discriminate; try (vm_compute; discriminate);
      cbn; intuition discriminate.
  - repeat constructor; try discriminate; try (vm_compute; discriminate);
      cbn; intuition discriminate.
  - discriminate.
  - cbn. intuition discriminate.
  - cbn. intuition discriminate.
  - vm_compute. discriminate.
  - cbn. intuition discriminate.
  - vm_compute. discriminate.
  - vm_compute. reflexivity.
  - cbn. intuition discriminate.
  - cbn. intuition discriminate.
  - cbn. discriminate.
  - vm_compute. discriminate.
Defined.

(** X20: a name with a bad [\x] escape.  A line whose name holds [\x]
    followed by two characters that [unescape_string] does not accept is
    reported once as a problem unescaping the name; its value is not
    looked at and no record is written for it.
    [nvram_build] writes the records of the lines before and after it,
    patches their count and ends with status 0. *)
Theorem bad_name_line_is_skipped (rs1 rs2 : list record) (n1 x2 y : bytes)
    (a b : ascii) :
  Forall readable rs1 -> Forall readable rs2 ->
  ~ In NUL n1 -> ~ In EQS n1 -> len n1 <= 257 ->
  accepted_hex a b = false ->
  ~ In NUL (a :: b :: x2) -> ~ In NL (a :: b :: x2) ->
  ~ In EQS (a :: b :: x2) ->
  ~ In NUL y -> ~ In NL y -> last y EQS <> BSL ->
  len (text_of ESC_FULL rs1 ++
       (((esc ESC_FULL n1 ++ BSL :: "x"%char :: a :: b :: x2) ++ [EQS] ++ y)
        ++ [NL]) ++
       text_of ESC_FULL rs2) <= BUFFER_MAX ->
  nvram_build
    [text_of ESC_FULL rs1 ++
     (((esc ESC_FULL n1 ++ BSL :: "x"%char :: a :: b :: x2) ++ [EQS] ++ y)
      ++ [NL]) ++
     text_of ESC_FULL rs2]
  = Ok (0, serialize (rs1 ++ rs2), map written_record (rs1 ++ rs2),
        [BuildBadName]).
Proof.
  apply nvram_build_bad_name.
Qed.

Lemma bad_name_line_is_skipped_witness :
  nvram_build
    [text_of ESC_FULL [(str "a", str "b")] ++
     (((esc ESC_FULL (str "na") ++
        BSL :: "x"%char :: "g"%char :: "1"%char :: str "me") ++
       [EQS] ++ str "v\x4") ++ [NL]) ++
     text_of ESC_FULL [(str "c", str "d")]]
  = Ok (0, serialize ([(str "a", str "b")] ++ [(str "c", str "d")]),
        map written_record ([(str "a", str "b")] ++ [(str "c", str "d")]),
        [BuildBadName]).
Proof.
  apply (bad_name_line_is_skipped [(str "a", str "b")]
           [(str "c", str "d")] (str "na") (str "me") (str "v\x4")
           "g"%char "1"%char).
  - repeat constructor; try discriminate; try (vm_compute; discriminate);
      cbn; intuition discriminate.
  - repeat constructor; try discriminate; try (vm_compute; discriminate);
      cbn; intuition discriminate.
  - cbn. intuition discriminate.
  - cbn. intuition discriminate.
  - vm_compute. discriminate.
  - vm_compute. reflexivity.
  - cbn. intuition discriminate.
  - cbn. intuition discriminate.
  - cbn. intuition discriminate.
  - cbn. intuition discriminate.
  - cbn. intuition discriminate.
  - cbn. discriminate.
  - vm_compute. discriminate.
Defined.

(** X21: the static buffer of [build_file] keeps the previous file.
    [build_file] ends the bytes it has read with a NUL only at offset
    128K, so a second input file that is shorter than the first is
    followed in [buffer] by what the first has left there.  When the
    first file is the full-mode text of records whose first is [n1] with
    the value [va ++ vb], and the second file is the line [n2=v2]
    without a newline, as long as [n1=va], the record written for the
    second file has the value [v2 ++ vb]: the end of the first value of
    the first file is appended to it.  The exit status is 0 and there is
    no diagnostic. *)
Theorem second_file_takes_leftover (rs : list record)
    (n1 va vb n2 v2 : bytes) :
  readable (n1, va ++ vb) -> Forall readable rs ->
  readable (n2, v2 ++ vb) ->
  length (esc ESC_FULL n2 ++ [EQS] ++ esc ESC_FULL v2)
  = length (esc ESC_FULL n1 ++ [EQS] ++ esc ESC_FULL va) ->
  len (text_of ESC_FULL ((n1, va ++ vb) :: rs)) <= BUFFER_MAX ->
  nvram_build
    [text_of ESC_FULL ((n1, va ++ vb) :: rs);
     esc ESC_FULL n2 ++ [EQS] ++ esc ESC_FULL v2]
  = Ok (0,
        serialize (((n1, va ++ vb) :: rs) ++ [(n2, v2 ++ vb)]),
        map written_record (((n1, va ++ vb) :: rs) ++ [(n2, v2 ++ vb)]),
        []).
Proof.
  apply nvram_build_leftover.
Qed.

Lemma second_file_takes_leftover_witness :
  nvram_build
    [text_of ESC_FULL ((str "name", str "val" ++ str "ue12") ::
                       [(str "c", str "d")]);
     esc ESC_FULL (str "k1") ++ [EQS] ++ esc ESC_FULL (str "abcde")]
  = Ok (0,
        serialize (((str "name", str "val" ++ str "ue12") ::
                    [(str "c", str "d")]) ++
                   [(str "k1", str "abcde" ++ str "ue12")]),
        map written_record
          (((str "name", str "val" ++ str "ue12") :: [(str "c", str "d")]) ++
           [(str "k1", str "abcde" ++ str "ue12")]),
        []).
Proof.
  apply (second_file_takes_leftover [(str "c", str "d")]
           (str "name") (str "val") (str "ue12") (str "k1") (str "abcde")).
  - repeat split; try discriminate; try (vm_compute; discriminate);
      cbn; intuition discriminate.
  - repeat constructor; try discriminate; try (vm_compute; discriminate);
      cbn; intuition discriminate.
  - repeat split; try discriminate; try (vm_compute; discriminate);
      cbn; intuition discriminate.
  - reflexivity.
  - vm_compute. discriminate.
Defined.

(** X22: without [-o], the extension of the first input file is replaced.
    When the name of the first input file, at most 65536 characters long,
    has a dot that is followed by no other dot and no slash, [main] opens
    for output the name up to that dot followed by [.bin].  So for an
    input file whose name already ends in [.bin] the output file is the
    input file itself, and for a name that starts with its only dot, as
    [.profile], the output file is [.bin] in the same directory. *)
Theorem extension_is_replaced (stem ext : bytes) (files : list bytes) :
  ~ In NUL (stem ++ DOT :: ext) -> ~ In DOT ext -> ~ In SLASH ext ->
  len (stem ++ DOT :: ext) <= 65536 ->
  output_name [] ((stem ++ DOT :: ext) :: files) = Some (stem ++ str ".bin").
Proof.
  intros N Hd Hs L.
  now rewrite output_name_default, default_name_extension.
Qed.

Lemma extension_is_replaced_witness :
  output_name [] ((str "/tmp/v1.2/backup" ++ DOT :: str "bin") :: [str "b"])
  = Some (str "/tmp/v1.2/backup" ++ str ".bin").
Proof.
  apply (extension_is_replaced (str "/tmp/v1.2/backup") (str "bin")
           [str "b"]).
  - cbn. intuition discriminate.
  - cbn. intuition discriminate.
  - cbn. intuition discriminate.
  - vm_compute. discriminate.
Defined.

(** X23: without [-o], [.bin] is appended to a name without extension.
    When the last path segment of the name of the first input file, at
    most 65536 characters long, holds no dot, [main] opens for output
    that name followed by [.bin], whether or not a directory of the path
    has a dot in its name. *)
Theorem extension_is_appended (dir base : bytes) (files : list bytes) :
  ~ In NUL (dir ++ base) -> ~ In DOT base -> ~ In SLASH base ->
  dir = [] \/ (exists dir', dir = dir' ++ [SLASH]) ->
  len (dir ++ base) <= 65536 ->
  output_name [] ((dir ++ base) :: files)
  = Some ((dir ++ base) ++ str ".bin").
Proof.
  intros N Hd Hs Hdir L.
  now rewrite output_name_default, default_name_no_extension.
Qed.

Lemma extension_is_appended_witness :
  output_name [] (((str "conf.d" ++ [SLASH]) ++ str "router") :: [])
  = Some (((str "conf.d" ++ [SLASH]) ++ str "router") ++ str ".bin").
Proof.
  apply (extension_is_appended (str "conf.d" ++ [SLASH]) (str "router") []).
  - cbn. intuition discriminate.
  - cbn. intuition discriminate.
  - cbn. intuition discriminate.
  - right. exists (str "conf.d"). reflexivity.
  - vm_compute. discriminate.
Defined.

(** X24: the last [-o] option decides.  With at least one input file,
    the output file is named by the first 65536 characters of the
    argument of the last [-o] option, whatever the options before it
    were; when that argument is the empty string, the name is the one
    [main] makes from the first input file, as if no [-o] had been
    given. *)
Theorem last_output_option_decides (optargs : list bytes) (o first : bytes)
    (files : list bytes) :
  output_name (optargs ++ [o]) (first :: files)
  = match firstn (Z.to_nat 65536) (cstring o) with
    | [] => output_name [] (first :: files)
    | c :: given => Some (c :: given)
    end.
Proof.
  apply output_name_option.
Qed.

(** X25: the name of the output file fits [output_filename].  Whatever
    the [-o] options and the names of the input files are, the name
    [main] gives to [fopen] is not empty, holds no NUL and is at most
    65540 characters long: with its terminating NUL it fits the 65541
    bytes of [output_filename], so the [strcpy] and the [strcat] of
    [.bin] stay inside the array. *)
Theorem output_name_fits (optargs files : list bytes) (name : bytes) :
  output_name optargs files = Some name ->
  0 < len name <= 65540 /\ ~ In NUL name.
Proof.
  apply output_name_bounds.
Qed.

Lemma output_name_fits_witness :
  0 < len (str "a.bin") <= 65540 /\ ~ In NUL (str "a.bin").
Proof.
  apply (output_name_fits [str "x"; []] [str "a.txt"; str "b"] (str "a.bin")).
  vm_compute. reflexivity.
Defined.
